(** * Reversi: the board engine and the computer opponents

    A shallow embedding of [board.py] (class [Board]) and [ai.py] (the four
    difficulty strategies), and the properties of the engine proved on it.

    Python integers are [Z]; a grid is a list of rows; the [Board] object is
    a record threaded through a small state-and-exception monad, so that a
    method of the class reads here the way it reads in the source. *)

From Stdlib Require Import ZArith QArith Qround Lia List Bool.
From stdpp Require Import base decidable option list sorting gmap sets.

Local Open Scope Z_scope.

(** * The embedding *)

(* ===================================================================== *)
(** ** Values                                                              *)
(* ===================================================================== *)

(** [class Square]: an enumeration kept as plain integers in the source. *)
Inductive Square : Type := white | black | blank.

#[global] Instance Square_eq_dec : EqDecision Square.
Proof. solve_decision. Defined.

(** The integer behind each tag ([white = 0], [black = 1], [blank = 2]). *)
Definition Square_value (s : Square) : Z :=
  match s with white => 0 | black => 1 | blank => 2 end.

Abbreviation Grid := (list (list Square)).

(** A [Board] object: [self.board] and [self.turn].  [self.board] is [None]
    when the constructor received a false [size] and no grid. *)
Record Board : Type := mkBoard { board : option Grid; turn : Square }.

(** The exceptions the modelled code can raise. *)
Inductive exn : Type := IndexError | TypeError | ValueError.

(** Outcome of running a piece of code: a value, a raised exception, or
    the loop budget of the model used up. *)
Inductive result (A : Type) : Type :=
| Ok (a : A)
| Raise (e : exn)
| OutOfFuel.
Arguments Ok {A} a.
Arguments Raise {A} e.
Arguments OutOfFuel {A}.

(* ===================================================================== *)
(** ** The monad of methods                                                *)
(* ===================================================================== *)

(** A method runs on the object [self] and either raises or returns a value
    together with the object as it left it. *)
Definition M (A : Type) : Type := Board -> result (A * Board).

Definition ret {A} (a : A) : M A := fun self => Ok (a, self).

Definition bind {A B} (m : M A) (k : A -> M B) : M B :=
  fun self =>
    match m self with
    | Ok (a, self') => k a self'
    | Raise e => Raise e
    | OutOfFuel => OutOfFuel
    end.

Definition raise {A} (e : exn) : M A := fun _ => Raise e.
Definition out_of_fuel {A} : M A := fun _ => OutOfFuel.

Definition lift {A} (x : result A) : M A :=
  fun self =>
    match x with
    | Ok a => Ok (a, self)
    | Raise e => Raise e
    | OutOfFuel => OutOfFuel
    end.

Declare Scope py_scope.
Delimit Scope py_scope with py.
Notation "x <- m ;; k" := (bind m (fun x => k))
  (at level 100, m at next level, right associativity) : py_scope.
Notation "m ;; k" := (bind m (fun _ => k))
  (at level 100, right associativity) : py_scope.
Local Open Scope py_scope.

(** Loop bodies either go on with a new loop state or leave the enclosing
    function with a value ([return] inside a loop). *)
Inductive ctl (S R : Type) : Type :=
| Next (s : S)
| Return (r : R).
Arguments Next {S R} s.
Arguments Return {S R} r.

(* ===================================================================== *)
(** ** Python sequences                                                    *)
(* ===================================================================== *)

Definition len {A} (l : list A) : Z := Z.of_nat (length l).

(** The position an index denotes: negative indices count from the end. *)
Definition norm_index {A} (l : list A) (i : Z) : Z :=
  if i <? 0 then i + len l else i.

(** [l[i]]: raises [IndexError] out of range. *)
Definition getitem {A} (l : list A) (i : Z) : result A :=
  let j := norm_index l i in
  if j <? 0 then Raise IndexError
  else match l !! Z.to_nat j with
       | Some x => Ok x
       | None => Raise IndexError
       end.

(** [l[i] = x]: raises [IndexError] out of range. *)
Definition setitem {A} (l : list A) (i : Z) (x : A) : result (list A) :=
  let j := norm_index l i in
  if (j <? 0) || (len l <=? j) then Raise IndexError
  else Ok (<[Z.to_nat j := x]> l).

(** [xrange(lo, hi)] *)
Definition xrange (lo hi : Z) : list Z :=
  map (fun k => lo + Z.of_nat k) (seq 0 (Z.to_nat (hi - lo))).

(* ===================================================================== *)
(** ** [class Board]                                                       *)
(* ===================================================================== *)

(** Reading [self.board]: every use in the class ([len], indexing,
    iteration) raises [TypeError] when the attribute is [None]. *)
Definition self_board : M Grid :=
  fun self =>
    match board self with
    | Some g => Ok (g, self)
    | None => Raise TypeError
    end.

Definition self_turn : M Square := fun self => Ok (turn self, self).

Definition set_self_turn (t : Square) : M unit :=
  fun self => Ok (tt, mkBoard (board self) t).

Definition set_self_board (g : Grid) : M unit :=
  fun self => Ok (tt, mkBoard (Some g) (turn self)).

(** [self.board[r][c]] *)
Definition board_get (r c : Z) : M Square :=
  g <- self_board ;;
  row <- lift (getitem g r) ;;
  lift (getitem row c).

(** [self.board[r][c] = v] *)
Definition board_set (r c : Z) (v : Square) : M unit :=
  g <- self_board ;;
  row <- lift (getitem g r) ;;
  row' <- lift (setitem row c v) ;;
  g' <- lift (setitem g r row') ;;
  set_self_board g'.

(** [Board.__init__(self, size, board, turn)].  [size] is an integer (or
    [None], which is false like [0]). *)
Definition __init__ (size : Z) (board0 : option Grid) (turn0 : Square)
  : result Board :=
  if size =? 0 then Ok (mkBoard board0 turn0)
  else
    let n := Z.to_nat size in
    let g0 : Grid := replicate n (replicate n blank) in
    let init : M unit :=
      board_set (size / 2) (size / 2) white ;;
      board_set (size / 2 - 1) (size / 2 - 1) white ;;
      board_set (size / 2) (size / 2 - 1) black ;;
      board_set (size / 2 - 1) (size / 2) black
    in
    match init (mkBoard (Some g0) turn0) with
    | Ok (_, self) => Ok (mkBoard (board self) turn0)
    | Raise e => Raise e
    | OutOfFuel => OutOfFuel
    end.

(** [Board.makeboard(size)] *)
Definition makeboard (size : Z) : result Board := __init__ size None white.

(** [Board.remakeboard(board, turn)] *)
Definition remakeboard (g : Grid) (t : Square) : result Board :=
  __init__ 0 (Some g) t.

(** [get_size] *)
Definition get_size : M Z := g <- self_board ;; ret (len g).

(** [get_turn] *)
Definition get_turn : M Square := self_turn.

(** [get_squares_left] *)
Definition get_squares_left : M Z :=
  g <- self_board ;;
  ret (fold_left
         (fun remaining r =>
            fold_left (fun remaining c =>
                         if decide (c = blank) then remaining + 1 else remaining)
                      r remaining)
         g 0).

(** [_validate_input(r, c, team)]; the log lines have no effect on the
    object and are left out. *)
Definition _validate_input (r c : Z) (team : Square) : M bool :=
  g <- self_board ;;
  if (r <? 0) || (len g <=? r) || (c <? 0) || (len g <=? c) then ret false
  else
    t <- self_turn ;;
    if negb (bool_decide (t = team)) then ret false
    else
      v <- board_get r c ;;
      if negb (bool_decide (v = blank)) then ret false
      else ret true.

(** [_flip_pieces(pieces)] *)
Fixpoint _flip_pieces (pieces : list (Z * Z)) : M unit :=
  match pieces with
  | [] => ret tt
  | piece :: rest =>
      v <- board_get piece.1 piece.2 ;;
      (if bool_decide (v = white)
       then board_set piece.1 piece.2 black
       else board_set piece.1 piece.2 white) ;;
      _flip_pieces rest
  end.

(** [for x in xs: body], the loop state passed along; the body may leave
    the function ([Return]). *)
Fixpoint for_in {X S R} (xs : list X) (body : X -> S -> M (ctl S R)) (s : S)
  : M (ctl S R) :=
  match xs with
  | [] => ret (Next s)
  | x :: xs' =>
      o <- body x s ;;
      match o with
      | Next s' => for_in xs' body s'
      | Return v => ret (Return v)
      end
  end.

(** [for x in xs: body] for a body without [return]. *)
Fixpoint for_each {X S} (xs : list X) (body : X -> S -> M S) (s : S) : M S :=
  match xs with
  | [] => ret s
  | x :: xs' => s' <- body x s ;; for_each xs' body s'
  end.

(** Iterations granted to a [while] loop that walks over the grid; no walk
    in one direction is longer than this. *)
Definition ray_budget (g : Grid) : nat := length g + length (concat g).

(** The innermost loop of [_validate_flip]:
    [while cur_r + mv_r != r or cur_c + mv_c != c: ...] walks back from the
    piece found to the candidate square, appending each square passed. *)
Fixpoint walk_back (fuel : nat) (r c mv_r mv_c cur_r cur_c : Z)
    (flip_pieces : list (Z * Z)) : result (list (Z * Z)) :=
  if negb (cur_r + mv_r =? r) || negb (cur_c + mv_c =? c) then
    match fuel with
    | O => OutOfFuel
    | S fuel' =>
        let cur_r := cur_r + mv_r in
        let cur_c := cur_c + mv_c in
        walk_back fuel' r c mv_r mv_c cur_r cur_c
                  (flip_pieces ++ [(cur_r, cur_c)])
    end
  else Ok flip_pieces.

(** The [while] loop of [_validate_flip] for one direction [(dr, dc)],
    entered at [(cur_r, cur_c)].  [Next] carries [flip_pieces] on to the
    next direction; [Return 1] is the early [return 1]. *)
Fixpoint scan_ray (fuel : nat) (r c : Z) (team : Square) (keep_score : bool)
    (dr dc cur_r cur_c : Z) (found_other : bool) (flip_pieces : list (Z * Z))
  : M (ctl (list (Z * Z)) Z) :=
  g <- self_board ;;
  if (cur_r <? len g) && (0 <=? cur_r) then
    row0 <- lift (getitem g 0) ;;
    if (cur_c <? len row0) && (0 <=? cur_c) then
      match fuel with
      | O => out_of_fuel
      | S fuel' =>
          v <- board_get cur_r cur_c ;;
          if bool_decide (v = blank) then ret (Next flip_pieces)
          else if bool_decide (v = team) then
            if found_other then
              if keep_score then
                fp <- lift (walk_back (ray_budget g) r c (-1 * dr) (-1 * dc)
                                      cur_r cur_c flip_pieces) ;;
                ret (Next fp)
              else ret (Return 1)
            else ret (Next flip_pieces)
          else
            scan_ray fuel' r c team keep_score dr dc
                     (cur_r + dr) (cur_c + dc) true flip_pieces
      end
    else ret (Next flip_pieces)
  else ret (Next flip_pieces).

(** [_validate_flip(r, c, team, should_flip, keep_score)] *)
Definition _validate_flip (r c : Z) (team : Square)
    (should_flip keep_score : bool) : M Z :=
  o <- for_in (xrange (-1) 2) (fun dr flip_pieces =>
         for_in (xrange (-1) 2) (fun dc flip_pieces =>
           if (dr =? 0) && (dc =? 0) then ret (Next flip_pieces)
           else
             g <- self_board ;;
             scan_ray (ray_budget g) r c team keep_score dr dc
                      (r + dr) (c + dc) false flip_pieces)
           flip_pieces) [] ;;
  match o with
  | Return v => ret v
  | Next flip_pieces =>
      let flip_set : gset (Z * Z) := list_to_set flip_pieces in
      (if should_flip then _flip_pieces (elements flip_set) else ret tt) ;;
      ret (Z.of_nat (size flip_set))
  end.

(** [_flip(r, c, team)] *)
Definition _flip (r c : Z) (team : Square) : M Z :=
  _validate_flip r c team true true.

(** [flip_score(r, c, team)] *)
Definition flip_score (r c : Z) (team : Square) : M Z :=
  ok <- _validate_input r c team ;;
  if ok then _validate_flip r c team false true else ret 0.

(** [can_flip(r, c, team)]; an integer is true when it is not zero. *)
Definition can_flip (r c : Z) (team : Square) : M bool :=
  ok <- _validate_input r c team ;;
  if ok then
    v <- _validate_flip r c team false false ;;
    if negb (v =? 0) then ret true else ret false
  else ret false.

(** [can_move(team)] *)
Definition can_move (team : Square) : M bool :=
  g <- self_board ;;
  o <- for_in (xrange 0 (len g)) (fun r (_ : unit) =>
         g <- self_board ;;
         for_in (xrange 0 (len g)) (fun c (_ : unit) =>
           b <- can_flip r c team ;;
           if b then ret (Return true) else ret (Next tt)) tt) tt ;;
  match o with
  | Return v => ret v
  | Next _ => ret false
  end.

(** [_set_next_turn()] *)
Definition _set_next_turn : M unit :=
  cur_turn <- self_turn ;;
  set_self_turn black ;;
  black_able <- can_move black ;;
  set_self_turn white ;;
  white_able <- can_move white ;;
  set_self_turn cur_turn ;;
  (if negb black_able && negb white_able then set_self_turn blank
   else ret tt) ;;
  t <- self_turn ;;
  if bool_decide (t = white) then
    set_self_turn black ;;
    if negb black_able then set_self_turn white else ret tt
  else if bool_decide (t = black) then
    set_self_turn white ;;
    if negb white_able then set_self_turn black else ret tt
  else ret tt.

(** [add_piece(r, c, team)] *)
Definition add_piece (r c : Z) (team : Square) : M Z :=
  ok <- _validate_input r c team ;;
  if negb ok then ret 0
  else
    t <- self_turn ;;
    points <- _flip r c t ;;
    if points =? 0 then ret 0
    else
      t <- self_turn ;;
      board_set r c t ;;
      _set_next_turn ;;
      ret points.

(** [who_won()]: a [Square] tag as its integer, or [-1]. *)
Definition who_won : M Z :=
  let white_advantage := 0 in
  t <- self_turn ;;
  if negb (bool_decide (t = blank)) then ret (-1)
  else
    g <- self_board ;;
    white_advantage <-
      for_each (xrange 0 (len g)) (fun r white_advantage =>
        g <- self_board ;;
        for_each (xrange 0 (len g)) (fun c white_advantage =>
          v <- board_get r c ;;
          if bool_decide (v = white) then ret (white_advantage + 1)
          else
            v <- board_get r c ;;
            if bool_decide (v = black) then ret (white_advantage - 1)
            else ret white_advantage)
          white_advantage)
        white_advantage ;;
    if white_advantage =? 0 then ret (Square_value blank)
    else if 0 <? white_advantage then ret (Square_value white)
    else ret (Square_value black).

(** [num_pieces(team)] *)
Definition num_pieces (team : Square) : M Z :=
  g <- self_board ;;
  for_each (xrange 0 (len g)) (fun r pieces =>
    g <- self_board ;;
    for_each (xrange 0 (len g)) (fun c pieces =>
      v <- board_get r c ;;
      if bool_decide (v = team) then ret (pieces + 1) else ret pieces)
      pieces)
    0.

(* ===================================================================== *)
(** ** [ai.py]                                                             *)
(* ===================================================================== *)

(** A move is the list [[r, c, score]]. *)
Definition Move : Type := (Z * Z * Z)%type.

Definition move_r (m : Move) : Z := m.1.1.
Definition move_c (m : Move) : Z := m.1.2.
Definition move_score (m : Move) : Z := m.2.
Definition set_move_score (m : Move) (v : Z) : Move := (m.1, v).

(** Running a block of code on another object: the value it returns and the
    object as the block left it. *)
Definition run_on {A} (o : Board) (m : M A) : M (A * Board) :=
  fun self =>
    match m o with
    | Ok (a, o') => Ok ((a, o'), self)
    | Raise e => Raise e
    | OutOfFuel => OutOfFuel
    end.

(** [deepcopy(board)]: an independent copy of the object [self]. *)
Definition deepcopy_self : M Board := fun self => Ok (self, self).

(** [sorted(l, key=..., reverse=True)]: Python's sort is stable, also
    when reversed, so equal keys keep the order they had in [l]. *)
Fixpoint insert_desc {A} (key : A -> Z) (x : A) (l : list A) : list A :=
  match l with
  | [] => [x]
  | y :: l' =>
      if key y <=? key x then x :: y :: l' else y :: insert_desc key x l'
  end.

Definition sorted_reverse {A} (key : A -> Z) (l : list A) : list A :=
  foldr (insert_desc key) [] l.

(** [_get_moves(board, team)], [board] being the object the code runs on. *)
Definition _get_moves (team : Square) : M (list Move) :=
  n <- get_size ;;
  valid_moves <-
    for_each (xrange 0 n) (fun r valid_moves =>
      n <- get_size ;;
      for_each (xrange 0 n) (fun c valid_moves =>
        score <- flip_score r c team ;;
        if negb (score =? 0) then ret (valid_moves ++ [(r, c, score)])
        else ret valid_moves)
        valid_moves)
      [] ;;
  ret (sorted_reverse move_score valid_moves).

(** [bisect(a, x)] of the standard library ([bisect_right]): the binary
    search for the insertion point of [x] after any entries equal to it. *)
Fixpoint bisect_loop (fuel : nat) (a : list Z) (x : Q) (lo hi : Z)
  : result Z :=
  if lo <? hi then
    match fuel with
    | O => OutOfFuel
    | S fuel' =>
        let mid := (lo + hi) / 2 in
        match getitem a mid with
        | Ok am =>
            if negb (Qle_bool (inject_Z am) x)
            then bisect_loop fuel' a x lo mid
            else bisect_loop fuel' a x (mid + 1) hi
        | Raise e => Raise e
        | OutOfFuel => OutOfFuel
        end
    end
  else Ok lo.

Definition bisect (a : list Z) (x : Q) : result Z :=
  bisect_loop (S (length a)) a x 0 (len a).

(** [random.randrange(start, stop)], [u] being the number in [[0, 1)] the
    generator draws: [start + int(u * width)], [ValueError] on an empty
    range. *)
Definition randrange (u : Q) (start stop : Z) : result Z :=
  let width := stop - start in
  if 0 <? width then Ok (start + Qfloor (u * inject_Z width))
  else Raise ValueError.

(** Sequencing for code that touches no object. *)
Definition rbind {A B} (x : result A) (k : A -> result B) : result B :=
  match x with
  | Ok a => k a
  | Raise e => Raise e
  | OutOfFuel => OutOfFuel
  end.

(** The loop of [_weight_moves_thirds]; the state is
    [(valid_moves, total, cumulative_weights)].  [i * 1.5 <= n] on integers
    is [3 * i <= 2 * n]. *)
Fixpoint weigh_loop (idxs : list Z) (weights : list Z)
    (st : list Move * Z * list Z) : result (list Move * Z * list Z) :=
  match idxs with
  | [] => Ok st
  | i :: idxs' =>
      let '(valid_moves, total, cumulative_weights) := st in
      rbind (getitem valid_moves i) (fun mv =>
      rbind (if i * 3 <=? len valid_moves then getitem weights 0
             else if 3 * i <=? 2 * len valid_moves then getitem weights 1
             else getitem weights 2) (fun w =>
      let mv' := set_move_score mv (move_score mv * w) in
      rbind (setitem valid_moves i mv') (fun valid_moves =>
      let total := total + move_score mv' in
      weigh_loop idxs' weights
                 (valid_moves, total, cumulative_weights ++ [total]))))
  end.

(** [_weight_moves_thirds(valid_moves, weights)]; [u] is the value of
    [random.random()], and the product [u * total] is taken exactly. *)
Definition _weight_moves_thirds (u : Q) (valid_moves : list Move)
    (weights : list Z) : result Move :=
  rbind (weigh_loop (xrange 0 (len valid_moves)) weights (valid_moves, 0, []))
    (fun '(valid_moves, total, cumulative_weights) =>
  rbind (bisect cumulative_weights (u * inject_Z total)) (fun our_move =>
  let our_move :=
    if our_move =? len valid_moves then our_move - 1 else our_move in
  getitem valid_moves our_move)).

(** [novice_move(board)] *)
Definition novice_move (u : Q) : M Move :=
  valid_moves <- _get_moves black ;;
  m0 <- lift (getitem valid_moves 0) ;;
  let large := move_score m0 in
  valid_moves <- lift
    (foldl (fun acc i =>
              rbind acc (fun valid_moves =>
              rbind (getitem valid_moves i) (fun mv =>
              setitem valid_moves i
                      (set_move_score mv (large - move_score mv)))))
           (Ok valid_moves) (xrange 0 (len valid_moves))) ;;
  let weights := [2; 3; 4] in
  lift (_weight_moves_thirds u valid_moves weights).

(** [weak_move(board)] *)
Definition weak_move (u : Q) : M Move :=
  valid_moves <- _get_moves black ;;
  k <- lift (randrange u 0 (len valid_moves)) ;;
  lift (getitem valid_moves k).

(** [moderate_move(board)] *)
Definition moderate_move (u : Q) : M Move :=
  valid_moves <- _get_moves black ;;
  let weights := [5; 2; 0] in
  lift (_weight_moves_thirds u valid_moves weights).

(** The [while new_board.get_turn() == Square.white] loop of
    [strong_move_recurse], run on [new_board]; it returns
    [num_moves_left] as the loop leaves it. *)
Fixpoint white_replies (fuel : nat) (num_moves_left : Z) : M Z :=
  t <- get_turn ;;
  if bool_decide (t = white) then
    match fuel with
    | O => out_of_fuel
    | S fuel' =>
        white_moves <- _get_moves white ;;
        white_move <- lift (getitem white_moves 0) ;;
        add_piece (move_r white_move) (move_c white_move) white ;;
        t <- get_turn ;;
        let num_moves_left :=
          if bool_decide (t = blank) then 1 else num_moves_left in
        white_replies fuel' num_moves_left
    end
  else ret num_moves_left.

(** Iterations granted to the loop of greedy replies: every reply fills a
    square. *)
Definition reply_budget (o : Board) : nat :=
  match board o with
  | Some g => S (length (concat g))
  | None => 1
  end.

(** The loop, entered on the object as it stands. *)
Definition white_replies_loop (num_moves_left : Z) : M Z :=
  fun self => white_replies (reply_budget self) num_moves_left self.

(** The body of the [for move in valid_moves] loop of
    [strong_move_recurse], run on [new_board]: the candidate is played,
    white answers greedily, and the search goes on ([recurse]) with
    [num_moves_left - 1].  It returns [num_moves_left] as the body leaves
    it, and [move_result]. *)
Definition candidate_branch
    (recurse : Z -> option Move -> M (option Move * Z))
    (num_moves_left : Z) (move : Move) : M (Z * (option Move * Z)) :=
  add_piece (move_r move) (move_c move) black ;;
  t <- get_turn ;;
  let num_moves_left :=
    if bool_decide (t = blank) then 1 else num_moves_left in
  num_moves_left <- white_replies_loop num_moves_left ;;
  move_result <- recurse (num_moves_left - 1) (Some move) ;;
  ret (num_moves_left, move_result).

(** The [for move in valid_moves] loop.  The loop state is
    [(num_moves_left, move_results)]: the assignment [num_moves_left = 1]
    in the body is to the variable of the function, so the iterations
    that follow see it. *)
Definition candidates_loop
    (recurse : Z -> option Move -> M (option Move * Z))
    (valid_moves : list Move) (num_moves_left : Z)
  : M (Z * list (Move * Z)) :=
  for_each valid_moves (fun move '(num_moves_left, move_results) =>
    new_board <- deepcopy_self ;;
    out <- run_on new_board (candidate_branch recurse num_moves_left move) ;;
    let '(num_moves_left, move_result) := out.1 in
    ret (num_moves_left, move_results ++ [(move, move_result.2)]))
    (num_moves_left, []).

(** [strong_move_recurse(board, num_moves_left, move)], [board] being the
    object the code runs on. *)
Fixpoint strong_move_recurse (fuel : nat) (num_moves_left : Z)
    (move : option Move) : M (option Move * Z) :=
  if num_moves_left =? 0 then
    n <- num_pieces black ;;
    ret (move, n)
  else
    match fuel with
    | O => out_of_fuel
    | S fuel' =>
        valid_moves <- _get_moves black ;;
        st <- candidates_loop (strong_move_recurse fuel') valid_moves
                              num_moves_left ;;
        let move_results := st.2 in
        let sorted_moves := sorted_reverse snd move_results in
        best_move <- lift (getitem sorted_moves 0) ;;
        ret (Some best_move.1, best_move.2)
    end.

(** [strong_move(board)] *)
Definition strong_move : M (option Move) :=
  let moves_in_advance := 3 in
  copy <- deepcopy_self ;;
  our_move <- run_on copy
    (strong_move_recurse (Z.to_nat moves_in_advance) moves_in_advance None) ;;
  ret our_move.1.1.

(** The search as the specification words it: reaching the terminal state
    stops the recursion on that branch only, every candidate being
    searched from the remaining depth the level was entered with. *)
Definition spec_candidates_loop
    (recurse : Z -> option Move -> M (option Move * Z))
    (valid_moves : list Move) (depth : Z) : M (list (Move * Z)) :=
  for_each valid_moves (fun move move_results =>
    new_board <- deepcopy_self ;;
    out <- run_on new_board (candidate_branch recurse depth move) ;;
    ret (move_results ++ [(move, out.1.2.2)]))
    [].

Fixpoint spec_search (fuel : nat) (depth : Z) (last_move : option Move)
  : M (option Move * Z) :=
  if depth =? 0 then
    n <- num_pieces black ;;
    ret (last_move, n)
  else
    match fuel with
    | O => out_of_fuel
    | S fuel' =>
        valid_moves <- _get_moves black ;;
        move_results <- spec_candidates_loop (spec_search fuel') valid_moves
                                             depth ;;
        best_move <- lift (getitem (sorted_reverse snd move_results) 0) ;;
        ret (Some best_move.1, best_move.2)
    end.

(** * Notions of the specification, and of the proofs *)

(* ===================================================================== *)
(** ** Grids and what the specification says about them                    *)
(* ===================================================================== *)

(** An N x N grid. *)
Definition square (g : Grid) : Prop :=
  Forall (fun row => length row = length g) g.

(** A board the engine is meant to work on: it has a grid, which is
    square. *)
Definition well_formed (b : Board) (g : Grid) : Prop :=
  board b = Some g /\ square g.

(** The cell at [(r, c)], [None] outside the grid. *)
Definition cell_at (g : Grid) (r c : Z) : option Square :=
  if (0 <=? r) && (0 <=? c)
  then row ← g !! Z.to_nat r; row !! Z.to_nat c
  else None.

Definition in_bounds (g : Grid) (r c : Z) : Prop :=
  0 <= r < len g /\ 0 <= c < len g.

(** Writing an in-range cell: the grid with that cell replaced. *)
Definition grid_set (g : Grid) (r c : Z) (v : Square) : Grid :=
  match g !! Z.to_nat r with
  | Some row => <[Z.to_nat r := <[Z.to_nat c := v]> row]> g
  | None => g
  end.

(* ===================================================================== *)
(** ** Tactics                                                            *)
(* ===================================================================== *)

(** Case analysis on the integer comparisons of a goal. *)
Ltac zcases :=
  repeat match goal with
  | H : context [Z.ltb _ _] |- _ => revert H
  | H : context [Z.leb _ _] |- _ => revert H
  | H : context [Z.eqb _ _] |- _ => revert H
  | |- context [?a <? ?b] => destruct (Z.ltb_spec a b)
  | |- context [?a <=? ?b] => destruct (Z.leb_spec a b)
  | |- context [?a =? ?b] => destruct (Z.eqb_spec a b)
  end; intros; simpl; try lia.

(** Boolean tests in a hypothesis, as propositions. *)
Ltac zprop H :=
  rewrite ?andb_true_iff, ?andb_false_iff, ?orb_true_iff, ?orb_false_iff,
    ?negb_true_iff, ?negb_false_iff, ?Z.ltb_lt, ?Z.ltb_ge, ?Z.leb_le,
    ?Z.leb_gt, ?Z.eqb_eq, ?Z.eqb_neq in H.

(* ===================================================================== *)
(** ** Capture, as the specification words it                              *)
(* ===================================================================== *)

(** The eight ray directions. *)
Definition directions : list (Z * Z) :=
  [(-1, -1); (-1, 0); (-1, 1); (0, -1); (0, 1); (1, -1); (1, 0); (1, 1)].

(** Walking one ray cell by cell from [(r, c)]: leaving the grid or an
    empty cell gives nothing; a cell of the acting side gives the
    opposing-side cells met so far ([seen]); an opposing-side cell is
    recorded and the walk goes on.  [steps] bounds the walk. *)
Fixpoint spec_capture_run (g : Grid) (side : Square) (dr dc : Z)
    (steps : nat) (r c : Z) (seen : list (Z * Z)) : list (Z * Z) :=
  match steps with
  | O => []
  | S k =>
      match cell_at g r c with
      | None => []
      | Some v =>
          if bool_decide (v = blank) then []
          else if bool_decide (v = side) then seen
          else spec_capture_run g side dr dc k (r + dr) (c + dc)
                                (seen ++ [(r, c)])
      end
  end.

(** The capture set of a candidate cell: the union of the capture runs of
    the eight rays leaving it. *)
Definition spec_capture_set (g : Grid) (side : Square) (r c : Z)
  : gset (Z * Z) :=
  ⋃ (map (fun d : Z * Z =>
            list_to_set (spec_capture_run g side d.1 d.2 (length g)
                                          (r + d.1) (c + d.2) []))
         directions).

(** The score of a candidate: the size of its capture set. *)
Definition spec_score (g : Grid) (side : Square) (r c : Z) : Z :=
  Z.of_nat (size (spec_capture_set g side r c)).

(** A placement of [side] at [(r, c)] that captures: the cell is in the
    grid and empty, and at least one opposing piece is captured. *)
Definition spec_capturing (g : Grid) (side : Square) (r c : Z) : bool :=
  bool_decide (cell_at g r c = Some blank) && (0 <? spec_score g side r c).

(** All the cells of the grid, row by row. *)
Definition cells (g : Grid) : list (Z * Z) :=
  r ← xrange 0 (len g); c ← xrange 0 (len g); [(r, c)].

(** [side] has somewhere to move. *)
Definition spec_has_move (g : Grid) (side : Square) : bool :=
  existsb (fun p : Z * Z => spec_capturing g side p.1 p.2) (cells g).

(* ===================================================================== *)
(** ** The scan of one ray                                                 *)
(* ===================================================================== *)

Definition is_direction (dr dc : Z) : Prop :=
  (dr = -1 \/ dr = 0 \/ dr = 1) /\ (dc = -1 \/ dc = 0 \/ dc = 1) /\
  ~ (dr = 0 /\ dc = 0).

(** The [i]-th cell of the ray leaving [(r, c)] in direction [(dr, dc)]. *)
Definition ray_cell (r c dr dc : Z) (i : nat) : Z * Z :=
  (r + Z.of_nat i * dr, c + Z.of_nat i * dc).

(** Its first [j] cells. *)
Definition ray_cells (r c dr dc : Z) (j : nat) : list (Z * Z) :=
  map (ray_cell r c dr dc) (seq 1 j).

(** What the scan of one ray returns, in the words of the specification. *)
Definition ray_outcome (keep_score : bool) (fp run : list (Z * Z))
  : ctl (list (Z * Z)) Z :=
  if keep_score then Next (fp ++ rev run)
  else if bool_decide (run = []) then Next fp else Return 1.

(* ===================================================================== *)
(** ** Loops over code that leaves the object alone                        *)
(* ===================================================================== *)

(** [for_in] on a body that is a function of the loop state. *)
Fixpoint pure_for_in {X S R} (xs : list X) (f : X -> S -> ctl S R) (s : S)
  : ctl S R :=
  match xs with
  | [] => Next s
  | x :: xs' =>
      match f x s with
      | Next s' => pure_for_in xs' f s'
      | Return v => Return v
      end
  end.

(* ===================================================================== *)
(** ** [_validate_flip]                                                    *)
(* ===================================================================== *)

(** The directions loop of [_validate_flip]. *)
Definition directions_loop (r c : Z) (team : Square) (keep_score : bool)
  : M (ctl (list (Z * Z)) Z) :=
  for_in (xrange (-1) 2) (fun dr flip_pieces =>
    for_in (xrange (-1) 2) (fun dc flip_pieces =>
      if (dr =? 0) && (dc =? 0) then ret (Next flip_pieces)
      else
        g <- self_board ;;
        scan_ray (ray_budget g) r c team keep_score dr dc
                 (r + dr) (c + dc) false flip_pieces)
      flip_pieces) [].

(* ===================================================================== *)
(** ** [_validate_input] and [flip_score]                                  *)
(* ===================================================================== *)

(** The three checks of [_validate_input]. *)
Definition valid_input (g : Grid) (t : Square) (r c : Z) (team : Square)
  : bool :=
  bool_decide (in_bounds g r c) && bool_decide (t = team)
  && bool_decide (cell_at g r c = Some blank).

(* ===================================================================== *)
(** ** The capture set, cell by cell                                       *)
(* ===================================================================== *)

(** A cell of the grid that holds a piece of the other side. *)
Definition opposing (g : Grid) (side : Square) (p : Z * Z) : Prop :=
  exists v, cell_at g p.1 p.2 = Some v /\ v <> blank /\ v <> side.

(** [p] lies strictly between [(r, c)] and the first cell of [side] on
    the ray of direction [(dr, dc)], every cell in between holding a
    piece of the other side. *)
Definition captured_along (g : Grid) (side : Square) (r c dr dc : Z)
    (p : Z * Z) : Prop :=
  exists m k : nat,
    (1 <= k < m)%nat /\ p = ray_cell r c dr dc k /\
    cell_at g (ray_cell r c dr dc m).1 (ray_cell r c dr dc m).2 = Some side /\
    side <> blank /\
    forall j, (1 <= j < m)%nat -> opposing g side (ray_cell r c dr dc j).

Definition captured (g : Grid) (side : Square) (r c : Z) (p : Z * Z) : Prop :=
  exists d : Z * Z, d ∈ directions /\ captured_along g side r c d.1 d.2 p.

(* ===================================================================== *)
(** ** Flipping and placing                                                *)
(* ===================================================================== *)

(** One piece turned over, as [_flip_pieces] does it. *)
Definition flip_cell (g : Grid) (p : Z * Z) : Grid :=
  grid_set g p.1 p.2
           (if bool_decide (cell_at g p.1 p.2 = Some white)
            then black else white).

Definition flip_cells (g : Grid) (l : list (Z * Z)) : Grid :=
  foldl flip_cell g l.

(** The other player. *)
Definition opponent (s : Square) : Square :=
  match s with white => black | black => white | blank => blank end.

(** Turn advancement in the words of the specification: the non-mover if
    it can move, else the mover if it can, else the terminal marker. *)
Definition spec_next_turn (g : Grid) (mover : Square) : Square :=
  if spec_has_move g (opponent mover) then opponent mover
  else if spec_has_move g mover then mover
  else blank.

(** The grid after a placement of [t] at [(r, c)]: the capture set turned
    over, then the piece put down. *)
Definition placed_grid (g : Grid) (t : Square) (r c : Z) : Grid :=
  grid_set (flip_cells g (elements (spec_capture_set g t r c))) r c t.

(* ===================================================================== *)
(** ** Boards of the test suite                                            *)
(* ===================================================================== *)

(** [new_4_board] of [main_test.py]. *)
Definition new_4_grid : Grid :=
  [ [blank; blank; blank; blank];
    [blank; white; black; blank];
    [blank; black; white; blank];
    [blank; blank; blank; blank] ].

Definition new_4_board : Board := mkBoard (Some new_4_grid) white.

(** The board [test_board_valid_move] expects after white plays (1, 3);
    it is black's turn. *)
Definition after_1_3_grid : Grid :=
  [ [blank; blank; blank; blank];
    [blank; white; white; white];
    [blank; black; white; blank];
    [blank; blank; blank; blank] ].

Definition after_1_3_board : Board := mkBoard (Some after_1_3_grid) black.

(* ===================================================================== *)
(** ** Counting pieces and the winner                                      *)
(* ===================================================================== *)

(** The number of cells of the grid holding [s]. *)
Definition count_pieces (g : Grid) (s : Square) : Z :=
  Z.of_nat (length (filter (fun v => v = s) (concat g))).

(** Sum of [h] over a list. *)
Definition sumZ {X} (h : X -> Z) (l : list X) : Z :=
  foldr (fun x a => h x + a) 0 l.

(** What a cell adds to [white_advantage]. *)
Definition advantage (v : Square) : Z :=
  match v with white => 1 | black => -1 | blank => 0 end.

(** The final position of [test_board_game_over_white_win]. *)
Definition white_win_grid : Grid :=
  [ [black; black; black; black];
    [black; white; white; white];
    [black; white; white; white];
    [black; white; white; white] ].

Definition white_win_board : Board := mkBoard (Some white_win_grid) blank.

(* ===================================================================== *)
(** ** The stable sort                                                     *)
(* ===================================================================== *)

(** The order of a list sorted by [sorted]: larger key first; on equal
    keys, the order [before] of the input. *)
Definition sorted_order {A : Type} (key : A -> Z) (before : relation A)
    (x y : A) : Prop :=
  key y < key x \/ (key x = key y /\ before x y).

(* ===================================================================== *)
(** ** [_get_moves]                                                        *)
(* ===================================================================== *)

(** Row-major order of the squares of two moves. *)
Definition row_major (m1 m2 : Move) : Prop :=
  move_r m1 < move_r m2 \/ (move_r m1 = move_r m2 /\ move_c m1 < move_c m2).

(** The order of the list [_get_moves] returns: descending score, and
    row-major among equal scores. *)
Definition move_order : relation Move := sorted_order move_score row_major.

(** What the two scanning loops collect, given the score of each square. *)
Definition scan_moves (score : Z -> Z -> Z) (n : Z) : list Move :=
  r ← xrange 0 n; c ← xrange 0 n;
  if negb (score r c =? 0) then [(r, c, score r c)] else [].

(* ===================================================================== *)
(** ** The depth of the lookahead                                          *)
(* ===================================================================== *)

(** A position of the 4 x 4 game, black to move: black can take (2, 0),
    which ends the game, or (3, 0), which does not. *)
Definition leak_grid : Grid :=
  [ [black; black; black; black];
    [white; black; black; black];
    [blank; white; black; black];
    [blank; white; blank; blank] ].

Definition leak_board : Board := mkBoard (Some leak_grid) black.

(** The recursion of [strong_move], three plies deep. *)
Definition search3 : Z -> option Move -> M (option Move * Z) :=
  strong_move_recurse 2.

(* ===================================================================== *)
(** ** The thirds of the weighted sampler                                  *)
(* ===================================================================== *)

(** Rank [i] (from 0) in a list of [n] moves sorted by descending score
    lies in the bottom third of the list. *)
Definition in_bottom_third (n i : Z) : bool :=
  (2 * n <=? 3 * i) && (i <? n).

(* ===================================================================== *)
(** ** More of [class Board]                                               *)
(* ===================================================================== *)

(** [get_num_moves] *)
Definition get_num_moves : M Z :=
  g <- self_board ;;
  g' <- self_board ;;
  squares_left <- get_squares_left ;;
  ret (len g * len g' - 4 - squares_left).

(** 1 for a cell holding [s], else 0. *)
Definition holds (s v : Square) : Z := if decide (v = s) then 1 else 0.

(** The opening position on a grid of side [size]: the four centre cells,
    as [__init__] writes them. *)
Definition opening_cell (size r c : Z) : Square :=
  if bool_decide ((r = size / 2 /\ c = size / 2) \/
                  (r = size / 2 - 1 /\ c = size / 2 - 1)) then white
  else if bool_decide ((r = size / 2 /\ c = size / 2 - 1) \/
                       (r = size / 2 - 1 /\ c = size / 2)) then black
  else blank.

(** A piece turned over, as [_flip_pieces] does it: white becomes black,
    anything else becomes white. *)
Definition flipped (v : Square) : Square :=
  if bool_decide (v = white) then black else white.

(** The grid [__init__] builds for [size]: all blank, then the four
    centre cells written in the order of the source. *)
Definition opening_grid (size : Z) : Grid :=
  let n := Z.to_nat size in
  grid_set
    (grid_set
       (grid_set
          (grid_set (replicate n (replicate n blank))
                    (size / 2) (size / 2) white)
          (size / 2 - 1) (size / 2 - 1) white)
       (size / 2) (size / 2 - 1) black)
    (size / 2 - 1) (size / 2) black.

(* ===================================================================== *)
(** ** The weighted sampler, step by step                                  *)
(* ===================================================================== *)

(** A list of integers in ascending order (not strictly). *)
Definition ascending (a : list Z) : Prop :=
  forall i j vi vj, (i <= j)%nat -> a !! i = Some vi -> a !! j = Some vj ->
                    vi <= vj.

(** The multiplier [_weight_moves_thirds] applies at rank [i] of [n]
    moves, for the weights [[w0, w1, w2]]. *)
Definition rank_weight (w0 w1 w2 n i : Z) : Z :=
  if i * 3 <=? n then w0 else if 3 * i <=? 2 * n then w1 else w2.

(** The moves from rank [i] on, each with its score multiplied. *)
Fixpoint weigh_from (w0 w1 w2 n i : Z) (todo : list Move) : list Move :=
  match todo with
  | [] => []
  | m :: rest =>
      set_move_score m (move_score m * rank_weight w0 w1 w2 n i)
      :: weigh_from w0 w1 w2 n (i + 1) rest
  end.

(** The running totals of the scores of a list, started at [total]. *)
Fixpoint running_totals (total : Z) (l : list Move) : list Z :=
  match l with
  | [] => []
  | m :: rest =>
      (total + move_score m) :: running_totals (total + move_score m) rest
  end.

(** The list [_get_moves(board, team)] returns on a board of grid [g]
    and turn [t]. *)
Definition listed_moves (g : Grid) (t team : Square) : list Move :=
  sorted_reverse move_score
    (scan_moves (fun r c => if valid_input g t r c team
                            then spec_score g team r c else 0) (len g)).

(** The loop of [novice_move] that turns each score [s] into
    [large - s]. *)
Definition invert_scores (large : Z) (valid_moves : list Move)
    (idxs : list Z) : result (list Move) :=
  foldl (fun acc i =>
           rbind acc (fun valid_moves =>
           rbind (getitem valid_moves i) (fun mv =>
           setitem valid_moves i
                   (set_move_score mv (large - move_score mv)))))
        (Ok valid_moves) idxs.

(** A move with its score inverted, as the loop of [novice_move] leaves
    it. *)
Definition inverted (large : Z) (m : Move) : Move :=
  set_move_score m (large - move_score m).

(** The turn of a board agrees with its grid: the side to move, if any,
    has somewhere to move.  [add_piece] leaves every board so. *)
Definition turn_consistent (b : Board) (g : Grid) : Prop :=
  turn b <> blank -> spec_has_move g (turn b) = true.

(** What the search needs of its recursive call: on a board whose turn
    agrees with its grid, with a depth the fuel covers, and black to move
    unless the depth is 0, it returns and leaves the board as it was. *)
Definition recurse_ok (fuel : nat)
    (recurse : Z -> option Move -> M (option Move * Z)) : Prop :=
  forall n move b g,
    well_formed b g -> turn_consistent b g ->
    0 <= n <= Z.of_nat fuel -> (n <> 0 -> turn b = black) ->
    exists mv v, recurse n move b = Ok ((mv, v), b).

(** The [for move in valid_moves] loop of [strong_move_recurse], from any
    loop state. *)
Definition candidates_from
    (recurse : Z -> option Move -> M (option Move * Z))
    (valid_moves : list Move) (st : Z * list (Move * Z))
  : M (Z * list (Move * Z)) :=
  for_each valid_moves (fun move '(num_moves_left, move_results) =>
    new_board <- deepcopy_self ;;
    out <- run_on new_board (candidate_branch recurse num_moves_left move) ;;
    let '(num_moves_left, move_result) := out.1 in
    ret (num_moves_left, move_results ++ [(move, move_result.2)]))
    st.

(** A board reached from [b0] by a series of calls of [add_piece], of
    which [k] placed a piece (returned a positive count). *)
Inductive played (b0 : Board) : nat -> Board -> Prop :=
  | played_none : played b0 0 b0
  | played_call k b r c team p b' :
      played b0 k b -> add_piece r c team b = Ok (p, b') ->
      played b0 (if 0 <? p then S k else k) b'.

(** * Properties *)

(* ===================================================================== *)
(** ** Running the monad                                                   *)
(* ===================================================================== *)

Lemma bind_ok {A B} (m : M A) (k : A -> M B) self a self' :
  m self = Ok (a, self') -> bind m k self = k a self'.
Proof. intros H. unfold bind. now rewrite H. Qed.

Lemma bind_raise {A B} (m : M A) (k : A -> M B) self e :
  m self = Raise e -> bind m k self = Raise e.
Proof. intros H. unfold bind. now rewrite H. Qed.

Lemma self_board_ok b g : board b = Some g -> self_board b = Ok (g, b).
Proof. intros H. unfold self_board. now rewrite H. Qed.

Lemma getitem_lookup {A} (l : list A) (i : Z) x :
  0 <= i -> l !! Z.to_nat i = Some x -> getitem l i = Ok x.
Proof.
  intros Hi Hl. unfold getitem, norm_index. zcases. now rewrite Hl.
Qed.

Lemma getitem_nil {A} (i : Z) : getitem (@nil A) i = Raise IndexError.
Proof.
  unfold getitem, norm_index, len. simpl. zcases; reflexivity.
Qed.

Lemma setitem_insert {A} (l : list A) (i : Z) x :
  0 <= i < len l -> setitem l i x = Ok (<[Z.to_nat i := x]> l).
Proof.
  intros Hi. unfold setitem, norm_index. zcases. reflexivity.
Qed.

Lemma square_lookup g row i :
  square g -> g !! i = Some row -> length row = length g.
Proof. intros Hsq Hl. exact (proj1 (Forall_lookup _ _) Hsq i row Hl). Qed.

Lemma cell_at_in_bounds g r c :
  square g -> in_bounds g r c -> exists v, cell_at g r c = Some v.
Proof.
  intros Hsq [Hr Hc]. unfold cell_at, len in *. zcases.
  destruct (lookup_lt_is_Some_2 g (Z.to_nat r)) as [row Hrow]; [lia|].
  rewrite Hrow. simpl. apply lookup_lt_is_Some_2.
  rewrite (square_lookup g row _ Hsq Hrow). lia.
Qed.

Lemma cell_at_Some g r c v :
  square g -> cell_at g r c = Some v -> in_bounds g r c.
Proof.
  intros Hsq H. unfold cell_at in H.
  destruct (Z.leb_spec 0 r); [|discriminate].
  destruct (Z.leb_spec 0 c); [|discriminate]. simpl in H.
  destruct (g !! Z.to_nat r) as [row|] eqn:Hrow; [|discriminate]. simpl in H.
  pose proof (lookup_lt_Some _ _ _ Hrow). pose proof (lookup_lt_Some _ _ _ H).
  rewrite (square_lookup g row _ Hsq Hrow) in *. unfold in_bounds, len. lia.
Qed.

Lemma board_get_cell b g r c v :
  board b = Some g -> cell_at g r c = Some v -> board_get r c b = Ok (v, b).
Proof.
  intros Hb H. unfold cell_at in H.
  destruct (Z.leb_spec 0 r); [|discriminate].
  destruct (Z.leb_spec 0 c); [|discriminate]. simpl in H.
  destruct (g !! Z.to_nat r) as [row|] eqn:Hrow; [|discriminate]. simpl in H.
  unfold board_get. rewrite (bind_ok _ _ _ _ _ (self_board_ok b g Hb)).
  unfold bind, lift. rewrite (getitem_lookup g r row); [|lia|done].
  rewrite (getitem_lookup row c v); [done|lia|done].
Qed.

Lemma board_set_ok b g r c v :
  board b = Some g -> square g -> in_bounds g r c ->
  board_set r c v b = Ok (tt, mkBoard (Some (grid_set g r c v)) (turn b)).
Proof.
  intros Hb Hsq [Hr Hc]. unfold board_set, grid_set.
  rewrite (bind_ok _ _ _ _ _ (self_board_ok b g Hb)).
  destruct (lookup_lt_is_Some_2 g (Z.to_nat r)) as [row Hrow];
    [unfold len in *; lia|].
  rewrite Hrow. unfold bind, lift.
  rewrite (getitem_lookup g r row); [|lia|done].
  rewrite setitem_insert.
  2:{ unfold len in *. rewrite (square_lookup g row _ Hsq Hrow). lia. }
  rewrite setitem_insert; [|lia]. reflexivity.
Qed.

Lemma grid_set_square g r c v : square g -> square (grid_set g r c v).
Proof.
  intros Hsq. unfold grid_set.
  destruct (g !! Z.to_nat r) as [row|] eqn:Hrow; [|done].
  unfold square. rewrite length_insert. apply Forall_insert; [done|].
  rewrite length_insert. exact (square_lookup g row _ Hsq Hrow).
Qed.

Lemma grid_set_len g r c v : len (grid_set g r c v) = len g.
Proof.
  unfold grid_set, len.
  destruct (g !! Z.to_nat r); [now rewrite length_insert|done].
Qed.

Lemma cell_at_grid_set g r c v r' c' :
  square g -> in_bounds g r c ->
  cell_at (grid_set g r c v) r' c' =
  if bool_decide (r' = r /\ c' = c) then Some v else cell_at g r' c'.
Proof.
  intros Hsq [Hr Hc]. unfold grid_set, cell_at.
  destruct (lookup_lt_is_Some_2 g (Z.to_nat r)) as [row Hrow];
    [unfold len in *; lia|].
  rewrite Hrow. pose proof (square_lookup g row _ Hsq Hrow) as Hlen.
  destruct (Z.leb_spec 0 r'); simpl.
  2:{ case_bool_decide; [lia|done]. }
  destruct (Z.leb_spec 0 c'); simpl.
  2:{ case_bool_decide; [lia|done]. }
  destruct (decide (Z.to_nat r' = Z.to_nat r)) as [Er|Er].
  - rewrite Er. rewrite list_lookup_insert_eq; [|unfold len in *; lia].
    simpl. rewrite Hrow. simpl.
    destruct (decide (Z.to_nat c' = Z.to_nat c)) as [Ec|Ec].
    + rewrite Ec. rewrite list_lookup_insert_eq; [|unfold len in *; lia].
      case_bool_decide; [done|lia].
    + rewrite list_lookup_insert_ne; [|done]. case_bool_decide; [lia|done].
  - rewrite list_lookup_insert_ne; [|done]. case_bool_decide; [lia|done].
Qed.

(* ===================================================================== *)
(** ** A new board                                                         *)
(* ===================================================================== *)

Lemma replicate_square n : square (replicate n (replicate n blank)).
Proof.
  unfold square. rewrite length_replicate. apply Forall_replicate.
  apply length_replicate.
Qed.

(** C10.  For every even size the board [makeboard] constructs has
    [turn = white]: whenever the constructor returns a board its turn is
    white, and for every even size that is not negative it does return
    one (a negative size makes the constructor raise [IndexError]). *)
Theorem makeboard_turn_white (size : Z) :
  Z.even size = true ->
  (forall b, makeboard size = Ok b -> turn b = white) /\
  (0 <= size -> exists b, makeboard size = Ok b /\ turn b = white).
Proof.
  intros Hev. split.
  - intros b H. unfold makeboard, __init__ in H.
    destruct (size =? 0); [by inversion H|].
    match type of H with
    | match ?x with _ => _ end = _ => destruct x as [[u self]| |]
    end; by inversion H.
  - intros Hpos. unfold makeboard, __init__.
    destruct (Z.eqb_spec size 0) as [E0|E0]; [eauto|].
    assert (Hsz : 2 <= size).
    { destruct (Z.eq_dec size 1) as [->|]; [discriminate|]. lia. }
    set (n := Z.to_nat size).
    assert (Hb : forall r c, 0 <= r < size -> 0 <= c < size ->
                 forall g, square g -> len g = size -> in_bounds g r c).
    { intros r c Hr Hc g _ Hl. unfold in_bounds. lia. }
    assert (Hh : 0 <= size / 2 < size) by (split; [apply Z.div_pos; lia | apply Z.div_lt; lia]).
    assert (Hh' : 0 <= size / 2 - 1 < size).
    { assert (1 <= size / 2) by (apply Z.div_le_lower_bound; lia). lia. }
    assert (Hl0 : len (replicate n (replicate n blank)) = size).
    { unfold len. rewrite length_replicate. lia. }
    pose proof (replicate_square n) as Hs0.
    unfold bind.
    erewrite board_set_ok; [|reflexivity|done|by apply Hb].
    erewrite board_set_ok; [|reflexivity|by apply grid_set_square|
      apply Hb; [done|done|by apply grid_set_square|by rewrite grid_set_len]].
    erewrite board_set_ok; [|reflexivity|by do 2 apply grid_set_square|
      apply Hb; [done|done|by do 2 apply grid_set_square|by rewrite !grid_set_len]].
    erewrite board_set_ok; [|reflexivity|by do 3 apply grid_set_square|
      apply Hb; [done|done|by do 3 apply grid_set_square|by rewrite !grid_set_len]].
    eauto.
Qed.

Lemma makeboard_turn_white_witness :
  Z.even 4 = true /\ 0 <= 4 /\
  exists b, makeboard 4 = Ok b /\ turn b = white.
Proof.
  split; [reflexivity|]. split; [lia|].
  apply (proj2 (makeboard_turn_white 4 eq_refl)). lia.
Defined.

(* ===================================================================== *)
(** ** The scan of one ray                                                 *)
(* ===================================================================== *)

Lemma ray_cells_S r c dr dc j :
  ray_cells r c dr dc (S j) = ray_cells r c dr dc j ++ [ray_cell r c dr dc (S j)].
Proof. unfold ray_cells. rewrite seq_S, map_app. reflexivity. Qed.

Lemma walk_back_spec r c dr dc (k : nat) :
  is_direction dr dc ->
  forall fuel fp, (k <= fuel)%nat ->
  walk_back fuel r c (-1 * dr) (-1 * dc)
            (r + Z.of_nat (S k) * dr) (c + Z.of_nat (S k) * dc) fp
  = Ok (fp ++ rev (ray_cells r c dr dc k)).
Proof.
  intros Hd. induction k as [|k IH]; intros fuel fp Hf.
  - destruct fuel; simpl; zcases; try (destruct Hd as (?&?&?); lia);
      now rewrite app_nil_r.
  - destruct fuel as [|fuel]; [lia|].
    cbn [walk_back].
    destruct (negb _ || negb _) eqn:E.
    + replace (r + Z.of_nat (S (S k)) * dr + -1 * dr)
        with (r + Z.of_nat (S k) * dr) by lia.
      replace (c + Z.of_nat (S (S k)) * dc + -1 * dc)
        with (c + Z.of_nat (S k) * dc) by lia.
      rewrite IH by lia. rewrite ray_cells_S, rev_app_distr. simpl.
      rewrite <- app_assoc. reflexivity.
    + exfalso. apply orb_false_elim in E as [E1 E2].
      apply negb_false_iff in E1, E2. apply Z.eqb_eq in E1, E2.
      destruct Hd as (?&?&?). lia.
Qed.

Lemma well_formed_row0 b g row0 :
  well_formed b g -> g !! 0%nat = Some row0 -> len row0 = len g.
Proof.
  intros [_ Hsq] H. unfold len. now rewrite (square_lookup g row0 _ Hsq H).
Qed.

Lemma cell_at_None_iff g r c :
  square g -> cell_at g r c = None <-> ~ in_bounds g r c.
Proof.
  intros Hsq. split.
  - intros H Hin. destruct (cell_at_in_bounds g r c Hsq Hin) as [v Hv].
    congruence.
  - intros H. destruct (cell_at g r c) as [v|] eqn:E; [|done].
    exfalso. apply H. eapply cell_at_Some; eauto.
Qed.

Lemma ray_step_bound g r c dr dc (k : nat) :
  in_bounds g r c -> is_direction dr dc ->
  in_bounds g (r + Z.of_nat k * dr) (c + Z.of_nat k * dc) ->
  (k < length g)%nat.
Proof.
  unfold in_bounds, len. intros [Hr Hc] (Hdr & Hdc & Hnz) [Hr' Hc'].
  destruct Hdr as [-> | [-> | ->]]; destruct Hdc as [-> | [-> | ->]]; lia.
Qed.

Lemma ray_budget_ge g : (length g <= ray_budget g)%nat.
Proof. unfold ray_budget. lia. Qed.

Lemma scan_ray_spec b g r c team ks dr dc :
  well_formed b g -> in_bounds g r c -> is_direction dr dc ->
  forall fuel steps k fp,
    (length g <= S k + fuel)%nat -> (length g <= S k + steps)%nat ->
    scan_ray fuel r c team ks dr dc
             (r + Z.of_nat (S k) * dr) (c + Z.of_nat (S k) * dc)
             (negb (k =? 0)%nat) fp b
    = Ok (ray_outcome ks fp
            (spec_capture_run g team dr dc steps
               (r + Z.of_nat (S k) * dr) (c + Z.of_nat (S k) * dc)
               (ray_cells r c dr dc k)), b).
Proof.
  intros Hwf Hin Hd. pose proof Hwf as [Hb Hsq].
  induction fuel as [|fuel IH]; intros steps k fp Hf Hs.
  - (* no iteration left: the ray is already outside the grid *)
    set (cur_r := r + Z.of_nat (S k) * dr) in *.
    set (cur_c := c + Z.of_nat (S k) * dc) in *.
    assert (Hout : ~ in_bounds g cur_r cur_c).
    { intros Hin'. pose proof (ray_step_bound g r c dr dc (S k) Hin Hd Hin'). lia. }
    assert (Hrun : spec_capture_run g team dr dc steps cur_r cur_c
                     (ray_cells r c dr dc k) = []).
    { destruct steps; [done|]. cbn [spec_capture_run].
      now rewrite (proj2 (cell_at_None_iff _ _ _ Hsq) Hout). }
    rewrite Hrun. cbn [scan_ray].
    rewrite (bind_ok _ _ _ _ _ (self_board_ok b g Hb)).
    destruct ((cur_r <? len g) && (0 <=? cur_r)) eqn:E1.
    + destruct g as [|row0 g']; [unfold in_bounds, len in Hin; simpl in Hin; lia|].
      unfold bind, lift. rewrite (getitem_lookup _ 0 row0) by (done || lia).
      rewrite (well_formed_row0 b _ row0 Hwf eq_refl).
      destruct ((cur_c <? len _) && (0 <=? cur_c)) eqn:E2.
      * exfalso. apply Hout. zprop E1. zprop E2. unfold in_bounds. lia.
      * unfold ret, ray_outcome. destruct ks; [now rewrite app_nil_r|done].
    + unfold ret, ray_outcome. destruct ks; [now rewrite app_nil_r|done].
  - cbn [scan_ray].
    rewrite (bind_ok _ _ _ _ _ (self_board_ok b g Hb)).
    set (cur_r := r + Z.of_nat (S k) * dr) in *.
    set (cur_c := c + Z.of_nat (S k) * dc) in *.
    destruct (cell_at g cur_r cur_c) as [v|] eqn:Hcell.
    + (* inside the grid *)
      pose proof (cell_at_Some g _ _ _ Hsq Hcell) as Hin'.
      pose proof (ray_step_bound g r c dr dc (S k) Hin Hd Hin') as Hk.
      destruct Hin' as [Hr' Hc'].
      destruct g as [|row0 g']; [simpl in Hk; lia|].
      destruct ((cur_r <? _) && (0 <=? cur_r)) eqn:E1.
      2:{ zprop E1. lia. }
      unfold bind at 1. unfold lift at 1.
      rewrite (getitem_lookup _ 0 row0) by (done || lia).
      rewrite (well_formed_row0 b _ row0 Hwf eq_refl).
      destruct ((cur_c <? _) && (0 <=? cur_c)) eqn:E2.
      2:{ zprop E2. lia. }
      rewrite (bind_ok _ _ _ _ _ (board_get_cell b _ _ _ v Hb Hcell)).
      destruct steps as [|steps]; [lia|].
      cbn [spec_capture_run]. rewrite Hcell.
      case_bool_decide as Hblank.
      { unfold ret, ray_outcome. destruct ks; [now rewrite app_nil_r|done]. }
      case_bool_decide as Hteam.
      { destruct k as [|k]; simpl negb.
        - unfold ret, ray_outcome. simpl. destruct ks; [now rewrite app_nil_r|done].
        - destruct ks.
          + unfold bind, lift, cur_r, cur_c.
            rewrite (walk_back_spec r c dr dc (S k) Hd).
            2:{ pose proof (ray_budget_ge (row0 :: g')). lia. }
            reflexivity.
          + unfold ret, ray_outcome. rewrite ray_cells_S.
            case_bool_decide as Hnil; [|done].
            now apply app_eq_nil in Hnil as [_ ?]. }
      specialize (IH steps (S k) fp).
      replace (cur_r + dr) with (r + Z.of_nat (S (S k)) * dr) by (unfold cur_r; lia).
      replace (cur_c + dc) with (c + Z.of_nat (S (S k)) * dc) by (unfold cur_c; lia).
      rewrite ray_cells_S in IH. simpl negb in IH.
      rewrite IH by lia. reflexivity.
    + (* outside the grid *)
      assert (Hrun : spec_capture_run g team dr dc steps cur_r cur_c
                       (ray_cells r c dr dc k) = []).
      { destruct steps; [done|]. cbn [spec_capture_run]. now rewrite Hcell. }
      rewrite Hrun.
      apply (cell_at_None_iff _ _ _ Hsq) in Hcell.
      destruct ((cur_r <? len g) && (0 <=? cur_r)) eqn:E1.
      * destruct g as [|row0 g']; [unfold in_bounds, len in Hin; simpl in Hin; lia|].
        unfold bind, lift. rewrite (getitem_lookup _ 0 row0) by (done || lia).
        rewrite (well_formed_row0 b _ row0 Hwf eq_refl).
        destruct ((cur_c <? len _) && (0 <=? cur_c)) eqn:E2.
        -- exfalso. apply Hcell. zprop E1. zprop E2. unfold in_bounds. lia.
        -- unfold ret, ray_outcome. destruct ks; [now rewrite app_nil_r|done].
      * unfold ret, ray_outcome. destruct ks; [now rewrite app_nil_r|done].
Qed.

Lemma scan_ray_start b g r c team ks dr dc fp :
  well_formed b g -> in_bounds g r c -> is_direction dr dc ->
  scan_ray (ray_budget g) r c team ks dr dc (r + dr) (c + dc) false fp b
  = Ok (ray_outcome ks fp
          (spec_capture_run g team dr dc (length g) (r + dr) (c + dc) []), b).
Proof.
  intros Hwf Hin Hd.
  pose proof (scan_ray_spec b g r c team ks dr dc Hwf Hin Hd
                (ray_budget g) (length g) 0%nat fp) as H.
  replace (r + Z.of_nat 1 * dr) with (r + dr) in H by lia.
  replace (c + Z.of_nat 1 * dc) with (c + dc) in H by lia.
  apply H; [pose proof (ray_budget_ge g)|]; lia.
Qed.

(* ===================================================================== *)
(** ** Loops over code that leaves the object alone                        *)
(* ===================================================================== *)

Lemma for_in_pure {X S R} (xs : list X) (body : X -> S -> M (ctl S R))
    (f : X -> S -> ctl S R) (b : Board) :
  (forall x s, x ∈ xs -> body x s b = Ok (f x s, b)) ->
  forall s, for_in xs body s b = Ok (pure_for_in xs f s, b).
Proof.
  induction xs as [|x xs IH]; intros H s; [done|].
  cbn [for_in pure_for_in].
  rewrite (bind_ok _ _ _ _ _ (H x s ltac:(left))).
  destruct (f x s); [|done].
  apply IH. intros x' s' Hx'. apply H. now right.
Qed.

(** [for_each] on a body that is a function of the loop state. *)
Lemma for_each_pure {X S} (xs : list X) (body : X -> S -> M S)
    (f : S -> X -> S) (b : Board) :
  (forall x s, x ∈ xs -> body x s b = Ok (f s x, b)) ->
  forall s, for_each xs body s b = Ok (foldl f s xs, b).
Proof.
  induction xs as [|x xs IH]; intros H s; [done|].
  cbn [for_each foldl].
  rewrite (bind_ok _ _ _ _ _ (H x s ltac:(left))).
  apply IH. intros x' s' Hx'. apply H. now right.
Qed.

Lemma xrange_dirs : xrange (-1) 2 = [-1; 0; 1].
Proof. reflexivity. Qed.

Lemma elem_of_xrange lo hi x : x ∈ xrange lo hi <-> lo <= x < hi.
Proof.
  unfold xrange. rewrite list_elem_of_fmap. split.
  - intros (k & -> & Hk). apply list_elem_of_In, in_seq in Hk. lia.
  - intros H. exists (Z.to_nat (x - lo)). split; [lia|].
    apply list_elem_of_In, in_seq. lia.
Qed.

(* ===================================================================== *)
(** ** [_validate_flip]                                                    *)
(* ===================================================================== *)

Lemma list_to_set_rev (l : list (Z * Z)) :
  list_to_set (rev l) =@{gset (Z * Z)} list_to_set l.
Proof.
  apply set_eq. intros x. rewrite !elem_of_list_to_set.
  rewrite !list_elem_of_In. symmetry. apply in_rev.
Qed.

Lemma list_to_set_nil_inv (l : list (Z * Z)) :
  list_to_set l =@{gset (Z * Z)} ∅ -> l = [].
Proof.
  destruct l as [|x l]; [done|]. intros H. exfalso.
  assert (Hx : x ∈ (list_to_set (x :: l) : gset (Z * Z))) by set_solver.
  rewrite H in Hx. set_solver.
Qed.

Lemma directions_loop_spec b g r c team ks :
  well_formed b g -> in_bounds g r c ->
  directions_loop r c team ks b =
  Ok (pure_for_in directions
        (fun d fp =>
           ray_outcome ks fp
             (spec_capture_run g team d.1 d.2 (length g) (r + d.1) (c + d.2) []))
        [], b).
Proof.
  intros Hwf Hin. unfold directions_loop. rewrite xrange_dirs.
  assert (Hbody : forall dr dc fp, is_direction dr dc ->
    (g' <- self_board ;;
     scan_ray (ray_budget g') r c team ks dr dc (r + dr) (c + dc) false fp) b
    = Ok (ray_outcome ks fp
            (spec_capture_run g team dr dc (length g) (r + dr) (c + dc) []), b)).
  { intros dr dc fp Hd.
    rewrite (bind_ok _ _ _ _ _ (self_board_ok b g (proj1 Hwf))).
    now apply scan_ray_start. }
  rewrite (for_in_pure _ _
    (fun dr fp =>
       pure_for_in [-1; 0; 1]
         (fun dc fp =>
            if (dr =? 0) && (dc =? 0) then Next fp
            else ray_outcome ks fp
                   (spec_capture_run g team dr dc (length g) (r + dr) (c + dc) []))
         fp)).
  - do 2 f_equal. unfold directions. cbn [pure_for_in]. simpl.
    repeat match goal with
    | |- context [match ray_outcome ks ?fp ?run with _ => _ end] =>
        destruct (ray_outcome ks fp run); simpl; [|reflexivity]
    end.
    reflexivity.
  - intros dr fp Hdr. apply for_in_pure. intros dc fp' Hdc.
    destruct ((dr =? 0) && (dc =? 0)) eqn:E; [done|].
    apply Hbody. unfold is_direction. zprop E.
    rewrite !elem_of_cons, elem_of_nil in Hdr, Hdc. lia.
Qed.

Lemma pure_for_in_keep_score {X} (run : X -> list (Z * Z)) (ds : list X) :
  forall fp,
  pure_for_in ds (fun d fp => ray_outcome true fp (run d)) fp
  = Next (R := Z) (fp ++ concat (map (fun d => rev (run d)) ds)).
Proof.
  induction ds as [|d ds IH]; intros fp; cbn [pure_for_in map concat].
  - now rewrite app_nil_r.
  - unfold ray_outcome at 1. rewrite IH. now rewrite <- app_assoc.
Qed.

Lemma pure_for_in_legal {X} (run : X -> list (Z * Z)) (ds : list X) :
  forall fp,
  pure_for_in ds (fun d fp => ray_outcome false fp (run d)) fp
  = if forallb (fun d => bool_decide (run d = [])) ds
    then Next fp else Return 1.
Proof.
  induction ds as [|d ds IH]; intros fp; cbn [pure_for_in forallb]; [done|].
  unfold ray_outcome at 1. case_bool_decide; simpl; [apply IH|done].
Qed.

Lemma list_to_set_concat_rev {X} (run : X -> list (Z * Z)) (ds : list X) :
  list_to_set (concat (map (fun d => rev (run d)) ds))
  =@{gset (Z * Z)} ⋃ (map (fun d => list_to_set (run d)) ds).
Proof.
  induction ds as [|d ds IH]; simpl; [done|].
  now rewrite list_to_set_app_L, list_to_set_rev, IH.
Qed.

Lemma union_list_empty_forallb {X} (run : X -> list (Z * Z)) (ds : list X) :
  forallb (fun d => bool_decide (run d = [])) ds = true <->
  ⋃ (map (fun d => list_to_set (run d)) ds) =@{gset (Z * Z)} ∅.
Proof.
  induction ds as [|d ds IH]; simpl; [done|].
  rewrite andb_true_iff, IH, bool_decide_eq_true. split.
  - intros [-> ->]. set_solver.
  - intros H. apply empty_union_L in H as [H1 H2].
    split; [now apply list_to_set_nil_inv|done].
Qed.

Lemma spec_score_pos_iff g team r c :
  0 < spec_score g team r c <->
  forallb (fun d : Z * Z =>
             bool_decide (spec_capture_run g team d.1 d.2 (length g)
                                           (r + d.1) (c + d.2) [] = []))
          directions = false.
Proof.
  unfold spec_score, spec_capture_set.
  rewrite <- not_true_iff_false,
    (union_list_empty_forallb
       (fun d : Z * Z => spec_capture_run g team d.1 d.2 (length g)
                                          (r + d.1) (c + d.2) [])).
  split.
  - intros H He. rewrite He, size_empty in H. lia.
  - intros H. enough (size (⋃ map (fun d : Z * Z =>
        list_to_set (spec_capture_run g team d.1 d.2 (length g)
                                      (r + d.1) (c + d.2) []) : gset (Z * Z))
        directions) ≠ 0%nat) by lia.
    rewrite size_non_empty_iff. now intros He%leibniz_equiv.
Qed.

Lemma _validate_flip_unfold r c team should_flip keep_score :
  _validate_flip r c team should_flip keep_score =
  (o <- directions_loop r c team keep_score ;;
   match o with
   | Return v => ret v
   | Next flip_pieces =>
       let flip_set : gset (Z * Z) := list_to_set flip_pieces in
       (if should_flip then _flip_pieces (elements flip_set) else ret tt) ;;
       ret (Z.of_nat (size flip_set))
   end).
Proof. reflexivity. Qed.

(** Scoring a candidate: the size of its capture set; the object is left
    alone. *)
Lemma _validate_flip_score b g r c team :
  well_formed b g -> in_bounds g r c ->
  _validate_flip r c team false true b = Ok (spec_score g team r c, b).
Proof.
  intros Hwf Hin. rewrite _validate_flip_unfold.
  rewrite (bind_ok _ _ _ _ _ (directions_loop_spec b g r c team true Hwf Hin)).
  rewrite (pure_for_in_keep_score
             (fun d : Z * Z => spec_capture_run g team d.1 d.2 (length g)
                                                (r + d.1) (c + d.2) [])).
  cbv zeta. unfold bind, ret. rewrite app_nil_l.
  now rewrite (list_to_set_concat_rev
                 (fun d : Z * Z => spec_capture_run g team d.1 d.2 (length g)
                                                    (r + d.1) (c + d.2) [])).
Qed.

(** Checking a candidate: [1] when something is captured, else [0]. *)
Lemma _validate_flip_legal b g r c team :
  well_formed b g -> in_bounds g r c ->
  _validate_flip r c team false false b
  = Ok (if 0 <? spec_score g team r c then 1 else 0, b).
Proof.
  intros Hwf Hin. rewrite _validate_flip_unfold.
  rewrite (bind_ok _ _ _ _ _ (directions_loop_spec b g r c team false Hwf Hin)).
  rewrite (pure_for_in_legal
             (fun d : Z * Z => spec_capture_run g team d.1 d.2 (length g)
                                                (r + d.1) (c + d.2) [])).
  pose proof (spec_score_pos_iff g team r c) as Hpos.
  destruct (forallb _ directions) eqn:E.
  - destruct (Z.ltb_spec 0 (spec_score g team r c)) as [H|H].
    + apply Hpos in H. discriminate.
    + reflexivity.
  - destruct (Z.ltb_spec 0 (spec_score g team r c)) as [H|H]; [done|].
    pose proof (proj2 Hpos eq_refl). lia.
Qed.

(** Flipping: the pieces of the capture set are flipped and their number
    returned. *)
Lemma _validate_flip_flip b g r c team :
  well_formed b g -> in_bounds g r c ->
  _validate_flip r c team true true b
  = (_flip_pieces (elements (spec_capture_set g team r c)) ;;
     ret (spec_score g team r c)) b.
Proof.
  intros Hwf Hin. rewrite _validate_flip_unfold.
  rewrite (bind_ok _ _ _ _ _ (directions_loop_spec b g r c team true Hwf Hin)).
  rewrite (pure_for_in_keep_score
             (fun d : Z * Z => spec_capture_run g team d.1 d.2 (length g)
                                                (r + d.1) (c + d.2) [])).
  cbv zeta. rewrite app_nil_l.
  now rewrite (list_to_set_concat_rev
                 (fun d : Z * Z => spec_capture_run g team d.1 d.2 (length g)
                                                    (r + d.1) (c + d.2) [])).
Qed.

(* ===================================================================== *)
(** ** [_validate_input] and [flip_score]                                  *)
(* ===================================================================== *)

Lemma _validate_input_spec b g r c team :
  well_formed b g ->
  _validate_input r c team b = Ok (valid_input g (turn b) r c team, b).
Proof.
  intros [Hb Hsq]. unfold _validate_input, valid_input.
  rewrite (bind_ok _ _ _ _ _ (self_board_ok b g Hb)).
  destruct ((r <? 0) || (len g <=? r) || (c <? 0) || (len g <=? c)) eqn:E.
  { rewrite bool_decide_eq_false_2; [done|]. zprop E. unfold in_bounds. lia. }
  assert (Hin : in_bounds g r c) by (zprop E; unfold in_bounds; lia).
  rewrite (bool_decide_eq_true_2 _ Hin). unfold bind at 1, self_turn.
  case_bool_decide as Ht; simpl; [|done].
  destruct (cell_at_in_bounds g r c Hsq Hin) as [v Hv].
  rewrite (bind_ok _ _ _ _ _ (board_get_cell b g r c v Hb Hv)). rewrite Hv.
  destruct v; reflexivity.
Qed.

(** Without any assumption on the shape of the grid: a square out of
    range or a team that is not to move is refused before any cell is
    read. *)
Lemma _validate_input_refused b g r c team :
  board b = Some g ->
  ~ in_bounds g r c \/ turn b <> team ->
  _validate_input r c team b = Ok (false, b).
Proof.
  intros Hb H. unfold _validate_input.
  rewrite (bind_ok _ _ _ _ _ (self_board_ok b g Hb)).
  destruct ((r <? 0) || (len g <=? r) || (c <? 0) || (len g <=? c)) eqn:E;
    [done|].
  destruct H as [H|H].
  - exfalso. apply H. zprop E. unfold in_bounds. lia.
  - unfold bind, self_turn. now rewrite bool_decide_eq_false_2.
Qed.

Lemma valid_input_true g t r c team :
  valid_input g t r c team = true <->
  in_bounds g r c /\ t = team /\ cell_at g r c = Some blank.
Proof.
  unfold valid_input. rewrite !andb_true_iff, !bool_decide_eq_true. tauto.
Qed.

Lemma flip_score_spec b g r c team :
  well_formed b g ->
  flip_score r c team b
  = Ok (if valid_input g (turn b) r c team then spec_score g team r c else 0, b).
Proof.
  intros Hwf. unfold flip_score.
  rewrite (bind_ok _ _ _ _ _ (_validate_input_spec b g r c team Hwf)).
  destruct (valid_input g (turn b) r c team) eqn:E; [|done].
  apply valid_input_true in E as (Hin & _ & _).
  now apply _validate_flip_score.
Qed.

Lemma can_flip_spec b g r c team :
  well_formed b g ->
  can_flip r c team b
  = Ok (valid_input g (turn b) r c team && (0 <? spec_score g team r c), b).
Proof.
  intros Hwf. unfold can_flip.
  rewrite (bind_ok _ _ _ _ _ (_validate_input_spec b g r c team Hwf)).
  destruct (valid_input g (turn b) r c team) eqn:E; [|done].
  apply valid_input_true in E as (Hin & _ & _).
  rewrite (bind_ok _ _ _ _ _ (_validate_flip_legal b g r c team Hwf Hin)).
  destruct (0 <? spec_score g team r c); reflexivity.
Qed.

(* ===================================================================== *)
(** ** The capture set, cell by cell                                       *)
(* ===================================================================== *)

Lemma elem_of_ray_cells r c dr dc k0 p :
  p ∈ ray_cells r c dr dc k0 <->
  exists k, (1 <= k <= k0)%nat /\ p = ray_cell r c dr dc k.
Proof.
  unfold ray_cells. rewrite list_elem_of_fmap. split.
  - intros (k & -> & Hk). apply list_elem_of_In, in_seq in Hk.
    exists k. split; [lia|done].
  - intros (k & Hk & ->). exists k. split; [done|].
    apply list_elem_of_In, in_seq. lia.
Qed.

Lemma spec_capture_run_elem g side r c dr dc :
  square g -> in_bounds g r c -> is_direction dr dc ->
  forall steps k0,
    (length g <= S k0 + steps)%nat ->
    (forall j, (1 <= j <= k0)%nat -> opposing g side (ray_cell r c dr dc j)) ->
    forall p,
      p ∈ spec_capture_run g side dr dc steps
            (r + Z.of_nat (S k0) * dr) (c + Z.of_nat (S k0) * dc)
            (ray_cells r c dr dc k0)
      <-> captured_along g side r c dr dc p.
Proof.
  intros Hsq Hin Hd.
  (* a witness of [captured_along] ends beyond the opposing cells *)
  assert (Hpin : forall k0 m,
    (forall j, (1 <= j <= k0)%nat -> opposing g side (ray_cell r c dr dc j)) ->
    (1 <= m)%nat ->
    cell_at g (ray_cell r c dr dc m).1 (ray_cell r c dr dc m).2 = Some side ->
    (k0 < m)%nat).
  { intros k0 m Hopp Hm Hcell.
    destruct (Nat.lt_ge_cases k0 m) as [|Hle]; [done|].
    destruct (Hopp m ltac:(lia)) as (v & Hv & _ & Hne). congruence. }
  induction steps as [|steps IH]; intros k0 Hlen Hopp p.
  - split; [intros H; cbn in H; set_solver|].
    intros (m & k & Hk & -> & Hcell & _ & Hbetween). exfalso.
    pose proof (Hpin k0 m Hopp ltac:(lia) Hcell) as Hm.
    pose proof (cell_at_Some g _ _ _ Hsq Hcell) as Hin'.
    pose proof (ray_step_bound g r c dr dc m Hin Hd Hin'). lia.
  - cbn [spec_capture_run].
    change (r + Z.of_nat (S k0) * dr) with (ray_cell r c dr dc (S k0)).1.
    change (c + Z.of_nat (S k0) * dc) with (ray_cell r c dr dc (S k0)).2.
    destruct (cell_at g (ray_cell r c dr dc (S k0)).1
                        (ray_cell r c dr dc (S k0)).2) as [v|] eqn:Hcur.
    + case_bool_decide as Hblank.
      { (* an empty cell *)
        split; [set_solver|].
        intros (m & k & Hk & -> & Hcell & Hside & Hbetween). exfalso.
        pose proof (Hpin k0 m Hopp ltac:(lia) Hcell) as Hm.
        destruct (decide (m = S k0)) as [->|Hne]; [congruence|].
        destruct (Hbetween (S k0) ltac:(lia)) as (v' & Hv' & Hnb & _).
        congruence. }
      case_bool_decide as Hteam.
      { (* the first cell of [side] *)
        rewrite elem_of_ray_cells. split.
        - intros (k & Hk & ->). exists (S k0), k.
          repeat split; [lia|lia|congruence|congruence|].
          intros j Hj. apply Hopp. lia.
        - intros (m & k & Hk & -> & Hcell & Hside & Hbetween).
          pose proof (Hpin k0 m Hopp ltac:(lia) Hcell) as Hm.
          destruct (decide (m = S k0)) as [->|Hne].
          + exists k. split; [lia|done].
          + exfalso.
            destruct (Hbetween (S k0) ltac:(lia)) as (v' & Hv' & _ & Hns).
            congruence. }
      (* an opposing cell: the walk goes on *)
      specialize (IH (S k0) ltac:(lia)).
      rewrite ray_cells_S in IH. unfold ray_cell at 1 2. simpl fst. simpl snd.
      replace (r + Z.of_nat (S k0) * dr + dr)
        with (r + Z.of_nat (S (S k0)) * dr) by lia.
      replace (c + Z.of_nat (S k0) * dc + dc)
        with (c + Z.of_nat (S (S k0)) * dc) by lia.
      apply IH. intros j Hj.
      destruct (decide (j = S k0)) as [->|Hne].
      * exists v. done.
      * apply Hopp. lia.
    + (* the ray left the grid *)
      split; [set_solver|].
      intros (m & k & Hk & -> & Hcell & Hside & Hbetween). exfalso.
      pose proof (Hpin k0 m Hopp ltac:(lia) Hcell) as Hm.
      destruct (decide (m = S k0)) as [->|Hne]; [congruence|].
      destruct (Hbetween (S k0) ltac:(lia)) as (v' & Hv' & _). congruence.
Qed.

(** The capture set holds exactly the captured cells. *)
Lemma spec_capture_set_elem g side r c p :
  square g -> in_bounds g r c ->
  p ∈ spec_capture_set g side r c <-> captured g side r c p.
Proof.
  intros Hsq Hin. unfold spec_capture_set, captured.
  rewrite elem_of_union_list. split.
  - intros (X & HX & Hp). apply list_elem_of_fmap in HX as (d & -> & Hd).
    exists d. split; [done|]. rewrite elem_of_list_to_set in Hp.
    apply (spec_capture_run_elem g side r c d.1 d.2 Hsq Hin) with (steps := length g) (k0 := 0%nat).
    + unfold is_direction. unfold directions in Hd.
      rewrite !elem_of_cons, elem_of_nil in Hd.
      destruct d as [dr dc]. simpl.
      repeat (destruct Hd as [Hd|Hd]; [inversion Hd; lia|]). done.
    + lia.
    + intros j Hj. lia.
    + replace (r + Z.of_nat 1 * d.1) with (r + d.1) by lia.
      replace (c + Z.of_nat 1 * d.2) with (c + d.2) by lia. exact Hp.
  - intros (d & Hd & Hp).
    exists (list_to_set (spec_capture_run g side d.1 d.2 (length g)
                                          (r + d.1) (c + d.2) [])).
    split.
    + apply list_elem_of_fmap. exists d. done.
    + rewrite elem_of_list_to_set.
      apply (spec_capture_run_elem g side r c d.1 d.2 Hsq Hin) with (steps := length g) (k0 := 0%nat) in Hp.
      * replace (r + Z.of_nat 1 * d.1) with (r + d.1) in Hp by lia.
        replace (c + Z.of_nat 1 * d.2) with (c + d.2) in Hp by lia. exact Hp.
      * unfold is_direction. unfold directions in Hd.
        rewrite !elem_of_cons, elem_of_nil in Hd.
        destruct d as [dr dc]. simpl.
        repeat (destruct Hd as [Hd|Hd]; [inversion Hd; lia|]). done.
      * lia.
      * intros j Hj. lia.
Qed.

(** C1.  On a well-formed board (a square grid), for an in-bounds empty
    cell and the side whose turn it is, [flip_score] returns the size of
    the capture set: the union, over the eight ray directions, of the
    opposing cells lying strictly between the cell and the first cell of
    the acting side (nothing for a ray that leaves the grid, meets an empty
    cell first, or meets the acting side at once); a cell counts once.
    It returns 0 when the cell is out of bounds or occupied, or the side
    is not the one to move.  The board is left as it was. *)
Theorem flip_score_capture_set (b : Board) (g : Grid) (r c : Z) (side : Square) :
  well_formed b g ->
  (in_bounds g r c -> cell_at g r c = Some blank -> turn b = side ->
   flip_score r c side b
     = Ok (Z.of_nat (size (spec_capture_set g side r c)), b) /\
   forall p, p ∈ spec_capture_set g side r c <-> captured g side r c p) /\
  (~ in_bounds g r c \/ cell_at g r c <> Some blank \/ turn b <> side ->
   flip_score r c side b = Ok (0, b)).
Proof.
  intros Hwf. rewrite (flip_score_spec b g r c side Hwf). split.
  - intros Hin Hcell Ht. split.
    + now rewrite (proj2 (valid_input_true g (turn b) r c side)).
    + intros p. apply spec_capture_set_elem; [apply Hwf|done].
  - intros H. destruct (valid_input g (turn b) r c side) eqn:E; [|done].
    apply valid_input_true in E. tauto.
Qed.

(* ===================================================================== *)
(** ** [can_move]                                                          *)
(* ===================================================================== *)

Lemma pure_for_in_exists {X} (P : X -> bool) (xs : list X) :
  pure_for_in xs (fun x (_ : unit) => if P x then Return true else Next tt) tt
  = if existsb P xs then Return true else Next tt.
Proof.
  induction xs as [|x xs IH]; cbn [pure_for_in existsb]; [done|].
  destruct (P x); simpl; [done|apply IH].
Qed.

Lemma existsb_bind {X Y} (f : Y -> bool) (k : X -> list Y) (l : list X) :
  existsb f (l ≫= k) = existsb (fun x => existsb f (k x)) l.
Proof.
  induction l as [|x l IH]; [done|].
  cbn [existsb]. rewrite <- IH.
  change ((x :: l) ≫= k) with (k x ++ (l ≫= k)). apply existsb_app.
Qed.

Lemma existsb_ext_in {X} (f h : X -> bool) (l : list X) :
  (forall x, x ∈ l -> f x = h x) -> existsb f l = existsb h l.
Proof.
  induction l as [|x l IH]; intros H; [done|].
  cbn [existsb]. rewrite (H x) by left. rewrite IH; [done|].
  intros y Hy. apply H. now right.
Qed.

Lemma existsb_andb_const {X} (t : bool) (f : X -> bool) (l : list X) :
  existsb (fun x => t && f x) l = t && existsb f l.
Proof.
  induction l as [|x l IH]; cbn [existsb]; [now rewrite andb_false_r|].
  rewrite IH. destruct t; reflexivity.
Qed.

Lemma elem_of_cells g r c : (r, c) ∈ cells g <-> in_bounds g r c.
Proof.
  unfold cells, in_bounds. rewrite list_elem_of_bind. split.
  - intros (r' & Hc & Hr). apply list_elem_of_bind in Hc as (c' & Hp & Hc).
    apply list_elem_of_singleton in Hp. inversion Hp; subst.
    apply elem_of_xrange in Hr, Hc. lia.
  - intros [Hr Hc]. exists r. split; [|apply elem_of_xrange; lia].
    apply list_elem_of_bind. exists c.
    split; [now apply list_elem_of_singleton|apply elem_of_xrange; lia].
Qed.

Lemma can_move_spec b g team :
  well_formed b g ->
  can_move team b
  = Ok (bool_decide (turn b = team) && spec_has_move g team, b).
Proof.
  intros Hwf. pose proof Hwf as [Hb Hsq]. unfold can_move.
  rewrite (bind_ok _ _ _ _ _ (self_board_ok b g Hb)).
  set (P := fun r c => valid_input g (turn b) r c team
                       && (0 <? spec_score g team r c)).
  erewrite bind_ok.
  2:{ apply (for_in_pure (xrange 0 (len g)) _
        (fun r (_ : unit) =>
           if existsb (P r) (xrange 0 (len g)) then Return true else Next tt)).
      intros r [] Hr.
      rewrite (bind_ok _ _ _ _ _ (self_board_ok b g Hb)).
      rewrite (for_in_pure (xrange 0 (len g)) _
                 (fun c (_ : unit) => if P r c then Return true else Next tt)).
      - now rewrite pure_for_in_exists.
      - intros c [] Hc.
        rewrite (bind_ok _ _ _ _ _ (can_flip_spec b g r c team Hwf)).
        fold (P r c). now destruct (P r c). }
  rewrite (pure_for_in_exists (fun r => existsb (P r) (xrange 0 (len g)))).
  assert (Hex : existsb (fun r => existsb (P r) (xrange 0 (len g)))
                        (xrange 0 (len g))
                = bool_decide (turn b = team) && spec_has_move g team).
  { unfold spec_has_move, cells.
    rewrite <- existsb_andb_const, existsb_bind.
    apply existsb_ext_in. intros r Hr. rewrite existsb_bind.
    apply existsb_ext_in. intros c Hc. cbn [existsb]. rewrite orb_false_r.
    unfold P, valid_input, spec_capturing. simpl.
    apply elem_of_xrange in Hr, Hc.
    rewrite (bool_decide_eq_true_2 (in_bounds g r c))
      by (unfold in_bounds; lia).
    simpl. now rewrite andb_assoc. }
  rewrite Hex. now destruct (_ && _).
Qed.

Lemma spec_has_move_true g side :
  spec_has_move g side = true <->
  exists r c, in_bounds g r c /\ cell_at g r c = Some blank /\
              0 < spec_score g side r c.
Proof.
  unfold spec_has_move. rewrite existsb_exists. split.
  - intros ([r c] & Hin & Hcap). exists r, c.
    apply list_elem_of_In, elem_of_cells in Hin.
    unfold spec_capturing in Hcap. simpl in Hcap.
    apply andb_true_iff in Hcap as [Hcell Hpos].
    apply bool_decide_eq_true in Hcell. apply Z.ltb_lt in Hpos. done.
  - intros (r & c & Hin & Hcell & Hpos). exists (r, c). split.
    + now apply list_elem_of_In, elem_of_cells.
    + unfold spec_capturing. simpl.
      rewrite (bool_decide_eq_true_2 _ Hcell). simpl. now apply Z.ltb_lt.
Qed.

(* ===================================================================== *)
(** ** Flipping and placing                                                *)
(* ===================================================================== *)

Lemma flip_cells_square g l : square g -> square (flip_cells g l).
Proof.
  revert g. induction l as [|p l IH]; intros g Hsq; [done|].
  apply IH. now apply grid_set_square.
Qed.

Lemma flip_cells_len g l : len (flip_cells g l) = len g.
Proof.
  revert g. induction l as [|p l IH]; intros g; [done|].
  cbn [flip_cells foldl]. fold (flip_cells (flip_cell g p) l).
  rewrite IH. apply grid_set_len.
Qed.

Lemma _flip_pieces_spec l :
  forall b g,
    well_formed b g -> Forall (fun p : Z * Z => in_bounds g p.1 p.2) l ->
    _flip_pieces l b = Ok (tt, mkBoard (Some (flip_cells g l)) (turn b)).
Proof.
  induction l as [|p l IH]; intros b g [Hb Hsq] Hall.
  - destruct b as [gb tb]. simpl in *. now subst.
  - apply Forall_cons in Hall as [Hp Hall]. cbn [_flip_pieces].
    destruct (cell_at_in_bounds g p.1 p.2 Hsq Hp) as [v Hv].
    rewrite (bind_ok _ _ _ _ _ (board_get_cell b g _ _ v Hb Hv)).
    assert (Hset : forall w,
      board_set p.1 p.2 w b
      = Ok (tt, mkBoard (Some (grid_set g p.1 p.2 w)) (turn b)))
      by (intros w; now apply board_set_ok).
    assert (Hstep :
      (if bool_decide (v = white) then board_set p.1 p.2 black
       else board_set p.1 p.2 white) b
      = Ok (tt, mkBoard (Some (flip_cell g p)) (turn b))).
    { unfold flip_cell. rewrite Hv.
      destruct v; simpl; rewrite Hset; reflexivity. }
    rewrite (bind_ok _ _ _ _ _ Hstep).
    rewrite (IH _ (flip_cell g p)); [done| |].
    + split; [done|]. now apply grid_set_square.
    + eapply Forall_impl; [exact Hall|]. intros q Hq.
      unfold in_bounds, flip_cell in *. now rewrite grid_set_len.
Qed.

Lemma well_formed_set_turn b g t :
  well_formed b g -> well_formed (mkBoard (board b) t) g.
Proof. intros [Hb Hsq]. split; done. Qed.

Lemma _set_next_turn_spec b g :
  well_formed b g -> turn b <> blank ->
  _set_next_turn b
  = Ok (tt, mkBoard (Some g) (spec_next_turn g (turn b))).
Proof.
  intros Hwf Ht. pose proof Hwf as [Hb Hsq].
  unfold _set_next_turn, self_turn, set_self_turn, bind at 1 2. simpl.
  rewrite (bind_ok _ _ _ _ _
             (can_move_spec _ g black (well_formed_set_turn b g black Hwf))).
  unfold bind at 1. simpl.
  rewrite (bind_ok _ _ _ _ _
             (can_move_spec _ g white (well_formed_set_turn b g white Hwf))).
  unfold spec_next_turn. destruct b as [gb tb]. simpl in Hb, Ht. subst gb.
  simpl turn. simpl board.
  destruct tb; [| |done]; simpl opponent;
    destruct (spec_has_move g black), (spec_has_move g white);
    reflexivity.
Qed.

Lemma spec_capture_run_blank g dr dc steps :
  forall r c seen, spec_capture_run g blank dr dc steps r c seen = [].
Proof.
  induction steps as [|steps IH]; intros r c seen; [done|].
  cbn [spec_capture_run]. destruct (cell_at g r c) as [v|]; [|done].
  case_bool_decide as Hv; [done|]. apply IH.
Qed.

Lemma spec_score_blank g r c : spec_score g blank r c = 0.
Proof.
  unfold spec_score, spec_capture_set.
  assert (H : ⋃ map (fun d : Z * Z =>
      list_to_set (spec_capture_run g blank d.1 d.2 (length g)
                                    (r + d.1) (c + d.2) []) : gset (Z * Z))
      directions = ∅).
  { apply (union_list_empty_forallb
             (fun d : Z * Z => spec_capture_run g blank d.1 d.2 (length g)
                                                (r + d.1) (c + d.2) [])).
    apply forallb_forall. intros d _. apply bool_decide_eq_true.
    apply spec_capture_run_blank. }
  now rewrite H, size_empty.
Qed.

Lemma captured_in_bounds g side r c p :
  square g -> captured g side r c p -> in_bounds g p.1 p.2.
Proof.
  intros Hsq (d & _ & m & k & Hk & -> & _ & _ & Hopp).
  destruct (Hopp k Hk) as (v & Hv & _). eapply cell_at_Some; eauto.
Qed.

Lemma add_piece_spec b g r c team :
  well_formed b g ->
  add_piece r c team b
  = if valid_input g (turn b) r c team && (0 <? spec_score g team r c)
    then Ok (spec_score g team r c,
             mkBoard (Some (placed_grid g team r c))
                     (spec_next_turn (placed_grid g team r c) team))
    else Ok (0, b).
Proof.
  intros Hwf. pose proof Hwf as [Hb Hsq]. unfold add_piece.
  rewrite (bind_ok _ _ _ _ _ (_validate_input_spec b g r c team Hwf)).
  destruct (valid_input g (turn b) r c team) eqn:E; [|done].
  apply valid_input_true in E as (Hin & Ht & Hcell). simpl.
  unfold bind at 1, self_turn. rewrite Ht. unfold _flip.
  unfold bind at 1. rewrite (_validate_flip_flip _ g r c team Hwf Hin).
  set (S := spec_capture_set g team r c).
  assert (Hall : Forall (fun p : Z * Z => in_bounds g p.1 p.2) (elements S)).
  { apply Forall_forall. intros p Hp. apply elem_of_elements in Hp.
    apply (spec_capture_set_elem g team r c p Hsq Hin) in Hp.
    eapply captured_in_bounds; eauto. }
  rewrite (bind_ok _ _ _ _ _ (_flip_pieces_spec _ b g Hwf Hall)).
  unfold ret at 1.
  destruct (Z.eqb_spec (spec_score g team r c) 0) as [E0|E0].
  { (* nothing captured: nothing was flipped *)
    rewrite E0. simpl.
    assert (HS : S = ∅).
    { apply leibniz_equiv, size_empty_iff. unfold spec_score in E0. fold S in E0. lia. }
    rewrite HS, elements_empty. simpl.
    destruct b as [gb tb]. simpl in *. now subst. }
  assert (Hpos : (0 <? spec_score g team r c) = true).
  { apply Z.ltb_lt. unfold spec_score in *. lia. }
  rewrite Hpos.
  assert (Hteam : team <> blank).
  { intros ->. now rewrite spec_score_blank in E0. }
  set (g1 := flip_cells g (elements S)).
  assert (Hwf1 : well_formed (mkBoard (Some g1) team) g1).
  { split; [done|]. now apply flip_cells_square. }
  unfold bind at 1. simpl. unfold bind at 1. rewrite Ht.
  rewrite (board_set_ok (mkBoard (Some g1) team) g1 r c team eq_refl (proj2 Hwf1)).
  2:{ unfold in_bounds, g1 in *. now rewrite flip_cells_len. }
  simpl. unfold bind.
  rewrite (_set_next_turn_spec _ (grid_set g1 r c team)); [done| |done].
  split; [done|]. apply grid_set_square, Hwf1.
Qed.

Lemma placed_grid_square g t r c : square g -> square (placed_grid g t r c).
Proof. intros H. apply grid_set_square. now apply flip_cells_square. Qed.

(* ===================================================================== *)
(** ** Boards of the test suite                                            *)
(* ===================================================================== *)

Example makeboard_4 : makeboard 4 = Ok new_4_board.
Proof. reflexivity. Qed.

Example add_piece_1_3 : add_piece 1 3 white new_4_board = Ok (1, after_1_3_board).
Proof. vm_compute. reflexivity. Qed.

Lemma new_4_board_well_formed : well_formed new_4_board new_4_grid.
Proof. split; [reflexivity|]. repeat constructor. Qed.

Lemma after_1_3_board_well_formed : well_formed after_1_3_board after_1_3_grid.
Proof. split; [reflexivity|]. repeat constructor. Qed.

(* ===================================================================== *)
(** ** Placement and turn advancement                                      *)
(* ===================================================================== *)

(** C2.  On a well-formed board [add_piece] returns, and after a
    successful placement (a positive count returned) the turn is the
    non-mover if the non-mover has a legal move on the resulting grid,
    otherwise the mover if the mover has one, otherwise the terminal
    marker; so the turn is the terminal marker exactly when neither side
    has a legal move. *)
Theorem add_piece_advances_turn (b : Board) (g : Grid) (r c : Z)
    (team : Square) :
  well_formed b g ->
  exists points b',
    add_piece r c team b = Ok (points, b') /\
    (0 < points ->
     exists g',
       well_formed b' g' /\ team = turn b /\ team <> blank /\
       turn b' = (if spec_has_move g' (opponent team) then opponent team
                  else if spec_has_move g' team then team
                  else blank) /\
       (turn b' = blank <->
        spec_has_move g' white = false /\ spec_has_move g' black = false)).
Proof.
  intros Hwf. rewrite (add_piece_spec b g r c team Hwf).
  destruct (valid_input g (turn b) r c team && _) eqn:E.
  2:{ exists 0, b. split; [done|lia]. }
  eexists _, _. split; [reflexivity|]. intros Hpos.
  apply andb_true_iff in E as [Hv _].
  apply valid_input_true in Hv as (_ & Ht & _).
  assert (Hteam : team <> blank).
  { intros ->. rewrite spec_score_blank in Hpos. lia. }
  exists (placed_grid g team r c). simpl.
  split; [split; [done|apply placed_grid_square, Hwf]|].
  split; [done|]. split; [done|]. split; [reflexivity|].
  unfold spec_next_turn.
  destruct team; [| |done]; simpl opponent;
    destruct (spec_has_move (placed_grid g _ r c) black),
             (spec_has_move (placed_grid g _ r c) white);
    split; intros; try done; intuition congruence.
Qed.

(** White's opening move (1, 3) on the 4 x 4 board. *)
Lemma add_piece_advances_turn_witness :
  well_formed new_4_board new_4_grid /\
  exists points b',
    add_piece 1 3 white new_4_board = Ok (points, b') /\
    (0 < points ->
     exists g',
       well_formed b' g' /\ white = turn new_4_board /\ white <> blank /\
       turn b' = (if spec_has_move g' (opponent white) then opponent white
                  else if spec_has_move g' white then white
                  else blank) /\
       (turn b' = blank <->
        spec_has_move g' white = false /\ spec_has_move g' black = false)).
Proof.
  split; [exact new_4_board_well_formed|].
  exact (add_piece_advances_turn new_4_board new_4_grid 1 3 white
                                 new_4_board_well_formed).
Defined.

(** C3.  An illegal placement attempt on a well-formed board (square out
    of range, cell occupied, team that is not to move, or nothing
    captured) raises no error, returns 0 and leaves the object, grid and
    turn, exactly as it was. *)
Theorem add_piece_rejected (b : Board) (g : Grid) (r c : Z) (team : Square) :
  well_formed b g ->
  ~ in_bounds g r c \/ cell_at g r c <> Some blank \/ turn b <> team \/
    spec_score g team r c = 0 ->
  add_piece r c team b = Ok (0, b).
Proof.
  intros Hwf H. rewrite (add_piece_spec b g r c team Hwf).
  destruct (valid_input g (turn b) r c team && _) eqn:E; [|done].
  exfalso. apply andb_true_iff in E as [Hv Hpos].
  apply valid_input_true in Hv. apply Z.ltb_lt in Hpos.
  destruct H as [H|[H|[H|H]]]; [tauto|tauto|tauto|lia].
Qed.

(** [test_board_illegal_move_out_of_range]. *)
Lemma add_piece_rejected_witness :
  well_formed new_4_board new_4_grid /\
  (~ in_bounds new_4_grid 0 6 \/ cell_at new_4_grid 0 6 <> Some blank \/
   turn new_4_board <> white \/ spec_score new_4_grid white 0 6 = 0) /\
  add_piece 0 6 white new_4_board = Ok (0, new_4_board).
Proof.
  assert (H : ~ in_bounds new_4_grid 0 6 \/
              cell_at new_4_grid 0 6 <> Some blank \/
              turn new_4_board <> white \/
              spec_score new_4_grid white 0 6 = 0).
  { left. unfold in_bounds, len. simpl. lia. }
  split; [exact new_4_board_well_formed|]. split; [exact H|].
  exact (add_piece_rejected new_4_board new_4_grid 0 6 white
                            new_4_board_well_formed H).
Defined.

(* ===================================================================== *)
(** ** [can_move] and the turn field                                       *)
(* ===================================================================== *)

(** C5, as stated, fails: on the opening board it is white's turn, black
    has a capturing placement on an in-bounds empty cell, and
    [can_move(black)] answers false; on the same grid with the turn
    field set to black it answers true. *)
Lemma can_move_depends_on_turn :
  well_formed new_4_board new_4_grid /\
  (exists r c, in_bounds new_4_grid r c /\
               cell_at new_4_grid r c = Some blank /\
               0 < spec_score new_4_grid black r c) /\
  can_move black new_4_board = Ok (false, new_4_board) /\
  can_move black (mkBoard (Some new_4_grid) black)
    = Ok (true, mkBoard (Some new_4_grid) black).
Proof.
  split; [exact new_4_board_well_formed|].
  split.
  { exists 0, 1. split; [unfold in_bounds, len; simpl; lia|].
    split; [reflexivity|vm_compute; reflexivity]. }
  split; vm_compute; reflexivity.
Qed.

(** C5, amended.  On a well-formed board [can_move(side)] returns true if
    and only if the turn field is [side] and some in-bounds empty cell
    captures at least one opposing piece for [side]; it returns false
    whenever the turn field is another side.  The board is left as it
    was. *)
Theorem can_move_turn_gated (b : Board) (g : Grid) (side : Square) :
  well_formed b g ->
  exists v,
    can_move side b = Ok (v, b) /\
    (v = true <->
     turn b = side /\
     exists r c, in_bounds g r c /\ cell_at g r c = Some blank /\
                 0 < spec_score g side r c).
Proof.
  intros Hwf. eexists. split; [apply can_move_spec; exact Hwf|].
  rewrite andb_true_iff, bool_decide_eq_true, spec_has_move_true. tauto.
Qed.

Lemma can_move_turn_gated_witness :
  well_formed after_1_3_board after_1_3_grid /\
  exists v,
    can_move black after_1_3_board = Ok (v, after_1_3_board) /\
    (v = true <->
     turn after_1_3_board = black /\
     exists r c, in_bounds after_1_3_grid r c /\
                 cell_at after_1_3_grid r c = Some blank /\
                 0 < spec_score after_1_3_grid black r c).
Proof.
  split; [exact after_1_3_board_well_formed|].
  exact (can_move_turn_gated after_1_3_board after_1_3_grid black
                             after_1_3_board_well_formed).
Defined.

Lemma flip_score_capture_set_witness :
  well_formed new_4_board new_4_grid /\
  in_bounds new_4_grid 1 3 /\ cell_at new_4_grid 1 3 = Some blank /\
  turn new_4_board = white /\
  flip_score 1 3 white new_4_board
    = Ok (Z.of_nat (size (spec_capture_set new_4_grid white 1 3)),
          new_4_board) /\
  (~ in_bounds new_4_grid 1 7 \/ cell_at new_4_grid 1 7 <> Some blank \/
   turn new_4_board <> white) /\
  flip_score 1 7 white new_4_board = Ok (0, new_4_board).
Proof.
  assert (Hin : in_bounds new_4_grid 1 3)
    by (unfold in_bounds, len; simpl; lia).
  assert (Hout : ~ in_bounds new_4_grid 1 7 \/
                 cell_at new_4_grid 1 7 <> Some blank \/
                 turn new_4_board <> white)
    by (left; unfold in_bounds, len; simpl; lia).
  split; [exact new_4_board_well_formed|]. split; [exact Hin|].
  split; [reflexivity|]. split; [reflexivity|].
  split; [|split; [exact Hout|]].
  - exact (proj1 (proj1 (flip_score_capture_set new_4_board new_4_grid 1 3
                           white new_4_board_well_formed)
                        Hin eq_refl eq_refl)).
  - exact (proj2 (flip_score_capture_set new_4_board new_4_grid 1 7 white
                    new_4_board_well_formed) Hout).
Defined.

(* ===================================================================== *)
(** ** Counting pieces and the winner                                      *)
(* ===================================================================== *)

Lemma sumZ_app {X} (h : X -> Z) (l1 l2 : list X) :
  sumZ h (l1 ++ l2) = sumZ h l1 + sumZ h l2.
Proof. induction l1 as [|x l1 IH]; simpl; [done|]. rewrite IH. lia. Qed.

Lemma sumZ_concat {X} (h : X -> Z) (ls : list (list X)) :
  sumZ (sumZ h) ls = sumZ h (concat ls).
Proof.
  induction ls as [|l ls IH]; simpl; [done|]. now rewrite sumZ_app, IH.
Qed.

Lemma xrange_snoc (n : nat) :
  xrange 0 (Z.of_nat (S n)) = xrange 0 (Z.of_nat n) ++ [Z.of_nat n].
Proof.
  unfold xrange. rewrite !Z.sub_0_r, !Nat2Z.id, seq_S, map_app. reflexivity.
Qed.

Lemma foldl_ext_in {X S} (f h : S -> X -> S) (l : list X) :
  (forall s x, x ∈ l -> f s x = h s x) ->
  forall s, foldl f s l = foldl h s l.
Proof.
  induction l as [|x l IH]; intros H s; [done|].
  cbn [foldl]. rewrite (H s x) by left. apply IH.
  intros s' y Hy. apply H. now right.
Qed.

(** A loop over the indices of a list that adds up a function of the
    entries adds its sum over the list. *)
Lemma foldl_index_sum {X} (h : X -> Z) (l : list X) (a : Z) :
  foldl (fun a i => a + match l !! Z.to_nat i with
                        | Some x => h x
                        | None => 0
                        end) a (xrange 0 (len l))
  = a + sumZ h l.
Proof.
  revert a. induction l as [|x l IH] using rev_ind; intros a.
  - simpl. lia.
  - unfold len. rewrite length_app. simpl length.
    replace (length l + 1)%nat with (S (length l)) by lia.
    rewrite xrange_snoc, foldl_app. cbn [foldl].
    rewrite Nat2Z.id, lookup_app_r, Nat.sub_diag by lia. simpl.
    rewrite sumZ_app. simpl.
    enough (Hpre : foldl (fun a0 i => a0 + match (l ++ [x]) !! Z.to_nat i with
                                             | Some x0 => h x0
                                             | None => 0
                                             end) a (xrange 0 (Z.of_nat (length l)))
                   = a + sumZ h l) by (rewrite Hpre; lia).
    rewrite <- (IH a). unfold len.
    apply foldl_ext_in. intros s i Hi. apply elem_of_xrange in Hi.
    rewrite lookup_app_l by lia. reflexivity.
Qed.

Lemma sumZ_advantage (l : list Square) :
  sumZ advantage l
  = Z.of_nat (length (filter (fun v => v = white) l))
    - Z.of_nat (length (filter (fun v => v = black) l)).
Proof.
  induction l as [|v l IH]; [done|].
  cbn [sumZ foldr]. fold (sumZ advantage l). rewrite IH.
  destruct v; rewrite !filter_cons; repeat case_decide; try done;
    simpl; lia.
Qed.

(** The two nested loops of [who_won]. *)
Lemma white_advantage_loop b g :
  well_formed b g ->
  for_each (xrange 0 (len g)) (fun r white_advantage =>
    g <- self_board ;;
    for_each (xrange 0 (len g)) (fun c white_advantage =>
      v <- board_get r c ;;
      if bool_decide (v = white) then ret (white_advantage + 1)
      else
        v <- board_get r c ;;
        if bool_decide (v = black) then ret (white_advantage - 1)
        else ret white_advantage)
      white_advantage)
    0 b
  = Ok (count_pieces g white - count_pieces g black, b).
Proof.
  intros Hwf. pose proof Hwf as [Hb Hsq].
  erewrite (for_each_pure (xrange 0 (len g)) _
    (fun a r => a + match g !! Z.to_nat r with
                    | Some row => sumZ advantage row
                    | None => 0
                    end)).
  - rewrite (foldl_index_sum (sumZ advantage) g 0), sumZ_concat.
    now rewrite sumZ_advantage.
  - intros r a Hr. apply elem_of_xrange in Hr.
    rewrite (bind_ok _ _ _ _ _ (self_board_ok b g Hb)).
    destruct (lookup_lt_is_Some_2 g (Z.to_nat r)) as [row Hrow];
      [unfold len in Hr; lia|].
    rewrite Hrow.
    pose proof (square_lookup g row _ Hsq Hrow) as Hlen.
    erewrite (for_each_pure (xrange 0 (len g)) _
      (fun a c => a + match row !! Z.to_nat c with
                      | Some v => advantage v
                      | None => 0
                      end)).
    + replace (len g) with (len row) by (unfold len; lia).
      now rewrite foldl_index_sum.
    + intros c a' Hc. apply elem_of_xrange in Hc.
      destruct (lookup_lt_is_Some_2 row (Z.to_nat c)) as [v Hv];
        [unfold len in Hc; lia|].
      assert (Hcell : cell_at g r c = Some v).
      { unfold cell_at. zcases. rewrite Hrow. simpl. exact Hv. }
      rewrite (bind_ok _ _ _ _ _ (board_get_cell b g r c v Hb Hcell)).
      rewrite Hv.
      destruct v; simpl; [done| |].
      * rewrite (bind_ok _ _ _ _ _ (board_get_cell b g r c _ Hb Hcell)).
        reflexivity.
      * rewrite (bind_ok _ _ _ _ _ (board_get_cell b g r c _ Hb Hcell)).
        simpl. unfold ret. now rewrite Z.add_0_r.
Qed.

(** C7.  On a well-formed board whose turn is the terminal marker,
    [who_won] returns white when white has strictly more pieces, black
    when black has strictly more, the no-side marker ([blank]) on equal
    counts.  On a board that is not terminal it returns [-1], which is the
    value of no [Square] tag.  In both cases the board is left as it
    was. *)
Theorem who_won_spec (b : Board) (g : Grid) :
  well_formed b g ->
  (turn b = blank ->
   exists v,
     who_won b = Ok (v, b) /\
     (count_pieces g black < count_pieces g white -> v = Square_value white) /\
     (count_pieces g white < count_pieces g black -> v = Square_value black) /\
     (count_pieces g white = count_pieces g black -> v = Square_value blank)) /\
  (turn b <> blank ->
   who_won b = Ok (-1, b) /\ forall s, Square_value s <> -1).
Proof.
  intros Hwf. split.
  - intros Ht. unfold who_won. cbv zeta. unfold bind at 1, self_turn.
    rewrite Ht. rewrite bool_decide_eq_true_2 by done. cbn [negb].
    rewrite (bind_ok _ _ _ _ _ (self_board_ok b g (proj1 Hwf))).
    rewrite (bind_ok _ _ _ _ _ (white_advantage_loop b g Hwf)).
    set (adv := count_pieces g white - count_pieces g black).
    exists (if adv =? 0 then Square_value blank
            else if 0 <? adv then Square_value white
            else Square_value black).
    split; [destruct (adv =? 0), (0 <? adv); reflexivity|].
    unfold adv. repeat split; intros H; zcases.
  - intros Ht. split; [|intros []; done].
    unfold who_won. cbv zeta. unfold bind at 1, self_turn.
    now rewrite bool_decide_eq_false_2.
Qed.

Lemma white_win_board_well_formed : well_formed white_win_board white_win_grid.
Proof. split; [reflexivity|]. repeat constructor. Qed.

Example who_won_white_win : who_won white_win_board = Ok (0, white_win_board).
Proof. vm_compute. reflexivity. Qed.

Lemma who_won_spec_witness :
  well_formed white_win_board white_win_grid /\
  turn white_win_board = blank /\
  exists v,
    who_won white_win_board = Ok (v, white_win_board) /\
    (count_pieces white_win_grid black < count_pieces white_win_grid white ->
     v = Square_value white) /\
    (count_pieces white_win_grid white < count_pieces white_win_grid black ->
     v = Square_value black) /\
    (count_pieces white_win_grid white = count_pieces white_win_grid black ->
     v = Square_value blank).
Proof.
  split; [exact white_win_board_well_formed|]. split; [reflexivity|].
  exact (proj1 (who_won_spec white_win_board white_win_grid
                             white_win_board_well_formed) eq_refl).
Defined.

(* ===================================================================== *)
(** ** The strategies play black only                                      *)
(* ===================================================================== *)

Lemma flip_score_off_turn b g r c team :
  board b = Some g -> turn b <> team -> flip_score r c team b = Ok (0, b).
Proof.
  intros Hb Ht. unfold flip_score.
  rewrite (bind_ok _ _ _ _ _
             (_validate_input_refused b g r c team Hb (or_intror Ht))).
  reflexivity.
Qed.

Lemma foldl_const {X S} (l : list X) (s : S) : foldl (fun s _ => s) s l = s.
Proof. induction l as [|x l IH]; [done|]. exact IH. Qed.

Lemma get_size_ok b g : board b = Some g -> get_size b = Ok (len g, b).
Proof.
  intros Hb. unfold get_size.
  now rewrite (bind_ok _ _ _ _ _ (self_board_ok b g Hb)).
Qed.

Lemma _get_moves_off_turn b g team :
  board b = Some g -> turn b <> team -> _get_moves team b = Ok ([], b).
Proof.
  intros Hb Ht. unfold _get_moves.
  rewrite (bind_ok _ _ _ _ _ (get_size_ok b g Hb)).
  erewrite bind_ok.
  2:{ apply (for_each_pure (xrange 0 (len g)) _ (fun vm _ => vm)).
      intros r vm _.
      rewrite (bind_ok _ _ _ _ _ (get_size_ok b g Hb)).
      rewrite (for_each_pure (xrange 0 (len g)) _ (fun vm _ => vm)).
      - now rewrite foldl_const.
      - intros c vm' _.
        now rewrite (bind_ok _ _ _ _ _ (flip_score_off_turn b g r c team Hb Ht)). }
  now rewrite foldl_const.
Qed.

Lemma strong_move_recurse_no_moves fuel n move b :
  n <> 0 -> _get_moves black b = Ok ([], b) ->
  strong_move_recurse (S fuel) n move b = Raise IndexError.
Proof.
  intros Hn Hm. cbn [strong_move_recurse].
  destruct (Z.eqb_spec n 0) as [|_]; [done|].
  rewrite (bind_ok _ _ _ _ _ Hm). reflexivity.
Qed.

Lemma _get_moves_no_grid b team :
  board b = None -> _get_moves team b = Raise TypeError.
Proof.
  intros Hb. unfold _get_moves, get_size, bind, self_board. now rewrite Hb.
Qed.

(** C9.  The four strategy entry points take a board (and the number the
    random generator draws) and no side: they enumerate the moves of
    black.  On a board where black is not the side to move, the
    enumerated list is empty and every strategy raises an error, whatever
    the generator draws. *)
Theorem strategies_raise_off_turn (b : Board) (u : Q) :
  turn b <> black ->
  (forall g, board b = Some g -> _get_moves black b = Ok ([], b)) /\
  (exists e, weak_move u b = Raise e) /\
  (exists e, novice_move u b = Raise e) /\
  (exists e, moderate_move u b = Raise e) /\
  (exists e, strong_move b = Raise e).
Proof.
  intros Ht. split; [intros g Hb; now apply (_get_moves_off_turn b g)|].
  destruct (board b) as [g|] eqn:Hb.
  - pose proof (_get_moves_off_turn b g black Hb Ht) as Hm. repeat split.
    + exists ValueError. unfold weak_move. now rewrite (bind_ok _ _ _ _ _ Hm).
    + exists IndexError. unfold novice_move.
      now rewrite (bind_ok _ _ _ _ _ Hm).
    + exists IndexError. unfold moderate_move.
      now rewrite (bind_ok _ _ _ _ _ Hm).
    + exists IndexError. unfold strong_move, deepcopy_self, bind at 1, run_on.
      change (Z.to_nat 3) with 3%nat. unfold bind.
      now rewrite (strong_move_recurse_no_moves 2 3 None b).
  - pose proof (_get_moves_no_grid b black Hb) as Hm. repeat split.
    + exists TypeError. unfold weak_move. now rewrite (bind_raise _ _ _ _ Hm).
    + exists TypeError. unfold novice_move.
      now rewrite (bind_raise _ _ _ _ Hm).
    + exists TypeError. unfold moderate_move.
      now rewrite (bind_raise _ _ _ _ Hm).
    + exists TypeError. unfold strong_move, deepcopy_self, bind at 1, run_on.
      change (Z.to_nat 3) with 3%nat. unfold bind.
      cbn [strong_move_recurse]. change (3 =? 0) with false. cbv iota.
      now rewrite (bind_raise _ _ _ _ Hm).
Qed.

(** A strategy asked to move on the opening board, where white is to
    move. *)
Lemma strategies_raise_off_turn_witness :
  turn new_4_board <> black /\
  (forall g, board new_4_board = Some g ->
             _get_moves black new_4_board = Ok ([], new_4_board)) /\
  (exists e, weak_move (1 # 2) new_4_board = Raise e) /\
  (exists e, novice_move (1 # 2) new_4_board = Raise e) /\
  (exists e, moderate_move (1 # 2) new_4_board = Raise e) /\
  (exists e, strong_move new_4_board = Raise e).
Proof.
  assert (Ht : turn new_4_board <> black) by discriminate.
  split; [exact Ht|].
  exact (strategies_raise_off_turn new_4_board (1 # 2) Ht).
Defined.

(* ===================================================================== *)
(** ** The stable sort                                                     *)
(* ===================================================================== *)

Section stable_sort.
Context {A : Type} (key : A -> Z) (before : relation A).

Lemma insert_desc_perm x l : insert_desc key x l ≡ₚ x :: l.
Proof.
  induction l as [|y l IH]; cbn [insert_desc]; [done|].
  destruct (key y <=? key x); [done|].
  rewrite IH. apply Permutation_swap.
Qed.

Lemma sorted_reverse_perm l : sorted_reverse key l ≡ₚ l.
Proof.
  induction l as [|x l IH]; [done|].
  cbn [sorted_reverse foldr]. fold (sorted_reverse key l).
  now rewrite insert_desc_perm, IH.
Qed.

Lemma insert_desc_sorted x l :
  Forall (before x) l ->
  StronglySorted (sorted_order key before) l ->
  StronglySorted (sorted_order key before) (insert_desc key x l).
Proof.
  intros Hbefore Hsorted.
  induction Hsorted as [|y l Hsorted IH Hy]; cbn [insert_desc].
  - repeat constructor.
  - apply Forall_cons in Hbefore as [Hxy Hxl].
    destruct (Z.leb_spec (key y) (key x)) as [Hle|Hgt].
    + (* [x] goes in front of [y] *)
      constructor; [constructor; done|].
      constructor.
      * unfold sorted_order. destruct (Z.eq_dec (key x) (key y)); [right|left]; [done|lia].
      * rewrite Forall_forall in Hy, Hxl |- *. intros z Hz.
        specialize (Hy z Hz). specialize (Hxl z Hz).
        unfold sorted_order in *.
        destruct (Z.eq_dec (key x) (key z)); [right; done|left; lia].
    + (* [x] goes somewhere behind [y] *)
      constructor; [now apply IH|].
      rewrite Forall_forall in Hy |- *. intros z Hz.
      rewrite insert_desc_perm in Hz. apply elem_of_cons in Hz as [->|Hz].
      * left. lia.
      * now apply Hy.
Qed.

(** Sorting a list whose entries are in [before] order gives a list in
    [sorted_order]: descending keys, ties in the order of the input. *)
Lemma sorted_reverse_sorted l :
  StronglySorted before l ->
  StronglySorted (sorted_order key before) (sorted_reverse key l).
Proof.
  induction 1 as [|x l Hl IH Hx]; [constructor|].
  cbn [sorted_reverse foldr]. fold (sorted_reverse key l).
  apply insert_desc_sorted; [|done].
  rewrite Forall_forall in Hx |- *. intros z Hz. apply Hx.
  now rewrite sorted_reverse_perm in Hz.
Qed.
End stable_sort.

(* ===================================================================== *)
(** ** [_get_moves]                                                        *)
(* ===================================================================== *)

Lemma foldl_app_bind {X Y} (k : X -> list Y) (xs : list X) (acc : list Y) :
  foldl (fun acc x => acc ++ k x) acc xs = acc ++ (xs ≫= k).
Proof.
  revert acc. induction xs as [|x xs IH]; intros acc; cbn [foldl].
  - now rewrite app_nil_r.
  - rewrite IH, bind_cons. now rewrite app_assoc.
Qed.

Lemma xrange_sorted lo hi : StronglySorted Z.lt (xrange lo hi).
Proof.
  unfold xrange. generalize (Z.to_nat (hi - lo)) as n. generalize 0%nat as s.
  intros s n. revert s. induction n as [|n IH]; intros s; [constructor|].
  cbn [seq map]. constructor; [apply IH|].
  apply Forall_forall. intros x Hx.
  apply list_elem_of_fmap in Hx as (k & -> & Hk).
  apply list_elem_of_In, in_seq in Hk. lia.
Qed.

Lemma StronglySorted_bind {X Y} (RX : relation X) (RY : relation Y)
    (k : X -> list Y) (xs : list X) :
  StronglySorted RX xs ->
  (forall x, x ∈ xs -> StronglySorted RY (k x)) ->
  (forall x1 x2 y1 y2, RX x1 x2 -> y1 ∈ k x1 -> y2 ∈ k x2 -> RY y1 y2) ->
  StronglySorted RY (xs ≫= k).
Proof.
  intros Hxs Hk Hcross. induction Hxs as [|x xs Hxs IH Hx]; [constructor|].
  rewrite bind_cons. apply StronglySorted_app_2.
  - intros y1 y2 Hy1 Hy2. apply list_elem_of_bind in Hy2 as (x2 & Hy2 & Hx2).
    rewrite Forall_forall in Hx. eapply Hcross; eauto.
  - apply Hk. left.
  - apply IH. intros x' Hx'. apply Hk. now right.
Qed.

Lemma elem_of_scan_moves score n r c s :
  (r, c, s) ∈ scan_moves score n <->
  0 <= r < n /\ 0 <= c < n /\ s = score r c /\ s <> 0.
Proof.
  unfold scan_moves. rewrite list_elem_of_bind. split.
  - intros (r' & Hin & Hr). apply list_elem_of_bind in Hin as (c' & Hin & Hc).
    apply elem_of_xrange in Hr, Hc.
    destruct (Z.eqb_spec (score r' c') 0) as [|Hne]; simpl in Hin;
      [now apply elem_of_nil in Hin|].
    apply list_elem_of_singleton in Hin. inversion Hin; subst. done.
  - intros (Hr & Hc & -> & Hs). exists r. split; [|now apply elem_of_xrange].
    apply list_elem_of_bind. exists c. split; [|now apply elem_of_xrange].
    destruct (Z.eqb_spec (score r c) 0) as [|Hne]; [done|].
    now apply list_elem_of_singleton.
Qed.

Lemma scan_moves_row_major score n :
  StronglySorted row_major (scan_moves score n).
Proof.
  unfold scan_moves.
  apply (StronglySorted_bind Z.lt); [apply xrange_sorted| |].
  - intros r _. apply (StronglySorted_bind Z.lt); [apply xrange_sorted| |].
    + intros c _. destruct (negb _); repeat constructor.
    + intros c1 c2 m1 m2 Hc H1 H2.
      destruct (negb (score r c1 =? 0)); [|now apply elem_of_nil in H1].
      destruct (negb (score r c2 =? 0)); [|now apply elem_of_nil in H2].
      apply list_elem_of_singleton in H1, H2. subst. right. done.
  - intros r1 r2 m1 m2 Hr H1 H2.
    apply list_elem_of_bind in H1 as (c1 & H1 & _).
    apply list_elem_of_bind in H2 as (c2 & H2 & _).
    destruct (negb (score r1 c1 =? 0)); [|now apply elem_of_nil in H1].
    destruct (negb (score r2 c2 =? 0)); [|now apply elem_of_nil in H2].
    apply list_elem_of_singleton in H1, H2. subst. left. done.
Qed.

Lemma _get_moves_spec b g team :
  well_formed b g ->
  _get_moves team b
  = Ok (sorted_reverse move_score
          (scan_moves (fun r c =>
                         if valid_input g (turn b) r c team
                         then spec_score g team r c else 0) (len g)), b).
Proof.
  intros Hwf. pose proof Hwf as [Hb Hsq]. unfold _get_moves.
  rewrite (bind_ok _ _ _ _ _ (get_size_ok b g Hb)).
  set (score := fun r c => if valid_input g (turn b) r c team
                           then spec_score g team r c else 0).
  set (cell_moves := fun r c =>
         if negb (score r c =? 0) then [(r, c, score r c)] else []).
  erewrite bind_ok.
  2:{ apply (for_each_pure (xrange 0 (len g)) _
        (fun vm r => vm ++ (xrange 0 (len g) ≫= cell_moves r))).
      intros r vm _.
      rewrite (bind_ok _ _ _ _ _ (get_size_ok b g Hb)).
      rewrite (for_each_pure (xrange 0 (len g)) _
                 (fun vm c => vm ++ cell_moves r c)).
      - now rewrite foldl_app_bind.
      - intros c vm' _.
        rewrite (bind_ok _ _ _ _ _ (flip_score_spec b g r c team Hwf)).
        fold (score r c). unfold cell_moves.
        destruct (negb (score r c =? 0)); [done|].
        unfold ret. now rewrite app_nil_r. }
  rewrite foldl_app_bind. reflexivity.
Qed.

(** C8.  On a well-formed board and for the side whose turn it is,
    [_get_moves] returns a list that holds exactly the squares whose
    [flip_score] for that side is positive (the in-bounds empty cells
    with a capture set that is not empty), each with that score, in
    descending order of score, squares of equal score in the row-major
    order of the scan. *)
Theorem get_moves_sorted (b : Board) (g : Grid) (team : Square) :
  well_formed b g -> turn b = team ->
  exists l,
    _get_moves team b = Ok (l, b) /\
    (forall r c s,
       (r, c, s) ∈ l <-> flip_score r c team b = Ok (s, b) /\ 0 < s) /\
    (forall r c s,
       (r, c, s) ∈ l <->
       in_bounds g r c /\ cell_at g r c = Some blank /\
       s = spec_score g team r c /\ 0 < s) /\
    StronglySorted move_order l.
Proof.
  intros Hwf Ht. eexists. split; [apply (_get_moves_spec b g team Hwf)|].
  assert (Hnn : forall r c, 0 <= spec_score g team r c)
    by (intros; unfold spec_score; lia).
  split; [|split].
  - intros r c s. rewrite sorted_reverse_perm, elem_of_scan_moves.
    rewrite (flip_score_spec b g r c team Hwf). specialize (Hnn r c).
    destruct (valid_input g (turn b) r c team) eqn:E.
    + apply valid_input_true in E as ([Hr Hc] & _ & _).
      split.
      * intros (_ & _ & -> & Hs). split; [done|lia].
      * intros [Heq Hs]. inversion Heq; subst. repeat split; lia.
    + split.
      * intros (_ & _ & -> & Hs). done.
      * intros [Heq Hs]. inversion Heq; subst. lia.
  - intros r c s. rewrite sorted_reverse_perm, elem_of_scan_moves.
    specialize (Hnn r c).
    destruct (valid_input g (turn b) r c team) eqn:E.
    + apply valid_input_true in E as (Hin & _ & Hcell). pose proof Hin as [? ?].
      split.
      * intros (_ & _ & -> & Hs). repeat split; try done; lia.
      * intros (_ & _ & -> & Hs). repeat split; lia.
    + split; [intros (_ & _ & -> & Hs); done|].
      intros (Hin & Hcell & _ & _). exfalso.
      apply not_true_iff_false in E. apply E. now apply valid_input_true.
  - apply sorted_reverse_sorted, scan_moves_row_major.
Qed.

Lemma get_moves_sorted_witness :
  well_formed after_1_3_board after_1_3_grid /\
  turn after_1_3_board = black /\
  exists l,
    _get_moves black after_1_3_board = Ok (l, after_1_3_board) /\
    (forall r c s,
       (r, c, s) ∈ l <->
       flip_score r c black after_1_3_board = Ok (s, after_1_3_board) /\
       0 < s) /\
    (forall r c s,
       (r, c, s) ∈ l <->
       in_bounds after_1_3_grid r c /\
       cell_at after_1_3_grid r c = Some blank /\
       s = spec_score after_1_3_grid black r c /\ 0 < s) /\
    StronglySorted move_order l.
Proof.
  split; [exact after_1_3_board_well_formed|]. split; [reflexivity|].
  exact (get_moves_sorted after_1_3_board after_1_3_grid black
                          after_1_3_board_well_formed eq_refl).
Defined.

Example _get_moves_after_1_3 :
  _get_moves black after_1_3_board
  = Ok ([(0, 1, 1); (0, 3, 1); (2, 3, 1)], after_1_3_board).
Proof. vm_compute. reflexivity. Qed.

(** [sorted] moves the larger keys forward and leaves ties in place. *)
Example sorted_reverse_stable :
  sorted_reverse move_score [(0, 0, 1); (0, 1, 3); (1, 0, 1); (1, 1, 3)]
  = [(0, 1, 3); (1, 1, 3); (0, 0, 1); (1, 0, 1)].
Proof. reflexivity. Qed.

(* ===================================================================== *)
(** ** The depth of the lookahead                                          *)
(* ===================================================================== *)

(** C4 fails on the code.  On [leak_board] the candidates are (2, 0) and
    then (3, 0).  Playing (2, 0) ends the game, which sets
    [num_moves_left] to 1; the sibling (3, 0), which does not end the
    game, is then searched from 1 and not from 3: it is valued 10, the
    count right after the move, where the search from the depth of the
    level values it 16.  [strong_move] returns (2, 0); searched as the
    specification says, it returns (3, 0). *)
Lemma strong_move_depth_leak :
  _get_moves black leak_board = Ok ([(2, 0, 2); (3, 0, 1)], leak_board) /\
  candidates_loop search3 [(2, 0, 2); (3, 0, 1)] 3 leak_board
    = Ok ((1, [((2, 0, 2), 12); ((3, 0, 1), 10)]), leak_board) /\
  (exists b', candidate_branch search3 3 (3, 0, 1) leak_board
              = Ok ((3, (Some (2, 0, 2), 16)), b') /\ turn b' = black) /\
  strong_move leak_board = Ok (Some (2, 0, 2), leak_board) /\
  spec_search 3 3 None leak_board = Ok ((Some (3, 0, 1), 16), leak_board).
Proof.
  split; [vm_compute; reflexivity|].
  split; [vm_compute; reflexivity|].
  split; [eexists; split; vm_compute; reflexivity|].
  split; vm_compute; reflexivity.
Qed.

(* ===================================================================== *)
(** ** The thirds of the weighted sampler                                  *)
(* ===================================================================== *)

(** C6 fails on the code.  After white's opening move black has three
    moves of score 1.  With the weights [[5, 2, 0]] the third of them,
    the bottom third of the list, is weighted by 2 and not by 0
    ([2 * 1.5 <= 3] holds), the cumulative weights are 5, 10, 12, and a
    draw of 0.9 (10.8 of the total 12) selects it. *)
Lemma moderate_move_picks_bottom_third :
  _get_moves black after_1_3_board
    = Ok ([(0, 1, 1); (0, 3, 1); (2, 3, 1)], after_1_3_board) /\
  weigh_loop (xrange 0 3) [5; 2; 0] ([(0, 1, 1); (0, 3, 1); (2, 3, 1)], 0, [])
    = Ok ([(0, 1, 5); (0, 3, 5); (2, 3, 2)], 12, [5; 10; 12]) /\
  (0 <= (9 # 10) * inject_Z 12 /\ (9 # 10) * inject_Z 12 < inject_Z 12)%Q /\
  bisect [5; 10; 12] ((9 # 10) * inject_Z 12) = Ok 2 /\
  in_bottom_third 3 2 = true /\
  moderate_move (9 # 10) after_1_3_board = Ok ((2, 3, 2), after_1_3_board).
Proof.
  split; [vm_compute; reflexivity|].
  split; [vm_compute; reflexivity|].
  split; [split; vm_compute; congruence|].
  split; [vm_compute; reflexivity|].
  split; vm_compute; reflexivity.
Qed.

(* ===================================================================== *)
(** ** The opening position                                                *)
(* ===================================================================== *)

Lemma cell_at_replicate (n : nat) (v : Square) r c :
  0 <= r < Z.of_nat n -> 0 <= c < Z.of_nat n ->
  cell_at (replicate n (replicate n v)) r c = Some v.
Proof.
  intros Hr Hc. unfold cell_at. zcases.
  rewrite lookup_replicate_2 by lia. simpl.
  now rewrite lookup_replicate_2 by lia.
Qed.

Lemma makeboard_grid (size : Z) :
  2 <= size ->
  exists g,
    makeboard size = Ok (mkBoard (Some g) white) /\
    square g /\ len g = size /\
    forall r c, 0 <= r < size -> 0 <= c < size ->
                cell_at g r c = Some (opening_cell size r c).
Proof.
  intros Hsz. unfold makeboard, __init__.
  destruct (Z.eqb_spec size 0) as [E0|E0]; [lia|].
  set (n := Z.to_nat size).
  set (g0 := replicate n (replicate n blank)).
  assert (Hh : 0 <= size / 2 < size)
    by (split; [apply Z.div_pos; lia | apply Z.div_lt; lia]).
  assert (Hh' : 0 <= size / 2 - 1 < size).
  { assert (1 <= size / 2) by (apply Z.div_le_lower_bound; lia). lia. }
  assert (Hl0 : len g0 = size).
  { unfold len, g0. rewrite length_replicate. lia. }
  pose proof (replicate_square n : square g0) as Hs0.
  set (g1 := grid_set g0 (size / 2) (size / 2) white).
  set (g2 := grid_set g1 (size / 2 - 1) (size / 2 - 1) white).
  set (g3 := grid_set g2 (size / 2) (size / 2 - 1) black).
  set (g4 := grid_set g3 (size / 2 - 1) (size / 2) black).
  assert (Hs1 : square g1) by now apply grid_set_square.
  assert (Hs2 : square g2) by now apply grid_set_square.
  assert (Hs3 : square g3) by now apply grid_set_square.
  assert (Hl1 : len g1 = size) by (unfold g1; now rewrite grid_set_len).
  assert (Hl2 : len g2 = size) by (unfold g2; now rewrite grid_set_len).
  assert (Hl3 : len g3 = size) by (unfold g3; now rewrite grid_set_len).
  exists g4. split; [|split; [|split]].
  - unfold bind.
    rewrite (board_set_ok _ g0) by (done || (unfold in_bounds; lia)).
    rewrite (board_set_ok _ g1) by (done || (unfold in_bounds; lia)).
    rewrite (board_set_ok _ g2) by (done || (unfold in_bounds; lia)).
    rewrite (board_set_ok _ g3) by (done || (unfold in_bounds; lia)).
    reflexivity.
  - now apply grid_set_square.
  - unfold g4. now rewrite grid_set_len.
  - intros r c Hr Hc.
    unfold g4. rewrite (cell_at_grid_set g3) by (done || (unfold in_bounds; lia)).
    unfold g3. rewrite (cell_at_grid_set g2) by (done || (unfold in_bounds; lia)).
    unfold g2. rewrite (cell_at_grid_set g1) by (done || (unfold in_bounds; lia)).
    unfold g1. rewrite (cell_at_grid_set g0) by (done || (unfold in_bounds; lia)).
    unfold g0. rewrite cell_at_replicate by lia.
    unfold opening_cell.
    repeat case_bool_decide; try reflexivity; exfalso; lia.
Qed.

(** X1.  For every size of at least 2, [makeboard] returns a board whose
    turn is white and whose grid is [size] by [size]: the two centre
    cells of the main diagonal are white, the other two centre cells are
    black, and every other cell is blank. *)
Theorem makeboard_opening_position (size : Z) :
  2 <= size ->
  exists g,
    makeboard size = Ok (mkBoard (Some g) white) /\
    well_formed (mkBoard (Some g) white) g /\ len g = size /\
    forall r c, 0 <= r < size -> 0 <= c < size ->
      cell_at g r c =
      Some (if bool_decide ((r = size / 2 /\ c = size / 2) \/
                            (r = size / 2 - 1 /\ c = size / 2 - 1))
            then white
            else if bool_decide ((r = size / 2 /\ c = size / 2 - 1) \/
                                 (r = size / 2 - 1 /\ c = size / 2))
            then black
            else blank).
Proof.
  intros Hsz. destruct (makeboard_grid size Hsz) as (g & Hm & Hsq & Hl & Hc).
  exists g. repeat split; done.
Qed.

Lemma makeboard_opening_position_witness :
  2 <= 4 /\
  exists g,
    makeboard 4 = Ok (mkBoard (Some g) white) /\
    well_formed (mkBoard (Some g) white) g /\ len g = 4 /\
    forall r c, 0 <= r < 4 -> 0 <= c < 4 ->
      cell_at g r c =
      Some (if bool_decide ((r = 4 / 2 /\ c = 4 / 2) \/
                            (r = 4 / 2 - 1 /\ c = 4 / 2 - 1))
            then white
            else if bool_decide ((r = 4 / 2 /\ c = 4 / 2 - 1) \/
                                 (r = 4 / 2 - 1 /\ c = 4 / 2))
            then black
            else blank).
Proof.
  assert (H : 2 <= 4) by lia.
  split; [exact H|]. exact (makeboard_opening_position 4 H).
Defined.

(** X2.  A negative size makes [makeboard] raise [IndexError]: the grid
    built from [range(size)] is empty and the first centre cell cannot be
    written.  Size 0 is taken as false by the constructor, which then
    stores no grid at all, so that [get_size] raises [TypeError] on the
    board returned. *)
Theorem makeboard_degenerate_sizes (size : Z) :
  (size < 0 -> makeboard size = Raise IndexError) /\
  (size = 0 ->
   exists b, makeboard size = Ok b /\ board b = None /\
             get_size b = Raise TypeError).
Proof.
  split.
  - intros Hneg. unfold makeboard, __init__.
    destruct (Z.eqb_spec size 0) as [|_]; [lia|].
    replace (Z.to_nat size) with 0%nat by lia.
    unfold bind at 1. unfold board_set at 1.
    unfold bind, self_board, lift. cbn [board replicate].
    now rewrite getitem_nil.
  - intros ->. eexists. split; [reflexivity|]. split; reflexivity.
Qed.

Lemma makeboard_degenerate_sizes_witness :
  -2 < 0 /\ makeboard (-2) = Raise IndexError.
Proof.
  assert (H : -2 < 0) by lia.
  split; [exact H|]. exact (proj1 (makeboard_degenerate_sizes (-2)) H).
Defined.

(* ===================================================================== *)
(** ** What a placement does to the grid                                   *)
(* ===================================================================== *)

Lemma flip_cell_cell g p v r c :
  square g -> cell_at g p.1 p.2 = Some v ->
  cell_at (flip_cell g p) r c =
  if bool_decide (r = p.1 /\ c = p.2) then Some (flipped v) else cell_at g r c.
Proof.
  intros Hsq Hv. unfold flip_cell.
  rewrite cell_at_grid_set by (done || (eapply cell_at_Some; eauto)).
  rewrite Hv. unfold flipped.
  destruct v; repeat case_bool_decide; congruence.
Qed.

Lemma cell_at_flip_cells l :
  forall g, square g -> NoDup l ->
    Forall (fun p : Z * Z => in_bounds g p.1 p.2) l ->
    forall r c,
      cell_at (flip_cells g l) r c =
      if bool_decide ((r, c) ∈ l) then flipped <$> cell_at g r c
      else cell_at g r c.
Proof.
  induction l as [|p l IH]; intros g Hsq Hnd Hall r c.
  - cbn [flip_cells foldl].
    case_bool_decide as H; [now apply elem_of_nil in H|done].
  - apply NoDup_cons in Hnd as [Hp Hnd]. apply Forall_cons in Hall as [Hpin Hall].
    destruct (cell_at_in_bounds g p.1 p.2 Hsq Hpin) as [v Hv].
    cbn [flip_cells foldl]. fold (flip_cells (flip_cell g p) l).
    rewrite IH; [|now apply grid_set_square|done|].
    2:{ eapply Forall_impl; [exact Hall|]. intros q Hq.
        unfold in_bounds, flip_cell in *. now rewrite grid_set_len. }
    rewrite (flip_cell_cell g p v r c Hsq Hv).
    destruct p as [pr pc]. simpl in *.
    destruct (decide ((r, c) = (pr, pc))) as [Heq|Hne].
    + inversion Heq; subst.
      rewrite (bool_decide_eq_false_2 ((pr, pc) ∈ l)) by done.
      rewrite (bool_decide_eq_true_2 (pr = pr /\ pc = pc)) by done.
      rewrite (bool_decide_eq_true_2 ((pr, pc) ∈ (pr, pc) :: l)) by left.
      now rewrite Hv.
    + rewrite (bool_decide_eq_false_2 (r = pr /\ c = pc))
        by (intros [-> ->]; done).
      assert (Hiff : (r, c) ∈ (pr, pc) :: l <-> (r, c) ∈ l).
      { rewrite elem_of_cons. tauto. }
      case_bool_decide as H1.
      * now rewrite bool_decide_eq_true_2 by (apply Hiff; done).
      * rewrite bool_decide_eq_false_2; [done|]. intros H2. apply H1, Hiff, H2.
Qed.

Lemma captured_opposing g side r c p :
  captured g side r c p -> opposing g side p.
Proof.
  intros (d & _ & m & k & Hk & -> & _ & _ & Hopp). now apply Hopp.
Qed.

Lemma opposing_cell g side p :
  side <> blank -> opposing g side p ->
  cell_at g p.1 p.2 = Some (opponent side).
Proof.
  intros Hs (v & Hv & Hnb & Hns). rewrite Hv. f_equal.
  destruct v, side; done.
Qed.

(** The grid after a capturing placement, cell by cell. *)
Lemma placed_grid_cell g t r c :
  square g -> in_bounds g r c -> t <> blank ->
  forall r' c',
    cell_at (placed_grid g t r c) r' c' =
    if bool_decide (r' = r /\ c' = c) then Some t
    else if bool_decide ((r', c') ∈ spec_capture_set g t r c) then Some t
    else cell_at g r' c'.
Proof.
  intros Hsq Hin Ht r' c'. unfold placed_grid.
  set (S := spec_capture_set g t r c).
  assert (Hall : Forall (fun p : Z * Z => in_bounds g p.1 p.2) (elements S)).
  { apply Forall_forall. intros p Hp. apply elem_of_elements in Hp.
    apply (spec_capture_set_elem g t r c p Hsq Hin) in Hp.
    eapply captured_in_bounds; eauto. }
  rewrite cell_at_grid_set.
  2:{ now apply flip_cells_square. }
  2:{ unfold in_bounds in *. now rewrite flip_cells_len. }
  case_bool_decide as Hrc; [done|].
  rewrite (cell_at_flip_cells _ g Hsq (NoDup_elements S) Hall).
  assert (Hiff : (r', c') ∈ elements S <-> (r', c') ∈ S)
    by apply elem_of_elements.
  case_bool_decide as H1.
  - rewrite bool_decide_eq_true_2 by (apply Hiff; done).
    apply Hiff in H1.
    apply (spec_capture_set_elem g t r c _ Hsq Hin) in H1.
    apply captured_opposing in H1.
    pose proof (opposing_cell g t (r', c') Ht H1) as Hcell. simpl in Hcell.
    rewrite Hcell. simpl. destruct t; done.
  - rewrite bool_decide_eq_false_2; [done|]. intros H2. apply H1, Hiff, H2.
Qed.

(** X3.  On a well-formed board [add_piece] returns, and when the count
    it returns is positive the grid it leaves has the size it had, holds
    the mover's colour on the square played and on every square of the
    capture set, and is unchanged on every other square; the count is the
    size of the capture set. *)
Theorem add_piece_grid_effect (b : Board) (g : Grid) (r c : Z)
    (team : Square) :
  well_formed b g ->
  exists points b',
    add_piece r c team b = Ok (points, b') /\
    (0 < points ->
     exists g',
       well_formed b' g' /\ len g' = len g /\
       points = Z.of_nat (size (spec_capture_set g team r c)) /\
       forall r' c',
         cell_at g' r' c' =
         if bool_decide (r' = r /\ c' = c) then Some team
         else if bool_decide ((r', c') ∈ spec_capture_set g team r c)
         then Some team
         else cell_at g r' c').
Proof.
  intros Hwf. rewrite (add_piece_spec b g r c team Hwf).
  destruct (valid_input g (turn b) r c team && _) eqn:E.
  2:{ exists 0, b. split; [done|lia]. }
  eexists _, _. split; [reflexivity|]. intros Hpos.
  apply andb_true_iff in E as [Hv _].
  apply valid_input_true in Hv as (Hin & Ht & _).
  assert (Hteam : team <> blank).
  { intros ->. rewrite spec_score_blank in Hpos. lia. }
  exists (placed_grid g team r c).
  split; [split; [done|apply placed_grid_square, Hwf]|].
  split.
  { unfold placed_grid. now rewrite grid_set_len, flip_cells_len. }
  split; [reflexivity|].
  apply placed_grid_cell; [apply Hwf|done|done].
Qed.

Lemma add_piece_grid_effect_witness :
  well_formed new_4_board new_4_grid /\
  exists points b',
    add_piece 1 3 white new_4_board = Ok (points, b') /\
    (0 < points ->
     exists g',
       well_formed b' g' /\ len g' = len new_4_grid /\
       points = Z.of_nat (size (spec_capture_set new_4_grid white 1 3)) /\
       forall r' c',
         cell_at g' r' c' =
         if bool_decide (r' = 1 /\ c' = 3) then Some white
         else if bool_decide ((r', c') ∈ spec_capture_set new_4_grid white 1 3)
         then Some white
         else cell_at new_4_grid r' c').
Proof.
  split; [exact new_4_board_well_formed|].
  exact (add_piece_grid_effect new_4_board new_4_grid 1 3 white
                               new_4_board_well_formed).
Defined.

(* ===================================================================== *)
(** ** Counting after a placement                                          *)
(* ===================================================================== *)

Lemma sumZ_holds s (l : list Square) :
  sumZ (holds s) l = Z.of_nat (length (filter (fun v => v = s) l)).
Proof.
  induction l as [|v l IH]; [done|].
  cbn [sumZ foldr]. fold (sumZ (holds s) l). rewrite IH, filter_cons.
  unfold holds. repeat case_decide; try done; simpl; lia.
Qed.

Lemma count_pieces_sumZ g s : count_pieces g s = sumZ (sumZ (holds s)) g.
Proof. unfold count_pieces. now rewrite sumZ_concat, sumZ_holds. Qed.

Lemma sumZ_insert {X} (h : X -> Z) (l : list X) (i : nat) (x y : X) :
  l !! i = Some y -> sumZ h (<[i:=x]> l) = sumZ h l - h y + h x.
Proof.
  revert i. induction l as [|z l IH]; intros i Hi; [done|].
  destruct i as [|i]; simpl in *.
  - inversion Hi; subst. lia.
  - rewrite (IH i Hi). lia.
Qed.

Lemma count_grid_set g r c v old s :
  cell_at g r c = Some old ->
  count_pieces (grid_set g r c v) s = count_pieces g s - holds s old + holds s v.
Proof.
  intros Hcell. unfold cell_at in Hcell.
  destruct (Z.leb_spec 0 r); [|discriminate].
  destruct (Z.leb_spec 0 c); [|discriminate]. simpl in Hcell.
  destruct (g !! Z.to_nat r) as [row|] eqn:Hrow; [|discriminate].
  simpl in Hcell. rewrite !count_pieces_sumZ. unfold grid_set. rewrite Hrow.
  rewrite (sumZ_insert _ g _ _ row Hrow).
  rewrite (sumZ_insert _ row _ _ old Hcell). lia.
Qed.

Lemma squares_left_fold (row : list Square) (a : Z) :
  fold_left (fun remaining c =>
               if decide (c = blank) then remaining + 1 else remaining) row a
  = a + sumZ (holds blank) row.
Proof.
  revert a. induction row as [|v row IH]; intros a; simpl; [lia|].
  rewrite IH. unfold holds. case_decide; lia.
Qed.

Lemma get_squares_left_spec b g :
  board b = Some g -> get_squares_left b = Ok (count_pieces g blank, b).
Proof.
  intros Hb. unfold get_squares_left.
  rewrite (bind_ok _ _ _ _ _ (self_board_ok b g Hb)). unfold ret. do 2 f_equal.
  rewrite count_pieces_sumZ.
  enough (H : forall a,
    fold_left (fun remaining r =>
       fold_left (fun remaining c =>
                    if decide (c = blank) then remaining + 1 else remaining)
                 r remaining) g a
    = a + sumZ (sumZ (holds blank)) g) by (rewrite H; lia).
  induction g as [|row g' IH] in |- *; intros a; simpl; [lia|].
  rewrite IH, squares_left_fold. lia.
Qed.

Lemma num_pieces_spec b g team :
  well_formed b g -> num_pieces team b = Ok (count_pieces g team, b).
Proof.
  intros Hwf. pose proof Hwf as [Hb Hsq]. unfold num_pieces.
  rewrite (bind_ok _ _ _ _ _ (self_board_ok b g Hb)).
  erewrite (for_each_pure (xrange 0 (len g)) _
    (fun a r => a + match g !! Z.to_nat r with
                    | Some row => sumZ (holds team) row
                    | None => 0
                    end)).
  - rewrite (foldl_index_sum (sumZ (holds team)) g 0).
    now rewrite count_pieces_sumZ.
  - intros r a Hr. apply elem_of_xrange in Hr.
    rewrite (bind_ok _ _ _ _ _ (self_board_ok b g Hb)).
    destruct (lookup_lt_is_Some_2 g (Z.to_nat r)) as [row Hrow];
      [unfold len in Hr; lia|].
    rewrite Hrow.
    pose proof (square_lookup g row _ Hsq Hrow) as Hlen.
    erewrite (for_each_pure (xrange 0 (len g)) _
      (fun a c => a + match row !! Z.to_nat c with
                      | Some v => holds team v
                      | None => 0
                      end)).
    + replace (len g) with (len row) by (unfold len; lia).
      now rewrite foldl_index_sum.
    + intros c a' Hc. apply elem_of_xrange in Hc.
      destruct (lookup_lt_is_Some_2 row (Z.to_nat c)) as [v Hv];
        [unfold len in Hc; lia|].
      assert (Hcell : cell_at g r c = Some v).
      { unfold cell_at. zcases. rewrite Hrow. simpl. exact Hv. }
      rewrite (bind_ok _ _ _ _ _ (board_get_cell b g r c v Hb Hcell)).
      rewrite Hv. unfold holds, ret.
      case_bool_decide; case_decide; try done. now rewrite Z.add_0_r.
Qed.

Lemma count_flip_cells t s l :
  t <> blank ->
  forall g, square g -> NoDup l ->
    (forall p, p ∈ l -> cell_at g p.1 p.2 = Some (opponent t)) ->
    count_pieces (flip_cells g l) s
    = count_pieces g s
      + Z.of_nat (length l) * (holds s t - holds s (opponent t)).
Proof.
  intros Ht. induction l as [|p l IH]; intros g Hsq Hnd Hopp.
  - simpl. lia.
  - apply NoDup_cons in Hnd as [Hp Hnd].
    pose proof (Hopp p ltac:(left)) as Hcp.
    cbn [flip_cells foldl]. fold (flip_cells (flip_cell g p) l).
    rewrite IH; [|now apply grid_set_square|done|].
    + unfold flip_cell. rewrite (count_grid_set g _ _ _ (opponent t)) by done.
      rewrite Hcp.
      replace (if bool_decide (Some (opponent t) = Some white)
               then black else white) with t
        by (destruct t; done).
      cbn [length]. lia.
    + intros q Hq. rewrite (flip_cell_cell g p _ _ _ Hsq Hcp).
      rewrite bool_decide_eq_false_2; [apply Hopp; now right|].
      intros [H1 H2]. apply Hp.
      destruct p, q; simpl in *; subst. exact Hq.
Qed.

Lemma count_placed_grid g t r c s :
  square g -> in_bounds g r c -> cell_at g r c = Some blank -> t <> blank ->
  count_pieces (placed_grid g t r c) s
  = count_pieces g s
    + spec_score g t r c * (holds s t - holds s (opponent t))
    + holds s t - holds s blank.
Proof.
  intros Hsq Hin Hcell Ht. unfold placed_grid.
  set (S := spec_capture_set g t r c).
  assert (Hopp : forall p, p ∈ elements S ->
                           cell_at g p.1 p.2 = Some (opponent t)).
  { intros p Hp. apply elem_of_elements in Hp.
    apply (spec_capture_set_elem g t r c p Hsq Hin) in Hp.
    apply opposing_cell; [done|]. now apply captured_opposing in Hp. }
  assert (Hall : Forall (fun p : Z * Z => in_bounds g p.1 p.2) (elements S)).
  { apply Forall_forall. intros p Hp. eapply cell_at_Some; eauto. }
  assert (Hrc : cell_at (flip_cells g (elements S)) r c = Some blank).
  { rewrite (cell_at_flip_cells _ g Hsq (NoDup_elements S) Hall).
    rewrite bool_decide_eq_false_2; [done|]. intros Hp.
    specialize (Hopp _ Hp). simpl in Hopp.
    rewrite Hcell in Hopp. destruct t; done. }
  rewrite (count_grid_set _ r c t blank s Hrc).
  rewrite (count_flip_cells t s (elements S) Ht g Hsq (NoDup_elements S) Hopp).
  unfold spec_score. fold S.
  change (size S) with (length (elements S)). lia.
Qed.

(** X4.  After a successful placement by [team] that returns [points],
    [num_pieces(team)] has grown by [points + 1], [num_pieces] of the
    other colour has shrunk by [points], and [get_squares_left] has
    shrunk by one. *)
Theorem add_piece_counts (b : Board) (g : Grid) (r c : Z) (team : Square) :
  well_formed b g ->
  exists points b' n_team n_other squares_left,
    add_piece r c team b = Ok (points, b') /\
    num_pieces team b = Ok (n_team, b) /\
    num_pieces (opponent team) b = Ok (n_other, b) /\
    get_squares_left b = Ok (squares_left, b) /\
    (0 < points ->
     num_pieces team b' = Ok (n_team + points + 1, b') /\
     num_pieces (opponent team) b' = Ok (n_other - points, b') /\
     get_squares_left b' = Ok (squares_left - 1, b')).
Proof.
  intros Hwf. pose proof Hwf as [Hb Hsq].
  rewrite (add_piece_spec b g r c team Hwf).
  rewrite (num_pieces_spec b g team Hwf),
    (num_pieces_spec b g (opponent team) Hwf), (get_squares_left_spec b g Hb).
  destruct (valid_input g (turn b) r c team && _) eqn:E.
  2:{ exists 0, b. eexists _, _, _. repeat split; lia. }
  eexists _, _, _, _, _. split; [reflexivity|].
  split; [reflexivity|]. split; [reflexivity|]. split; [reflexivity|].
  intros Hpos. apply andb_true_iff in E as [Hv _].
  apply valid_input_true in Hv as (Hin & Ht & Hcell).
  assert (Hteam : team <> blank).
  { intros ->. rewrite spec_score_blank in Hpos. lia. }
  set (g' := placed_grid g team r c).
  assert (Hwf' : forall t', well_formed (mkBoard (Some g') t') g').
  { intros t'. split; [done|]. now apply placed_grid_square. }
  rewrite !(num_pieces_spec _ g' _ (Hwf' _)).
  rewrite (get_squares_left_spec _ g' (proj1 (Hwf' _))).
  unfold g'. rewrite !count_placed_grid by done.
  unfold holds. destruct team; [| |done]; simpl opponent;
    repeat case_decide; try done; repeat split; do 2 f_equal; lia.
Qed.

Lemma add_piece_counts_witness :
  well_formed new_4_board new_4_grid /\
  exists points b' n_team n_other squares_left,
    add_piece 1 3 white new_4_board = Ok (points, b') /\
    num_pieces white new_4_board = Ok (n_team, new_4_board) /\
    num_pieces (opponent white) new_4_board = Ok (n_other, new_4_board) /\
    get_squares_left new_4_board = Ok (squares_left, new_4_board) /\
    (0 < points ->
     num_pieces white b' = Ok (n_team + points + 1, b') /\
     num_pieces (opponent white) b' = Ok (n_other - points, b') /\
     get_squares_left b' = Ok (squares_left - 1, b')).
Proof.
  split; [exact new_4_board_well_formed|].
  exact (add_piece_counts new_4_board new_4_grid 1 3 white
                          new_4_board_well_formed).
Defined.

(* ===================================================================== *)
(** ** Counts on the opening position, and moves made                      *)
(* ===================================================================== *)

Lemma makeboard_opening_grid (size : Z) :
  2 <= size ->
  makeboard size = Ok (mkBoard (Some (opening_grid size)) white).
Proof.
  intros Hsz. unfold makeboard, __init__, opening_grid.
  destruct (Z.eqb_spec size 0) as [E0|E0]; [lia|].
  set (n := Z.to_nat size).
  set (g0 := replicate n (replicate n blank)).
  assert (Hh : 0 <= size / 2 < size)
    by (split; [apply Z.div_pos; lia | apply Z.div_lt; lia]).
  assert (Hh' : 0 <= size / 2 - 1 < size).
  { assert (1 <= size / 2) by (apply Z.div_le_lower_bound; lia). lia. }
  assert (Hl0 : len g0 = size).
  { unfold len, g0. rewrite length_replicate. lia. }
  pose proof (replicate_square n : square g0) as Hs0.
  set (g1 := grid_set g0 (size / 2) (size / 2) white).
  set (g2 := grid_set g1 (size / 2 - 1) (size / 2 - 1) white).
  set (g3 := grid_set g2 (size / 2) (size / 2 - 1) black).
  assert (Hs1 : square g1) by now apply grid_set_square.
  assert (Hs2 : square g2) by now apply grid_set_square.
  assert (Hs3 : square g3) by now apply grid_set_square.
  assert (Hl1 : len g1 = size) by (unfold g1; now rewrite grid_set_len).
  assert (Hl2 : len g2 = size) by (unfold g2; now rewrite grid_set_len).
  assert (Hl3 : len g3 = size) by (unfold g3; now rewrite grid_set_len).
  unfold bind.
  rewrite (board_set_ok _ g0) by (done || (unfold in_bounds; lia)).
  rewrite (board_set_ok _ g1) by (done || (unfold in_bounds; lia)).
  rewrite (board_set_ok _ g2) by (done || (unfold in_bounds; lia)).
  rewrite (board_set_ok _ g3) by (done || (unfold in_bounds; lia)).
  reflexivity.
Qed.

Lemma opening_grid_square size : square (opening_grid size).
Proof. unfold opening_grid. do 4 apply grid_set_square. apply replicate_square. Qed.

Lemma opening_grid_len size : 0 <= size -> len (opening_grid size) = size.
Proof.
  intros H. unfold opening_grid. rewrite !grid_set_len. unfold len.
  rewrite length_replicate. lia.
Qed.

Lemma sumZ_cons {X} (h : X -> Z) (x : X) (l : list X) :
  sumZ h (x :: l) = h x + sumZ h l.
Proof. reflexivity. Qed.

Lemma sumZ_replicate {X} (h : X -> Z) (n : nat) (x : X) :
  sumZ h (replicate n x) = Z.of_nat n * h x.
Proof.
  induction n as [|n IH]; [simpl; lia|].
  cbn [replicate]. rewrite sumZ_cons, IH. lia.
Qed.

Lemma count_pieces_replicate n s :
  count_pieces (replicate n (replicate n blank)) s
  = Z.of_nat n * Z.of_nat n * holds s blank.
Proof. rewrite count_pieces_sumZ, !sumZ_replicate. lia. Qed.

Lemma count_opening_grid size s :
  2 <= size ->
  count_pieces (opening_grid size) s
  = (size * size - 4) * holds s blank + 2 * holds s white + 2 * holds s black.
Proof.
  intros Hsz. unfold opening_grid.
  set (n := Z.to_nat size).
  set (g0 := replicate n (replicate n blank)).
  assert (Hh : 0 <= size / 2 < size)
    by (split; [apply Z.div_pos; lia | apply Z.div_lt; lia]).
  assert (Hh' : 0 <= size / 2 - 1 < size).
  { assert (1 <= size / 2) by (apply Z.div_le_lower_bound; lia). lia. }
  assert (Hl0 : len g0 = size).
  { unfold len, g0. rewrite length_replicate. lia. }
  pose proof (replicate_square n : square g0) as Hs0.
  assert (Hc0 : forall r c, 0 <= r < size -> 0 <= c < size ->
                            cell_at g0 r c = Some blank).
  { intros r c Hr Hc. unfold g0. apply cell_at_replicate; lia. }
  set (g1 := grid_set g0 (size / 2) (size / 2) white).
  set (g2 := grid_set g1 (size / 2 - 1) (size / 2 - 1) white).
  set (g3 := grid_set g2 (size / 2) (size / 2 - 1) black).
  assert (Hs1 : square g1) by now apply grid_set_square.
  assert (Hs2 : square g2) by now apply grid_set_square.
  assert (Hl1 : len g1 = size) by (unfold g1; now rewrite grid_set_len).
  assert (Hl2 : len g2 = size) by (unfold g2; now rewrite grid_set_len).
  rewrite (count_grid_set g3 _ _ _ blank).
  2:{ unfold g3. rewrite (cell_at_grid_set g2) by (done || (unfold in_bounds; lia)).
      rewrite bool_decide_eq_false_2 by lia.
      unfold g2. rewrite (cell_at_grid_set g1) by (done || (unfold in_bounds; lia)).
      rewrite bool_decide_eq_false_2 by lia.
      unfold g1. rewrite (cell_at_grid_set g0) by (done || (unfold in_bounds; lia)).
      rewrite bool_decide_eq_false_2 by lia. now apply Hc0. }
  unfold g3. rewrite (count_grid_set g2 _ _ _ blank).
  2:{ unfold g2. rewrite (cell_at_grid_set g1) by (done || (unfold in_bounds; lia)).
      rewrite bool_decide_eq_false_2 by lia.
      unfold g1. rewrite (cell_at_grid_set g0) by (done || (unfold in_bounds; lia)).
      rewrite bool_decide_eq_false_2 by lia. now apply Hc0. }
  unfold g2. rewrite (count_grid_set g1 _ _ _ blank).
  2:{ unfold g1. rewrite (cell_at_grid_set g0) by (done || (unfold in_bounds; lia)).
      rewrite bool_decide_eq_false_2 by lia. now apply Hc0. }
  unfold g1. rewrite (count_grid_set g0 _ _ _ blank) by now apply Hc0.
  unfold g0. rewrite count_pieces_replicate.
  replace (Z.of_nat n) with size by lia.
  unfold holds. destruct s; repeat case_decide; try done; lia.
Qed.

Lemma get_num_moves_spec b g :
  board b = Some g ->
  get_num_moves b = Ok (len g * len g - 4 - count_pieces g blank, b).
Proof.
  intros Hb. unfold get_num_moves.
  rewrite !(bind_ok _ _ _ _ _ (self_board_ok b g Hb)).
  now rewrite (bind_ok _ _ _ _ _ (get_squares_left_spec b g Hb)).
Qed.

(** X5.  On the board [makeboard] returns for a size of at least 2,
    each colour has two pieces, [size * size - 4] squares are left, and
    no move has been made. *)
Theorem makeboard_counts (size : Z) :
  2 <= size ->
  exists b,
    makeboard size = Ok b /\
    get_size b = Ok (size, b) /\
    num_pieces white b = Ok (2, b) /\
    num_pieces black b = Ok (2, b) /\
    get_squares_left b = Ok (size * size - 4, b) /\
    get_num_moves b = Ok (0, b).
Proof.
  intros Hsz. eexists. split; [now apply makeboard_opening_grid|].
  set (b := mkBoard (Some (opening_grid size)) white).
  assert (Hwf : well_formed b (opening_grid size))
    by (split; [done|apply opening_grid_square]).
  rewrite (get_size_ok b _ (proj1 Hwf)), !(num_pieces_spec b _ _ Hwf),
    (get_squares_left_spec b _ (proj1 Hwf)), (get_num_moves_spec b _ (proj1 Hwf)).
  rewrite !count_opening_grid by done.
  rewrite opening_grid_len by lia.
  unfold holds. repeat case_decide; try done.
  repeat split; do 2 f_equal; lia.
Qed.

Lemma makeboard_counts_witness :
  2 <= 6 /\
  exists b,
    makeboard 6 = Ok b /\
    get_size b = Ok (6, b) /\
    num_pieces white b = Ok (2, b) /\
    num_pieces black b = Ok (2, b) /\
    get_squares_left b = Ok (6 * 6 - 4, b) /\
    get_num_moves b = Ok (0, b).
Proof.
  assert (H : 2 <= 6) by lia.
  split; [exact H|]. exact (makeboard_counts 6 H).
Defined.

(** X6.  [get_num_moves] counts the placements made: a successful
    [add_piece] raises it by one, a rejected one leaves it as it was. *)
Theorem get_num_moves_counts_placements (b : Board) (g : Grid) (r c : Z)
    (team : Square) :
  well_formed b g ->
  exists points b' n,
    add_piece r c team b = Ok (points, b') /\
    get_num_moves b = Ok (n, b) /\
    get_num_moves b' = Ok (if 0 <? points then n + 1 else n, b').
Proof.
  intros Hwf. pose proof Hwf as [Hb Hsq].
  rewrite (add_piece_spec b g r c team Hwf), (get_num_moves_spec b g Hb).
  destruct (valid_input g (turn b) r c team && _) eqn:E.
  2:{ exists 0, b. eexists. split; [done|]. split; [done|].
      now rewrite (get_num_moves_spec b g Hb). }
  eexists _, _, _. split; [reflexivity|]. split; [reflexivity|].
  apply andb_true_iff in E as [Hv Hpos].
  apply valid_input_true in Hv as (Hin & Ht & Hcell).
  rewrite Hpos. apply Z.ltb_lt in Hpos.
  assert (Hteam : team <> blank).
  { intros ->. rewrite spec_score_blank in Hpos. lia. }
  rewrite (get_num_moves_spec
             (mkBoard (Some (placed_grid g team r c))
                      (spec_next_turn (placed_grid g team r c) team))
             (placed_grid g team r c) eq_refl).
  rewrite count_placed_grid by done.
  unfold placed_grid at 1 2. rewrite !grid_set_len, !flip_cells_len.
  unfold holds. destruct team; [| |done]; simpl opponent;
    repeat case_decide; try done; do 2 f_equal; lia.
Qed.

Lemma get_num_moves_counts_placements_witness :
  well_formed new_4_board new_4_grid /\
  exists points b' n,
    add_piece 1 3 white new_4_board = Ok (points, b') /\
    get_num_moves new_4_board = Ok (n, new_4_board) /\
    get_num_moves b' = Ok (if 0 <? points then n + 1 else n, b').
Proof.
  split; [exact new_4_board_well_formed|].
  exact (get_num_moves_counts_placements new_4_board new_4_grid 1 3 white
                                         new_4_board_well_formed).
Defined.

Lemma sumZ_plus {X} (h1 h2 : X -> Z) (l : list X) :
  sumZ (fun x => h1 x + h2 x) l = sumZ h1 l + sumZ h2 l.
Proof.
  induction l as [|x l IH]; [done|]. rewrite !sumZ_cons, IH. lia.
Qed.

Lemma sumZ_ext_in {X} (h1 h2 : X -> Z) (l : list X) :
  (forall x, x ∈ l -> h1 x = h2 x) -> sumZ h1 l = sumZ h2 l.
Proof.
  induction l as [|x l IH]; intros H; [done|].
  rewrite !sumZ_cons, (H x) by left. rewrite IH; [done|].
  intros y Hy. apply H. now right.
Qed.

Lemma sumZ_const {X} (k : Z) (l : list X) :
  sumZ (fun _ => k) l = Z.of_nat (length l) * k.
Proof.
  induction l as [|x l IH]; [simpl; lia|].
  rewrite sumZ_cons, IH. simpl length. lia.
Qed.

Lemma count_pieces_total g :
  square g ->
  count_pieces g white + count_pieces g black + count_pieces g blank
  = len g * len g.
Proof.
  intros Hsq. rewrite !count_pieces_sumZ, <- !sumZ_plus.
  rewrite (sumZ_ext_in _ (fun _ => len g)).
  - now rewrite sumZ_const.
  - intros row Hrow. rewrite <- !sumZ_plus.
    rewrite (sumZ_ext_in _ (fun _ => 1)).
    + apply list_elem_of_lookup in Hrow as [i Hi].
      rewrite sumZ_const. unfold len.
      rewrite (square_lookup g row i Hsq Hi). lia.
    + intros v _. unfold holds. destruct v; repeat case_decide; done.
Qed.

(** X7.  On a well-formed board the pieces of the two colours and the
    squares left add up to the number of squares of the grid. *)
Theorem pieces_and_squares_left_total (b : Board) (g : Grid) :
  well_formed b g ->
  exists n w k e,
    get_size b = Ok (n, b) /\ num_pieces white b = Ok (w, b) /\
    num_pieces black b = Ok (k, b) /\ get_squares_left b = Ok (e, b) /\
    w + k + e = n * n.
Proof.
  intros Hwf. pose proof Hwf as [Hb Hsq].
  eexists _, _, _, _.
  split; [apply (get_size_ok b g Hb)|].
  split; [apply (num_pieces_spec b g white Hwf)|].
  split; [apply (num_pieces_spec b g black Hwf)|].
  split; [apply (get_squares_left_spec b g Hb)|].
  now apply count_pieces_total.
Qed.

Lemma pieces_and_squares_left_total_witness :
  well_formed after_1_3_board after_1_3_grid /\
  exists n w k e,
    get_size after_1_3_board = Ok (n, after_1_3_board) /\
    num_pieces white after_1_3_board = Ok (w, after_1_3_board) /\
    num_pieces black after_1_3_board = Ok (k, after_1_3_board) /\
    get_squares_left after_1_3_board = Ok (e, after_1_3_board) /\
    w + k + e = n * n.
Proof.
  split; [exact after_1_3_board_well_formed|].
  exact (pieces_and_squares_left_total after_1_3_board after_1_3_grid
                                       after_1_3_board_well_formed).
Defined.

(* ===================================================================== *)
(** ** Scores, legality and placement agree                                *)
(* ===================================================================== *)

Lemma spec_score_nonneg g t r c : 0 <= spec_score g t r c.
Proof. unfold spec_score. lia. Qed.

Lemma spec_has_move_blank g : spec_has_move g blank = false.
Proof.
  apply not_true_iff_false. intros H.
  apply spec_has_move_true in H as (r & c & _ & _ & Hpos).
  rewrite spec_score_blank in Hpos. lia.
Qed.

Lemma list_nonempty_elem {X} (l : list X) : l <> [] <-> exists x, x ∈ l.
Proof.
  split.
  - destruct l as [|x l]; [done|]. intros _. exists x. left.
  - intros [x Hx] ->. now apply elem_of_nil in Hx.
Qed.

(** The score the enumeration gives a square: the capture score where
    the placement passes [_validate_input], else 0. *)
Lemma get_moves_elem b g team r c s :
  well_formed b g ->
  (r, c, s) ∈ sorted_reverse move_score
     (scan_moves (fun r c => if valid_input g (turn b) r c team
                             then spec_score g team r c else 0) (len g))
  <-> valid_input g (turn b) r c team = true /\
      s = spec_score g team r c /\ 0 < s.
Proof.
  intros Hwf. rewrite sorted_reverse_perm, elem_of_scan_moves.
  pose proof (spec_score_nonneg g team r c).
  destruct (valid_input g (turn b) r c team) eqn:E.
  - apply valid_input_true in E as ([Hr Hc] & _ & _).
    split; [intros (_ & _ & -> & Hs); repeat split; lia|].
    intros (_ & -> & Hs). repeat split; lia.
  - split; [intros (_ & _ & -> & Hs); done|]. intros (? & _); done.
Qed.

(** X8.  Once the turn is the terminal marker nothing can be played: on
    a well-formed board whose turn is [blank], [add_piece] rejects every
    square for every team and leaves the board as it was, [can_move] is
    false for every team, and [_get_moves] is empty for every team. *)
Theorem terminal_board_is_final (b : Board) (g : Grid) :
  well_formed b g -> turn b = blank ->
  (forall r c team, add_piece r c team b = Ok (0, b)) /\
  (forall team, can_move team b = Ok (false, b)) /\
  (forall team, _get_moves team b = Ok ([], b)).
Proof.
  intros Hwf Ht.
  assert (Hrej : forall r c team,
    valid_input g (turn b) r c team && (0 <? spec_score g team r c) = false).
  { intros r c team. apply not_true_iff_false. intros H.
    apply andb_true_iff in H as [Hv Hpos]. apply Z.ltb_lt in Hpos.
    apply valid_input_true in Hv as (_ & Hteam & _).
    rewrite Ht in Hteam. subst team. rewrite spec_score_blank in Hpos. lia. }
  split; [|split].
  - intros r c team. rewrite (add_piece_spec b g r c team Hwf).
    now rewrite Hrej.
  - intros team. rewrite (can_move_spec b g team Hwf). do 2 f_equal.
    case_bool_decide as Hteam; [|done]. simpl.
    rewrite Ht in Hteam. subst team. apply spec_has_move_blank.
  - intros team. rewrite (_get_moves_spec b g team Hwf). do 2 f_equal.
    match goal with |- ?l = [] => destruct (decide (l = [])) as [|Hne] end;
      [done|exfalso].
    apply list_nonempty_elem in Hne as [[[r c] s] Hm].
    apply (get_moves_elem b g team r c s Hwf) in Hm as (Hv & -> & Hpos).
    specialize (Hrej r c team). rewrite Hv in Hrej. simpl in Hrej.
    apply Z.ltb_ge in Hrej. lia.
Qed.

Lemma terminal_board_is_final_witness :
  well_formed white_win_board white_win_grid /\
  turn white_win_board = blank /\
  (forall r c team, add_piece r c team white_win_board
                    = Ok (0, white_win_board)) /\
  (forall team, can_move team white_win_board = Ok (false, white_win_board)) /\
  (forall team, _get_moves team white_win_board = Ok ([], white_win_board)).
Proof.
  split; [exact white_win_board_well_formed|]. split; [reflexivity|].
  exact (terminal_board_is_final white_win_board white_win_grid
                                 white_win_board_well_formed eq_refl).
Defined.

(** X9.  On a well-formed board, for every square and team,
    [flip_score], [can_flip] and [add_piece] agree: [add_piece] returns
    the very count [flip_score] returns, and [can_flip] is true exactly
    when that count is positive.  [flip_score] and [can_flip] leave the
    board as it was. *)
Theorem flip_score_predicts_add_piece (b : Board) (g : Grid) (r c : Z)
    (team : Square) :
  well_formed b g ->
  exists v b',
    flip_score r c team b = Ok (v, b) /\
    can_flip r c team b = Ok (0 <? v, b) /\
    add_piece r c team b = Ok (v, b') /\
    0 <= v.
Proof.
  intros Hwf.
  rewrite (flip_score_spec b g r c team Hwf), (can_flip_spec b g r c team Hwf),
    (add_piece_spec b g r c team Hwf).
  pose proof (spec_score_nonneg g team r c) as Hnn.
  destruct (valid_input g (turn b) r c team); simpl.
  - destruct (Z.ltb_spec 0 (spec_score g team r c)) as [Hpos|Hz].
    + eexists _, _. repeat split; try reflexivity; [|lia].
      now rewrite (proj2 (Z.ltb_lt _ _) Hpos).
    + exists 0, b. replace (spec_score g team r c) with 0 by lia.
      repeat split; lia.
  - exists 0, b. repeat split; lia.
Qed.

Lemma flip_score_predicts_add_piece_witness :
  well_formed new_4_board new_4_grid /\
  exists v b',
    flip_score 1 3 white new_4_board = Ok (v, new_4_board) /\
    can_flip 1 3 white new_4_board = Ok (0 <? v, new_4_board) /\
    add_piece 1 3 white new_4_board = Ok (v, b') /\
    0 <= v.
Proof.
  split; [exact new_4_board_well_formed|].
  exact (flip_score_predicts_add_piece new_4_board new_4_grid 1 3 white
                                       new_4_board_well_formed).
Defined.

(** X10.  On a well-formed board, [can_move(team)] is true exactly when
    [_get_moves(board, team)] is not empty, and every move of that list
    is accepted by [add_piece], which returns the score listed with it. *)
Theorem get_moves_are_playable (b : Board) (g : Grid) (team : Square) :
  well_formed b g ->
  exists l movable,
    _get_moves team b = Ok (l, b) /\
    can_move team b = Ok (movable, b) /\
    (movable = true <-> l <> []) /\
    forall r c s, (r, c, s) ∈ l ->
      0 < s /\ exists b', add_piece r c team b = Ok (s, b').
Proof.
  intros Hwf. eexists _, _.
  split; [apply (_get_moves_spec b g team Hwf)|].
  split; [apply (can_move_spec b g team Hwf)|]. split.
  - rewrite andb_true_iff, bool_decide_eq_true, spec_has_move_true,
      list_nonempty_elem. split.
    + intros (Ht & r & c & Hin & Hcell & Hpos).
      exists (r, c, spec_score g team r c).
      apply (get_moves_elem b g team _ _ _ Hwf).
      split; [now apply valid_input_true|done].
    + intros [[[r c] s] Hm].
      apply (get_moves_elem b g team _ _ _ Hwf) in Hm as (Hv & -> & Hpos).
      apply valid_input_true in Hv as (Hin & Ht & Hcell).
      split; [done|]. exists r, c. done.
  - intros r c s Hm.
    apply (get_moves_elem b g team _ _ _ Hwf) in Hm as (Hv & -> & Hpos).
    split; [done|]. rewrite (add_piece_spec b g r c team Hwf), Hv.
    rewrite (proj2 (Z.ltb_lt _ _) Hpos). simpl. eauto.
Qed.

Lemma get_moves_are_playable_witness :
  well_formed after_1_3_board after_1_3_grid /\
  exists l movable,
    _get_moves black after_1_3_board = Ok (l, after_1_3_board) /\
    can_move black after_1_3_board = Ok (movable, after_1_3_board) /\
    (movable = true <-> l <> []) /\
    forall r c s, (r, c, s) ∈ l ->
      0 < s /\ exists b', add_piece r c black after_1_3_board = Ok (s, b').
Proof.
  split; [exact after_1_3_board_well_formed|].
  exact (get_moves_are_playable after_1_3_board after_1_3_grid black
                                after_1_3_board_well_formed).
Defined.

(* ===================================================================== *)
(** ** The binary search                                                   *)
(* ===================================================================== *)

Lemma getitem_in_range {A} (l : list A) (i : Z) :
  0 <= i < len l -> exists x, l !! Z.to_nat i = Some x /\ getitem l i = Ok x.
Proof.
  intros Hi. destruct (lookup_lt_is_Some_2 l (Z.to_nat i)) as [x Hx];
    [unfold len in Hi; lia|].
  exists x. split; [done|]. apply getitem_lookup; [lia|done].
Qed.

Lemma midpoint_bounds lo hi : lo < hi -> lo <= (lo + hi) / 2 < hi.
Proof.
  intros H. split.
  - apply Z.div_le_lower_bound; lia.
  - apply Z.div_lt_upper_bound; lia.
Qed.



(** On an ascending list the search returns the insertion point to the
    right of [x]: the entries before it are at most [x], the entries from
    it on are greater. *)
Lemma bisect_loop_sorted (a : list Z) (x : Q) :
  ascending a ->
  forall fuel lo hi,
    0 <= lo <= hi -> hi <= len a -> (Z.to_nat (hi - lo) <= fuel)%nat ->
    (forall i v, Z.of_nat i < lo -> a !! i = Some v -> (inject_Z v <= x)%Q) ->
    (forall i v, hi <= Z.of_nat i -> a !! i = Some v -> (x < inject_Z v)%Q) ->
    exists k,
      bisect_loop fuel a x lo hi = Ok k /\ lo <= k <= hi /\
      (forall i v, Z.of_nat i < k -> a !! i = Some v -> (inject_Z v <= x)%Q) /\
      (forall i v, k <= Z.of_nat i -> a !! i = Some v -> (x < inject_Z v)%Q).
Proof.
  intros Hasc. induction fuel as [|fuel IH]; intros lo hi Hlo Hhi Hf Hbelow Habove.
  - assert (lo = hi) by lia. subst. simpl. rewrite Z.ltb_irrefl.
    exists hi. repeat split; try done; lia.
  - cbn [bisect_loop]. destruct (Z.ltb_spec lo hi) as [Hlt|Hge].
    2:{ exists lo. repeat split; try done; try lia.
        intros i v Hi. apply Habove. lia. }
    pose proof (midpoint_bounds lo hi Hlt) as Hmid.
    set (mid := (lo + hi) / 2) in *.
    destruct (getitem_in_range a mid ltac:(lia)) as (am & Ham & ->).
    destruct (Qle_bool (inject_Z am) x) eqn:Ecmp; simpl negb; cbv iota.
    + apply Qle_bool_iff in Ecmp.
      destruct (IH (mid + 1) hi) as (k & -> & Hk & H1 & H2);
        [lia|lia|lia| |done|].
      * intros i v Hi Hv. apply Qle_trans with (inject_Z am); [|done].
        rewrite <- Zle_Qle.
        apply (Hasc i (Z.to_nat mid) v am); [lia|done|done].
      * exists k. repeat split; try done; lia.
    + assert (Hgt : (x < inject_Z am)%Q).
      { apply Qnot_le_lt. intros H. apply Qle_bool_iff in H. congruence. }
      destruct (IH lo mid) as (k & -> & Hk & H1 & H2);
        [lia|lia|lia|done| |].
      * intros i v Hi Hv. apply Qlt_le_trans with (inject_Z am); [done|].
        rewrite <- Zle_Qle.
        apply (Hasc (Z.to_nat mid) i am v); [lia|done|done].
      * exists k. repeat split; try done; lia.
Qed.


Lemma bisect_sorted (a : list Z) (x : Q) :
  ascending a ->
  exists k,
    bisect a x = Ok k /\ 0 <= k <= len a /\
    (forall i v, Z.of_nat i < k -> a !! i = Some v -> (inject_Z v <= x)%Q) /\
    (forall i v, k <= Z.of_nat i -> a !! i = Some v -> (x < inject_Z v)%Q).
Proof.
  intros Hasc. unfold bisect.
  apply (bisect_loop_sorted a x Hasc); try (unfold len; lia).
  intros i v Hi Hv. exfalso. apply lookup_lt_Some in Hv. unfold len in Hi. lia.
Qed.

(* ===================================================================== *)
(** ** The weighting loop                                                  *)
(* ===================================================================== *)

Lemma xrange_nil lo hi : hi <= lo -> xrange lo hi = [].
Proof. intros H. unfold xrange. now replace (Z.to_nat (hi - lo)) with 0%nat by lia. Qed.

Lemma xrange_cons lo hi : lo < hi -> xrange lo hi = lo :: xrange (lo + 1) hi.
Proof.
  intros H. unfold xrange.
  replace (Z.to_nat (hi - lo)) with (S (Z.to_nat (hi - (lo + 1)))) by lia.
  cbn [seq map]. f_equal; [lia|].
  rewrite <- seq_shift, map_map. apply map_ext. intros k. lia.
Qed.

Lemma len_app {A} (l1 l2 : list A) : len (l1 ++ l2) = len l1 + len l2.
Proof. unfold len. rewrite length_app. lia. Qed.

Lemma weigh_loop_spec w0 w1 w2 :
  forall todo done total cum,
    weigh_loop (xrange (len done) (len done + len todo)) [w0; w1; w2]
               (done ++ todo, total, cum)
    = Ok (done ++ weigh_from w0 w1 w2 (len (done ++ todo)) (len done) todo,
          total + sumZ move_score
                    (weigh_from w0 w1 w2 (len (done ++ todo)) (len done) todo),
          cum ++ running_totals total
                   (weigh_from w0 w1 w2 (len (done ++ todo)) (len done) todo)).
Proof.
  induction todo as [|m todo IH]; intros done total cum.
  - rewrite xrange_nil by (unfold len; simpl; lia). simpl.
    rewrite !app_nil_r. do 3 f_equal. lia.
  - rewrite xrange_cons by (unfold len; simpl; lia).
    cbn [weigh_loop].
    rewrite (getitem_lookup (done ++ m :: todo) (len done) m);
      [|unfold len; lia|].
    2:{ unfold len. rewrite Nat2Z.id. now apply list_lookup_middle. }
    cbn [rbind].
    set (n := len (done ++ m :: todo)).
    assert (Hw : (if len done * 3 <=? n then getitem [w0; w1; w2] 0
                  else if 3 * len done <=? 2 * n then getitem [w0; w1; w2] 1
                  else getitem [w0; w1; w2] 2)
                 = Ok (rank_weight w0 w1 w2 n (len done))).
    { unfold rank_weight.
      destruct (len done * 3 <=? n); [reflexivity|].
      destruct (3 * len done <=? 2 * n); reflexivity. }
    rewrite Hw. cbn [rbind].
    set (m' := set_move_score m (move_score m * rank_weight w0 w1 w2 n (len done))).
    rewrite setitem_insert by (unfold len; rewrite length_app; simpl; lia).
    cbn [rbind].
    assert (Hins : <[Z.to_nat (len done) := m']> (done ++ m :: todo)
                   = (done ++ [m']) ++ todo).
    { unfold len. rewrite Nat2Z.id.
      replace (length done) with (length done + 0)%nat at 1 by lia.
      rewrite insert_app_r. simpl. now rewrite <- app_assoc. }
    rewrite Hins.
    specialize (IH (done ++ [m']) (total + move_score m') (cum ++ [total + move_score m'])).
    assert (Hlen : len (done ++ [m']) = len done + 1)
      by (rewrite len_app; reflexivity).
    assert (Hn : len ((done ++ [m']) ++ todo) = n).
    { unfold n. rewrite !len_app. unfold len. simpl. lia. }
    rewrite Hlen, Hn in IH.
    replace (len done + len (m :: todo)) with (len done + 1 + len todo)
      by (unfold len; simpl; lia).
    rewrite IH. cbn [weigh_from running_totals]. fold m'.
    rewrite sumZ_cons, <- !app_assoc. simpl. do 3 f_equal. lia.
Qed.

Lemma weigh_from_lookup w0 w1 w2 n :
  forall todo i (j : nat),
    weigh_from w0 w1 w2 n i todo !! j
    = (fun m => set_move_score m
                  (move_score m * rank_weight w0 w1 w2 n (i + Z.of_nat j)))
      <$> todo !! j.
Proof.
  induction todo as [|m todo IH]; intros i j; [done|].
  destruct j as [|j]; cbn [weigh_from].
  - simpl. now rewrite Z.add_0_r.
  - replace (i + Z.of_nat (S j)) with (i + 1 + Z.of_nat j) by lia.
    exact (IH (i + 1) j).
Qed.

Lemma weigh_from_length w0 w1 w2 n i todo :
  length (weigh_from w0 w1 w2 n i todo) = length todo.
Proof. revert i. induction todo as [|m todo IH]; intros i; simpl; [done|]. now rewrite IH. Qed.

Lemma running_totals_length total l : length (running_totals total l) = length l.
Proof. revert total. induction l as [|m l IH]; intros total; simpl; [done|]. now rewrite IH. Qed.

Lemma running_totals_lookup :
  forall l total (j : nat),
    running_totals total l !! j
    = (fun _ => total + sumZ move_score (take (S j) l)) <$> l !! j.
Proof.
  induction l as [|m l IH]; intros total j; [done|].
  destruct j as [|j].
  - cbn. f_equal. destruct l; simpl; lia.
  - change (running_totals (total + move_score m) l !! j
            = (fun _ => total + sumZ move_score (take (S (S j)) (m :: l)))
              <$> l !! j).
    rewrite IH. destruct (l !! j); [|done]. simpl fmap. f_equal.
    change (take (S (S j)) (m :: l)) with (m :: take (S j) l).
    rewrite ?sumZ_cons. lia.
Qed.

Lemma sumZ_nonneg {X} (h : X -> Z) (l : list X) :
  (forall x, x ∈ l -> 0 <= h x) -> 0 <= sumZ h l.
Proof.
  induction l as [|x l IH]; intros H; [simpl; lia|].
  rewrite sumZ_cons. pose proof (H x ltac:(left)).
  assert (0 <= sumZ h l) by (apply IH; intros y Hy; apply H; now right). lia.
Qed.

Lemma sumZ_take_mono {X} (h : X -> Z) (l : list X) (i j : nat) :
  (forall x, x ∈ l -> 0 <= h x) -> (i <= j)%nat ->
  sumZ h (take i l) <= sumZ h (take j l).
Proof.
  intros Hnn Hij.
  replace j with (i + (j - i))%nat by lia.
  rewrite <- take_take_drop, sumZ_app.
  assert (0 <= sumZ h (take (j - i) (drop i l))).
  { apply sumZ_nonneg. intros x Hx. apply Hnn.
    apply elem_of_take in Hx as (k & Hk & _).
    rewrite lookup_drop in Hk. eapply list_elem_of_lookup_2; eauto. }
  lia.
Qed.

(* ===================================================================== *)
(** ** [_weight_moves_thirds]                                              *)
(* ===================================================================== *)

Lemma sampler_unfold u l w0 w1 w2 :
  _weight_moves_thirds u l [w0; w1; w2] =
  rbind (bisect (running_totals 0 (weigh_from w0 w1 w2 (len l) 0 l))
                (u * inject_Z (sumZ move_score
                                    (weigh_from w0 w1 w2 (len l) 0 l))))
        (fun our_move =>
           getitem (weigh_from w0 w1 w2 (len l) 0 l)
                   (if our_move =? len l then our_move - 1 else our_move)).
Proof.
  unfold _weight_moves_thirds.
  pose proof (weigh_loop_spec w0 w1 w2 l [] 0 []) as H.
  change (weigh_loop (xrange 0 (len l)) [w0; w1; w2] (l, 0, [])
          = Ok (weigh_from w0 w1 w2 (len l) 0 l,
                sumZ move_score (weigh_from w0 w1 w2 (len l) 0 l),
                running_totals 0 (weigh_from w0 w1 w2 (len l) 0 l))) in H.
  rewrite H. cbn [rbind]. unfold len at 4. now rewrite weigh_from_length.
Qed.

Lemma weighted_lookup w0 w1 w2 l (j : nat) :
  weigh_from w0 w1 w2 (len l) 0 l !! j
  = (fun m => set_move_score m
                (move_score m * rank_weight w0 w1 w2 (len l) (Z.of_nat j)))
    <$> l !! j.
Proof. now rewrite weigh_from_lookup. Qed.




Lemma running_totals_ascending total W :
  (forall m, m ∈ W -> 0 <= move_score m) ->
  ascending (running_totals total W).
Proof.
  intros Hnn i j vi vj Hij Hi Hj.
  rewrite running_totals_lookup in Hi, Hj.
  destruct (W !! i); [|done]. destruct (W !! j); [|done].
  simpl in Hi, Hj. inversion Hi; inversion Hj; subst.
  pose proof (sumZ_take_mono move_score W (S i) (S j) Hnn ltac:(lia)). lia.
Qed.

Lemma rank_weight_cases w0 w1 w2 n i :
  rank_weight w0 w1 w2 n i = w0 \/ rank_weight w0 w1 w2 n i = w1 \/
  rank_weight w0 w1 w2 n i = w2.
Proof. unfold rank_weight. zcases; tauto. Qed.

Lemma weighted_elem w0 w1 w2 l m' :
  m' ∈ weigh_from w0 w1 w2 (len l) 0 l ->
  exists (j : nat) m,
    l !! j = Some m /\
    m' = set_move_score m
           (move_score m * rank_weight w0 w1 w2 (len l) (Z.of_nat j)).
Proof.
  intros H. apply list_elem_of_lookup in H as [j Hj].
  rewrite weighted_lookup in Hj.
  destruct (l !! j) as [m|] eqn:E; [|done]. inversion Hj. eauto.
Qed.

Lemma sumZ_pos {X} (h : X -> Z) (l : list X) x :
  (forall y, y ∈ l -> 0 <= h y) -> x ∈ l -> 0 < h x -> 0 < sumZ h l.
Proof.
  intros Hnn Hx Hpos. apply list_elem_of_split in Hx as (l1 & l2 & ->).
  rewrite sumZ_app, sumZ_cons.
  assert (0 <= sumZ h l1).
  { apply sumZ_nonneg. intros y Hy. apply Hnn, elem_of_app. now left. }
  assert (0 <= sumZ h l2).
  { apply sumZ_nonneg. intros y Hy. apply Hnn, elem_of_app. right. now right. }
  lia.
Qed.

Lemma sumZ_zero {X} (h : X -> Z) (l : list X) :
  (forall y, y ∈ l -> h y = 0) -> sumZ h l = 0.
Proof.
  induction l as [|x l IH]; intros H; [done|].
  rewrite sumZ_cons, (H x) by left. rewrite IH; [done|].
  intros y Hy. apply H. now right.
Qed.

(** The draw [u * total] lies in [[0, total)]. *)
Lemma draw_in_range (u : Q) (total : Z) :
  (0 <= u)%Q -> (u < 1)%Q -> 0 < total ->
  (0 <= u * inject_Z total)%Q /\ (u * inject_Z total < inject_Z total)%Q.
Proof.
  intros H0 H1 Ht.
  assert (HT : (0 < inject_Z total)%Q).
  { change 0%Q with (inject_Z 0). now rewrite <- Zlt_Qlt. }
  split.
  - apply Qmult_le_0_compat; [done|]. now apply Qlt_le_weak.
  - rewrite <- (Qmult_1_l (inject_Z total)) at 2.
    apply Qmult_lt_compat_r; done.
Qed.

(** Inverse-CDF selection: with scores and weights that are not negative
    and a positive total, the move selected has a positive weighted
    score. *)
Lemma sampler_positive u l w0 w1 w2 :
  (forall m, m ∈ l -> 0 <= move_score m) ->
  0 <= w0 -> 0 <= w1 -> 0 <= w2 ->
  (0 <= u)%Q -> (u < 1)%Q ->
  (exists (i : nat) m,
     l !! i = Some m /\
     0 < move_score m * rank_weight w0 w1 w2 (len l) (Z.of_nat i)) ->
  exists k m0,
    0 <= k < len l /\ l !! Z.to_nat k = Some m0 /\
    _weight_moves_thirds u l [w0; w1; w2]
    = Ok (set_move_score m0
            (move_score m0 * rank_weight w0 w1 w2 (len l) k)) /\
    0 < move_score m0 * rank_weight w0 w1 w2 (len l) k.
Proof.
  intros Hs Hw0 Hw1 Hw2 Hu0 Hu1 (i & mi & Hmi & Hposi).
  set (W := weigh_from w0 w1 w2 (len l) 0 l).
  assert (Hne : l <> []) by (intros ->; done).
  assert (HWnn : forall m, m ∈ W -> 0 <= move_score m).
  { intros m' Hm'. apply weighted_elem in Hm' as (j & m & Hj & ->).
    unfold set_move_score, move_score. simpl.
    pose proof (Hs m (list_elem_of_lookup_2 _ _ _ Hj)) as Hm.
    unfold move_score in Hm.
    destruct (rank_weight_cases w0 w1 w2 (len l) (Z.of_nat j)) as [-> | [-> | ->]];
      nia. }
  assert (Htotal : 0 < sumZ move_score W).
  { apply (sumZ_pos move_score W
             (set_move_score mi (move_score mi
                * rank_weight w0 w1 w2 (len l) (Z.of_nat i)))); [done| |done].
    apply (list_elem_of_lookup_2 _ i). unfold W.
    now rewrite weighted_lookup, Hmi. }
  destruct (draw_in_range u _ Hu0 Hu1 Htotal) as [Hx0 Hx1].
  rewrite sampler_unfold. fold W.
  set (x := (u * inject_Z (sumZ move_score W))%Q) in *.
  destruct (bisect_sorted (running_totals 0 W) x
              (running_totals_ascending 0 W HWnn))
    as (k0 & -> & Hk0 & Hbelow & Habove).
  unfold len in Hk0 at 1. unfold W in Hk0 at 1.
  rewrite running_totals_length, weigh_from_length in Hk0. fold (len l) in Hk0.
  assert (Hlen : length W = length l) by apply weigh_from_length.
  assert (Hpos : 0 < len l) by (destruct l; [done|unfold len; simpl; lia]).
  (* the insertion point is inside the list *)
  assert (Hk0lt : k0 < len l).
  { destruct (Z.eq_dec k0 (len l)) as [Heq|]; [|lia]. exfalso.
    destruct (lookup_lt_is_Some_2 W (length l - 1)) as [ml Hml];
      [unfold len in *; lia|].
    assert (Hlast : running_totals 0 W !! (length l - 1)%nat
                    = Some (sumZ move_score W)).
    { rewrite running_totals_lookup, Hml. simpl. f_equal.
      rewrite take_ge by (unfold len in *; lia). lia. }
    pose proof (Hbelow (length l - 1)%nat _
                       ltac:(unfold len in *; lia) Hlast) as Hle.
    apply (Qlt_not_le _ _ Hx1 Hle). }
  cbn [rbind]. destruct (Z.eqb_spec k0 (len l)) as [|_]; [lia|].
  destruct (lookup_lt_is_Some_2 l (Z.to_nat k0)) as [m0 Hm0];
    [unfold len in Hk0lt; lia|].
  assert (HW0 : W !! Z.to_nat k0
                = Some (set_move_score m0
                          (move_score m0 * rank_weight w0 w1 w2 (len l) k0))).
  { unfold W. rewrite weighted_lookup, Hm0. simpl. now rewrite Z2Nat.id by lia. }
  exists k0, m0. split; [lia|]. split; [done|].
  split; [apply getitem_lookup; [lia|done]|].
  (* the running total steps over the draw at [k0] *)
  set (s := move_score m0 * rank_weight w0 w1 w2 (len l) k0) in *.
  set (P := sumZ move_score (take (Z.to_nat k0) W)).
  assert (Hcum : running_totals 0 W !! Z.to_nat k0 = Some (P + s)).
  { rewrite running_totals_lookup, HW0. simpl. f_equal.
    rewrite (take_S_r _ _ _ HW0), sumZ_app. unfold P. simpl. lia. }
  pose proof (Habove (Z.to_nat k0) _ ltac:(lia) Hcum) as Hgt.
  assert (Hle : (inject_Z P <= x)%Q).
  { destruct (Z.to_nat k0) as [|j] eqn:Ej.
    - exact Hx0.
    - destruct (lookup_lt_is_Some_2 W j) as [mj Hmj];
        [unfold len in *; lia|].
      assert (Hprev : running_totals 0 W !! j = Some P).
      { rewrite running_totals_lookup, Hmj. reflexivity. }
      apply (Hbelow j _ ltac:(lia) Hprev). }
  pose proof (Qle_lt_trans _ _ _ Hle Hgt) as Hlt.
  rewrite <- Zlt_Qlt in Hlt. lia.
Qed.

(** When every weighted score is zero the sampler returns the last move,
    whatever the number drawn. *)
Lemma sampler_zero_total u l w0 w1 w2 :
  l <> [] ->
  (forall (i : nat) m, l !! i = Some m ->
     move_score m * rank_weight w0 w1 w2 (len l) (Z.of_nat i) = 0) ->
  exists m0,
    l !! (length l - 1)%nat = Some m0 /\
    _weight_moves_thirds u l [w0; w1; w2] = Ok (set_move_score m0 0).
Proof.
  intros Hne Hzero.
  set (W := weigh_from w0 w1 w2 (len l) 0 l).
  assert (HW0 : forall m, m ∈ W -> move_score m = 0).
  { intros m' Hm'. apply weighted_elem in Hm' as (j & m & Hj & ->).
    unfold set_move_score, move_score. simpl. apply (Hzero j m Hj). }
  assert (HWnn : forall m, m ∈ W -> 0 <= move_score m)
    by (intros m Hm; rewrite (HW0 m Hm); lia).
  assert (Hlen : length W = length l) by apply weigh_from_length.
  assert (Hpos : 0 < len l) by (destruct l; [done|unfold len; simpl; lia]).
  rewrite sampler_unfold. fold W.
  rewrite (sumZ_zero move_score W HW0).
  destruct (bisect_sorted (running_totals 0 W) (u * inject_Z 0)
              (running_totals_ascending 0 W HWnn))
    as (k0 & -> & Hk0 & Hbelow & Habove).
  unfold len in Hk0 at 1. unfold W in Hk0 at 1.
  rewrite running_totals_length, weigh_from_length in Hk0. fold (len l) in Hk0.
  assert (Hk0eq : k0 = len l).
  { destruct (Z.eq_dec k0 (len l)) as [|Hneq]; [done|]. exfalso.
    destruct (lookup_lt_is_Some_2 W (Z.to_nat k0)) as [mk Hmk];
      [unfold len in *; lia|].
    assert (Hcum : running_totals 0 W !! Z.to_nat k0 = Some 0).
    { rewrite running_totals_lookup, Hmk. simpl. f_equal.
      rewrite sumZ_zero; [lia|]. intros y Hy. apply HW0.
      apply elem_of_take in Hy as (j & Hj & _).
      eapply list_elem_of_lookup_2; eauto. }
    pose proof (Habove (Z.to_nat k0) _ ltac:(lia) Hcum) as Hgt.
    rewrite Qmult_0_r in Hgt. now apply Qlt_irrefl in Hgt. }
  cbn [rbind]. subst k0. rewrite Z.eqb_refl.
  destruct (lookup_lt_is_Some_2 l (length l - 1)) as [m0 Hm0];
    [unfold len in *; lia|].
  exists m0. split; [done|].
  apply getitem_lookup; [lia|].
  replace (Z.to_nat (len l - 1)) with (length l - 1)%nat by (unfold len; lia).
  unfold W. rewrite weighted_lookup, Hm0. simpl. f_equal. f_equal.
  apply (Hzero _ _ Hm0).
Qed.



(** X13.  When every weighted score is zero, so that the total weight is
    zero, [_weight_moves_thirds] returns the last move of the list,
    whatever the number drawn. *)
Theorem weight_moves_thirds_zero_total (u : Q) (l : list Move)
    (w0 w1 w2 : Z) :
  l <> [] ->
  (forall (i : nat) m, l !! i = Some m ->
     move_score m * rank_weight w0 w1 w2 (len l) (Z.of_nat i) = 0) ->
  exists m0,
    l !! (length l - 1)%nat = Some m0 /\
    _weight_moves_thirds u l [w0; w1; w2] = Ok (move_r m0, move_c m0, 0).
Proof.
  intros Hne Hz.
  destruct (sampler_zero_total u l w0 w1 w2 Hne Hz) as (m0 & Hm0 & Hres).
  exists m0. split; [done|]. rewrite Hres. now destruct m0 as [[r c] s].
Qed.

Lemma weight_moves_thirds_zero_total_witness :
  [(0, 1, 0); (0, 3, 0); (2, 3, 0)] <> [] /\
  (forall (i : nat) m, [(0, 1, 0); (0, 3, 0); (2, 3, 0)] !! i = Some m ->
     move_score m * rank_weight 2 3 4 (len [(0, 1, 0); (0, 3, 0); (2, 3, 0)])
                                (Z.of_nat i) = 0) /\
  exists m0,
    [(0, 1, 0); (0, 3, 0); (2, 3, 0)]
      !! (length [(0, 1, 0); (0, 3, 0); (2, 3, 0)] - 1)%nat = Some m0 /\
    _weight_moves_thirds (1 # 3) [(0, 1, 0); (0, 3, 0); (2, 3, 0)] [2; 3; 4]
    = Ok (move_r m0, move_c m0, 0).
Proof.
  assert (Hne : [(0, 1, 0); (0, 3, 0); (2, 3, 0)] <> []) by discriminate.
  assert (Hz : forall (i : nat) m,
     [(0, 1, 0); (0, 3, 0); (2, 3, 0)] !! i = Some m ->
     move_score m * rank_weight 2 3 4 (len [(0, 1, 0); (0, 3, 0); (2, 3, 0)])
                                (Z.of_nat i) = 0).
  { intros i m Hm. apply list_elem_of_lookup_2 in Hm.
    rewrite !elem_of_cons, elem_of_nil in Hm.
    destruct Hm as [-> | [-> | [-> | []]]]; reflexivity. }
  split; [exact Hne|]. split; [exact Hz|].
  exact (weight_moves_thirds_zero_total (1 # 3)
           [(0, 1, 0); (0, 3, 0); (2, 3, 0)] 2 3 4 Hne Hz).
Defined.

(* ===================================================================== *)
(** ** The strategies return playable moves                                *)
(* ===================================================================== *)

Lemma _get_moves_listed b g team :
  well_formed b g ->
  _get_moves team b = Ok (listed_moves g (turn b) team, b).
Proof. apply _get_moves_spec. Qed.

Lemma listed_move_accepted b g team r c s :
  well_formed b g -> (r, c, s) ∈ listed_moves g (turn b) team ->
  0 < s /\ exists b', add_piece r c team b = Ok (s, b').
Proof.
  intros Hwf Hm.
  apply (get_moves_elem b g team _ _ _ Hwf) in Hm as (Hv & -> & Hpos).
  split; [done|]. rewrite (add_piece_spec b g r c team Hwf), Hv.
  rewrite (proj2 (Z.ltb_lt _ _) Hpos). simpl. eauto.
Qed.

Lemma listed_moves_sorted g t team :
  StronglySorted move_order (listed_moves g t team).
Proof. apply sorted_reverse_sorted, scan_moves_row_major. Qed.

Lemma sorted_head_max (l : list Move) m0 :
  StronglySorted move_order l -> l !! 0%nat = Some m0 ->
  forall m, m ∈ l -> move_score m <= move_score m0.
Proof.
  intros Hs H0 m Hm. destruct l as [|x l]; [done|].
  inversion H0; subst x. apply StronglySorted_cons in Hs as [Hall _].
  apply elem_of_cons in Hm as [->|Hm]; [lia|].
  rewrite Forall_forall in Hall. specialize (Hall m Hm).
  unfold move_order, sorted_order in Hall. lia.
Qed.

Lemma randrange_in_range (u : Q) (n : Z) :
  (0 <= u)%Q -> (u < 1)%Q -> 0 < n ->
  exists k, randrange u 0 n = Ok k /\ 0 <= k < n.
Proof.
  intros Hu0 Hu1 Hn. unfold randrange. rewrite Z.sub_0_r.
  destruct (Z.ltb_spec 0 n); [|lia].
  destruct (draw_in_range u n Hu0 Hu1 Hn) as [Hx0 Hx1].
  eexists. split; [reflexivity|]. split.
  - apply Qfloor_resp_le in Hx0. change (Qfloor 0) with 0 in Hx0. lia.
  - pose proof (Qfloor_le (u * inject_Z n)) as Hfl.
    pose proof (Qle_lt_trans _ _ _ Hfl Hx1) as Hlt.
    rewrite <- Zlt_Qlt in Hlt. lia.
Qed.

(** X14.  On a well-formed board and for a number drawn in [[0, 1)],
    [weak_move] returns one of the moves [_get_moves] lists for black
    when that list is not empty, a move [add_piece] then accepts for
    black with the score listed; on an empty list it raises
    [ValueError].  The board is left as it was. *)
Theorem weak_move_returns_listed (b : Board) (g : Grid) (u : Q) :
  well_formed b g -> (0 <= u)%Q -> (u < 1)%Q ->
  exists l,
    _get_moves black b = Ok (l, b) /\
    (l <> [] ->
     exists r c s,
       (r, c, s) ∈ l /\ weak_move u b = Ok ((r, c, s), b) /\
       exists b', add_piece r c black b = Ok (s, b')) /\
    (l = [] -> weak_move u b = Raise ValueError).
Proof.
  intros Hwf Hu0 Hu1. exists (listed_moves g (turn b) black).
  pose proof (_get_moves_listed b g black Hwf) as Hm.
  split; [done|]. unfold weak_move. rewrite (bind_ok _ _ _ _ _ Hm). split.
  - intros Hne.
    assert (Hpos : 0 < len (listed_moves g (turn b) black)).
    { destruct (listed_moves g (turn b) black); [done|unfold len; simpl; lia]. }
    destruct (randrange_in_range u _ Hu0 Hu1 Hpos) as (k & Hk & Hrange).
    unfold bind at 1, lift at 1. rewrite Hk.
    destruct (getitem_in_range (listed_moves g (turn b) black) k Hrange)
      as ([[r c] s] & Hlk & Hget).
    exists r, c, s. apply list_elem_of_lookup_2 in Hlk.
    split; [done|]. split; [unfold lift; now rewrite Hget|].
    apply (listed_move_accepted b g black r c s Hwf Hlk).
  - intros ->. reflexivity.
Qed.

Lemma weak_move_returns_listed_witness :
  well_formed after_1_3_board after_1_3_grid /\
  (0 <= 1 # 2)%Q /\ (1 # 2 < 1)%Q /\
  exists l,
    _get_moves black after_1_3_board = Ok (l, after_1_3_board) /\
    (l <> [] ->
     exists r c s,
       (r, c, s) ∈ l /\
       weak_move (1 # 2) after_1_3_board = Ok ((r, c, s), after_1_3_board) /\
       exists b', add_piece r c black after_1_3_board = Ok (s, b')) /\
    (l = [] -> weak_move (1 # 2) after_1_3_board = Raise ValueError).
Proof.
  assert (Hu0 : (0 <= 1 # 2)%Q) by (vm_compute; congruence).
  assert (Hu1 : (1 # 2 < 1)%Q) by reflexivity.
  split; [exact after_1_3_board_well_formed|].
  split; [exact Hu0|]. split; [exact Hu1|].
  exact (weak_move_returns_listed after_1_3_board after_1_3_grid (1 # 2)
           after_1_3_board_well_formed Hu0 Hu1).
Defined.

(** X15.  On a well-formed board where black has a move, and for a
    number drawn in [[0, 1)], [moderate_move] returns the square of a
    listed move of rank [k] with [3 k <= 2 n], [n] being the number of
    moves listed: the ranks weighted by 0 are never returned.  The third
    component of what it returns is the listed score times 5 or 2, not
    the score itself; [add_piece] accepts the square for black.  The
    board is left as it was. *)
Theorem moderate_move_rank_bound (b : Board) (g : Grid) (u : Q) :
  well_formed b g -> (0 <= u)%Q -> (u < 1)%Q ->
  exists l,
    _get_moves black b = Ok (l, b) /\
    (l <> [] ->
     exists k r c s,
       0 <= k < len l /\ l !! Z.to_nat k = Some (r, c, s) /\
       3 * k <= 2 * len l /\
       moderate_move u b
       = Ok ((r, c, s * (if k * 3 <=? len l then 5 else 2)), b) /\
       exists b', add_piece r c black b = Ok (s, b')).
Proof.
  intros Hwf Hu0 Hu1. set (l := listed_moves g (turn b) black).
  exists l. pose proof (_get_moves_listed b g black Hwf) as Hm.
  split; [done|]. intros Hne.
  unfold moderate_move. rewrite (bind_ok _ _ _ _ _ Hm). fold l. cbv zeta.
  assert (Hs : forall m, m ∈ l -> 0 < move_score m).
  { intros [[r c] s] Hin.
    now apply (listed_move_accepted b g black r c s Hwf) in Hin as [? _]. }
  assert (Hex : exists (i : nat) m,
    l !! i = Some m /\ 0 < move_score m * rank_weight 5 2 0 (len l) (Z.of_nat i)).
  { destruct l as [|m0 l'] eqn:El; [done|]. exists 0%nat, m0.
    split; [done|]. unfold rank_weight. change (Z.of_nat 0) with 0.
    destruct (Z.leb_spec (0 * 3) (len (m0 :: l'))) as [|Hlt];
      [|unfold len in Hlt; simpl in Hlt; lia].
    specialize (Hs m0 ltac:(left)). lia. }
  destruct (sampler_positive u l 5 2 0) as (k & [[r c] s] & Hk & Hlk & Hres & Hpos);
    [intros m Hin; specialize (Hs m Hin); lia|lia|lia|lia|done|done|done|].
  exists k, r, c, s. split; [done|]. split; [done|].
  unfold rank_weight in Hpos, Hres. unfold move_score in Hpos. simpl in Hpos.
  destruct (Z.leb_spec (k * 3) (len l)) as [H3|H3].
  - split; [lia|]. split; [unfold lift; now rewrite Hres|].
    apply list_elem_of_lookup_2 in Hlk.
    apply (listed_move_accepted b g black r c s Hwf Hlk).
  - destruct (Z.leb_spec (3 * k) (2 * len l)) as [H2|H2]; [|lia].
    split; [lia|]. split; [unfold lift; now rewrite Hres|].
    apply list_elem_of_lookup_2 in Hlk.
    apply (listed_move_accepted b g black r c s Hwf Hlk).
Qed.

Lemma moderate_move_rank_bound_witness :
  well_formed after_1_3_board after_1_3_grid /\
  (0 <= 9 # 10)%Q /\ (9 # 10 < 1)%Q /\
  exists l,
    _get_moves black after_1_3_board = Ok (l, after_1_3_board) /\
    (l <> [] ->
     exists k r c s,
       0 <= k < len l /\ l !! Z.to_nat k = Some (r, c, s) /\
       3 * k <= 2 * len l /\
       moderate_move (9 # 10) after_1_3_board
       = Ok ((r, c, s * (if k * 3 <=? len l then 5 else 2)),
             after_1_3_board) /\
       exists b', add_piece r c black after_1_3_board = Ok (s, b')).
Proof.
  assert (Hu0 : (0 <= 9 # 10)%Q) by (vm_compute; congruence).
  assert (Hu1 : (9 # 10 < 1)%Q) by reflexivity.
  split; [exact after_1_3_board_well_formed|].
  split; [exact Hu0|]. split; [exact Hu1|].
  exact (moderate_move_rank_bound after_1_3_board after_1_3_grid (9 # 10)
           after_1_3_board_well_formed Hu0 Hu1).
Defined.

Lemma invert_scores_spec large :
  forall todo done,
    invert_scores large (done ++ todo)
                  (xrange (len done) (len done + len todo))
    = Ok (done ++ map (inverted large) todo).
Proof.
  unfold invert_scores.
  induction todo as [|m todo IH]; intros done.
  - rewrite xrange_nil by (unfold len; simpl; lia). reflexivity.
  - rewrite xrange_cons by (unfold len; simpl; lia).
    cbn [foldl rbind].
    rewrite (getitem_lookup (done ++ m :: todo) (len done) m);
      [|unfold len; lia|].
    2:{ unfold len. rewrite Nat2Z.id. now apply list_lookup_middle. }
    cbn [rbind].
    rewrite setitem_insert by (unfold len; rewrite length_app; simpl; lia).
    assert (Hins : <[Z.to_nat (len done) := inverted large m]> (done ++ m :: todo)
                   = (done ++ [inverted large m]) ++ todo).
    { unfold len. rewrite Nat2Z.id.
      replace (length done) with (length done + 0)%nat at 1 by lia.
      rewrite insert_app_r. simpl. now rewrite <- app_assoc. }
    fold (inverted large m). rewrite Hins.
    specialize (IH (done ++ [inverted large m])).
    assert (Hlen : len (done ++ [inverted large m]) = len done + 1)
      by (rewrite len_app; reflexivity).
    rewrite Hlen in IH.
    replace (len done + len (m :: todo)) with (len done + 1 + len todo)
      by (unfold len; simpl; lia).
    rewrite IH. cbn [map]. now rewrite <- app_assoc.
Qed.

Lemma invert_scores_all large l :
  invert_scores large l (xrange 0 (len l)) = Ok (map (inverted large) l).
Proof. exact (invert_scores_spec large l []). Qed.

Lemma novice_move_unfold u b g m0 :
  well_formed b g ->
  listed_moves g (turn b) black !! 0%nat = Some m0 ->
  novice_move u b
  = match _weight_moves_thirds u
            (map (inverted (move_score m0)) (listed_moves g (turn b) black))
            [2; 3; 4] with
    | Ok m => Ok (m, b)
    | Raise e => Raise e
    | OutOfFuel => OutOfFuel
    end.
Proof.
  intros Hwf H0. unfold novice_move.
  rewrite (bind_ok _ _ _ _ _ (_get_moves_listed b g black Hwf)).
  set (l := listed_moves g (turn b) black) in *.
  unfold bind at 1, lift at 1.
  rewrite (getitem_lookup l 0 m0) by (try lia; exact H0).
  cbv zeta. unfold bind at 1, lift at 1.
  fold (invert_scores (move_score m0) l (xrange 0 (len l))).
  rewrite invert_scores_all. reflexivity.
Qed.

(** X16.  On a well-formed board where black has a move, and for a
    number drawn in [[0, 1)], [novice_move] returns the square of a
    listed move of rank [k]; [add_piece] accepts it for black with the
    listed score [s].  With [large] the highest listed score, the third
    component of what is returned is [(large - s)] times the weight of
    the rank (2, 3 or 4), not the score.  When some listed move scores
    less than [large], the chosen move does too: a top-scoring move is
    never chosen.  When all listed moves score the same, the choice is
    the last move of the list whatever the draw.  The board is left as it
    was. *)
Theorem novice_move_avoids_top_score (b : Board) (g : Grid) (u : Q) :
  well_formed b g -> (0 <= u)%Q -> (u < 1)%Q ->
  exists l,
    _get_moves black b = Ok (l, b) /\
    (l <> [] ->
     exists m0 k r c s,
       l !! 0%nat = Some m0 /\
       0 <= k < len l /\ l !! Z.to_nat k = Some (r, c, s) /\
       novice_move u b
       = Ok ((r, c, (move_score m0 - s) * rank_weight 2 3 4 (len l) k), b) /\
       (exists b', add_piece r c black b = Ok (s, b')) /\
       ((exists m, m ∈ l /\ move_score m < move_score m0) ->
        s < move_score m0) /\
       ((forall m, m ∈ l -> move_score m = move_score m0) ->
        k = len l - 1)).
Proof.
  intros Hwf Hu0 Hu1. set (l := listed_moves g (turn b) black).
  exists l. split; [exact (_get_moves_listed b g black Hwf)|]. intros Hne.
  destruct l as [|m0 l0] eqn:El; [done|]. rewrite <- El in *.
  assert (H0 : l !! 0%nat = Some m0) by now rewrite El.
  set (large := move_score m0).
  assert (Hmax : forall m, m ∈ l -> move_score m <= large).
  { apply sorted_head_max; [apply listed_moves_sorted|done]. }
  assert (Hacc : forall k r c s, l !! k = Some (r, c, s) ->
            exists b', add_piece r c black b = Ok (s, b')).
  { intros k r c s Hlk. apply list_elem_of_lookup_2 in Hlk.
    now apply (listed_move_accepted b g black r c s Hwf) in Hlk as [_ ?]. }
  set (l' := map (inverted large) l).
  assert (Hlen : len l' = len l) by (unfold l', len; now rewrite length_map).
  pose proof (novice_move_unfold u b g m0 Hwf H0) as Hun.
  fold l large l' in Hun.
  exists m0.
  destruct (decide (Forall (fun m => move_score m = large) l)) as [Hall|Hnot].
  - rewrite Forall_forall in Hall.
    destruct (sampler_zero_total u l' 2 3 4) as (m' & Hlast & Hres).
    { unfold l'. rewrite El. done. }
    { intros i m Hi. unfold l' in Hi. rewrite list_lookup_fmap in Hi.
      destruct (l !! i) as [mi|] eqn:Ei; [|done]. inversion Hi; subst m.
      apply list_elem_of_lookup_2 in Ei. specialize (Hall mi Ei).
      unfold inverted, set_move_score, move_score in *. simpl. lia. }
    unfold l' in Hlast. rewrite list_lookup_fmap, length_map in Hlast.
    destruct (l !! (length l - 1)%nat) as [[[r c] s]|] eqn:Ek; [|done].
    inversion Hlast; subst m'.
    assert (Hs : s = large).
    { apply list_elem_of_lookup_2 in Ek. exact (Hall _ Ek). }
    assert (Hl : (0 < length l)%nat) by (rewrite El; simpl; lia).
    exists (len l - 1), r, c, s. split; [done|].
    split; [unfold len; lia|].
    replace (Z.to_nat (len l - 1)) with (length l - 1)%nat by (unfold len; lia).
    split; [done|]. split.
    { rewrite Hun, Hres. unfold inverted, set_move_score. simpl.
      subst s. unfold large. now rewrite Z.sub_diag. }
    split; [exact (Hacc _ _ _ _ Ek)|]. split; [|done].
    intros (m & Hm & Hlt). specialize (Hall m Hm). lia.
  - apply not_Forall_Exists in Hnot; [|apply _].
    apply Exists_exists in Hnot as (mx & Hmx & Hneq). cbn in Hneq.
    assert (Hlow : move_score mx < large)
      by (specialize (Hmax mx Hmx); lia).
    apply list_elem_of_lookup_1 in Hmx as [ix Hix].
    destruct (sampler_positive u l' 2 3 4)
      as (k & m' & Hk & Hlk & Hres & Hpos); [|lia|lia|lia|done|done|..].
    { intros m Hm. unfold l' in Hm. apply list_elem_of_fmap in Hm as (m1 & -> & Hm1).
      specialize (Hmax m1 Hm1).
      unfold inverted, set_move_score, move_score in *. simpl. lia. }
    { exists ix, (inverted large mx). split.
      - unfold l'. now rewrite list_lookup_fmap, Hix.
      - destruct (rank_weight_cases 2 3 4 (len l') (Z.of_nat ix))
          as [-> | [-> | ->]];
          unfold inverted, set_move_score, move_score in *; simpl; lia. }
    unfold l' in Hlk. rewrite list_lookup_fmap in Hlk.
    destruct (l !! Z.to_nat k) as [[[r c] s]|] eqn:Ek; [|done].
    inversion Hlk; subst m'. rewrite Hlen in *.
    exists k, r, c, s. split; [done|]. split; [done|]. split; [done|].
    split; [now rewrite Hun, Hres|].
    split; [exact (Hacc _ _ _ _ Ek)|].
    assert (Hs : s < large).
    { unfold inverted, set_move_score, move_score in Hpos. simpl in Hpos.
      destruct (rank_weight_cases 2 3 4 (len l) k) as [Hw | [Hw | Hw]];
        rewrite Hw in Hpos; unfold large, move_score in *; lia. }
    split; [done|]. intros Hall. apply list_elem_of_lookup_2 in Hix.
    specialize (Hall mx Hix). unfold large in Hlow. lia.
Qed.

Lemma novice_move_avoids_top_score_witness :
  well_formed after_1_3_board after_1_3_grid /\
  (0 <= 1 # 3)%Q /\ (1 # 3 < 1)%Q /\
  exists l,
    _get_moves black after_1_3_board = Ok (l, after_1_3_board) /\
    (l <> [] ->
     exists m0 k r c s,
       l !! 0%nat = Some m0 /\
       0 <= k < len l /\ l !! Z.to_nat k = Some (r, c, s) /\
       novice_move (1 # 3) after_1_3_board
       = Ok ((r, c, (move_score m0 - s) * rank_weight 2 3 4 (len l) k),
             after_1_3_board) /\
       (exists b', add_piece r c black after_1_3_board = Ok (s, b')) /\
       ((exists m, m ∈ l /\ move_score m < move_score m0) ->
        s < move_score m0) /\
       ((forall m, m ∈ l -> move_score m = move_score m0) ->
        k = len l - 1)).
Proof.
  assert (Hu0 : (0 <= 1 # 3)%Q) by (vm_compute; congruence).
  assert (Hu1 : (1 # 3 < 1)%Q) by reflexivity.
  split; [exact after_1_3_board_well_formed|].
  split; [exact Hu0|]. split; [exact Hu1|].
  exact (novice_move_avoids_top_score after_1_3_board after_1_3_grid (1 # 3)
           after_1_3_board_well_formed Hu0 Hu1).
Defined.

(* ===================================================================== *)
(** ** The search of [strong_move] returns, with a playable move           *)
(* ===================================================================== *)

Lemma count_blank_bound g :
  0 <= count_pieces g blank <= Z.of_nat (length (concat g)).
Proof.
  unfold count_pieces.
  pose proof (length_filter (fun v => v = blank) (concat g)). lia.
Qed.

Lemma listed_moves_nonempty b g :
  well_formed b g -> spec_has_move g (turn b) = true ->
  listed_moves g (turn b) (turn b) <> [].
Proof.
  intros Hwf Hmv. apply spec_has_move_true in Hmv as (r & c & Hin & Hcell & Hpos).
  apply list_nonempty_elem. exists (r, c, spec_score g (turn b) r c).
  apply (get_moves_elem b g (turn b) _ _ _ Hwf).
  split; [now apply valid_input_true|done].
Qed.

Lemma add_piece_listed b g team r c s :
  well_formed b g -> team <> blank ->
  (r, c, s) ∈ listed_moves g (turn b) team ->
  exists b' g',
    add_piece r c team b = Ok (s, b') /\
    well_formed b' g' /\ turn_consistent b' g' /\
    count_pieces g' blank = count_pieces g blank - 1.
Proof.
  intros Hwf Hteam Hm. pose proof Hwf as [Hb Hsq].
  apply (get_moves_elem b g team _ _ _ Hwf) in Hm as (Hv & -> & Hpos).
  exists (mkBoard (Some (placed_grid g team r c))
                  (spec_next_turn (placed_grid g team r c) team)),
         (placed_grid g team r c).
  split.
  { rewrite (add_piece_spec b g r c team Hwf), Hv.
    now rewrite (proj2 (Z.ltb_lt _ _) Hpos). }
  split; [split; [done|now apply placed_grid_square]|]. split.
  - unfold turn_consistent, spec_next_turn. cbn [turn].
    destruct (spec_has_move (placed_grid g team r c) (opponent team)) eqn:E1;
      [done|].
    destruct (spec_has_move (placed_grid g team r c) team) eqn:E2; done.
  - apply valid_input_true in Hv as (Hin & _ & Hcell).
    rewrite (count_placed_grid g team r c blank Hsq Hin Hcell Hteam).
    unfold holds. destruct team; try done; simpl;
      repeat case_decide; try done; lia.
Qed.

Lemma white_replies_total fuel :
  forall n b g,
    well_formed b g -> turn_consistent b g ->
    count_pieces g blank < Z.of_nat fuel ->
    exists n' b' g',
      white_replies fuel n b = Ok (n', b') /\
      well_formed b' g' /\ turn_consistent b' g' /\
      turn b' <> white /\ (n' = n \/ n' = 1) /\
      ((turn b = blank -> n = 1) -> turn b' = blank -> n' = 1).
Proof.
  induction fuel as [|fuel IH]; intros n b g Hwf Hcons Hfuel.
  { pose proof (count_blank_bound g). lia. }
  cbn [white_replies].
  rewrite (bind_ok get_turn _ b (turn b) b eq_refl).
  case_bool_decide as Ht.
  2:{ exists n, b, g. split; [done|]. split; [done|]. split; [done|].
      split; [done|]. split; [now left|tauto]. }
  pose proof (_get_moves_listed b g white Hwf) as Hm.
  rewrite (bind_ok _ _ _ _ _ Hm).
  assert (Hne : listed_moves g (turn b) white <> []).
  { pose proof (listed_moves_nonempty b g Hwf) as H.
    assert (Hmv : spec_has_move g (turn b) = true)
      by (apply Hcons; now rewrite Ht).
    rewrite Ht in H, Hmv |- *. now apply H. }
  destruct (listed_moves g (turn b) white) as [|[[r c] s] l0] eqn:El; [done|].
  assert (Hin : (r, c, s) ∈ listed_moves g (turn b) white)
    by (rewrite El; left).
  destruct (add_piece_listed b g white r c s Hwf ltac:(done) Hin)
    as (b1 & g1 & Hadd & Hwf1 & Hcons1 & Hcount).
  rewrite (bind_ok (lift (getitem ((r, c, s) :: l0) 0)) _ b (r, c, s) b eq_refl).
  unfold move_r, move_c. cbn [fst snd].
  rewrite (bind_ok _ _ _ _ _ Hadd).
  rewrite (bind_ok get_turn _ b1 (turn b1) b1 eq_refl).
  destruct (IH (if bool_decide (turn b1 = blank) then 1 else n) b1 g1
              Hwf1 Hcons1 ltac:(lia))
    as (n' & b' & g' & Hrun & Hwf' & Hcons' & Hnw & Hn' & Hblank).
  exists n', b', g'. split; [done|]. split; [done|]. split; [done|].
  split; [done|]. split.
  - case_bool_decide; destruct Hn' as [-> | ->]; tauto.
  - intros _. apply Hblank. intros Hb1. now rewrite bool_decide_eq_true_2.
Qed.

Lemma white_replies_loop_total n b g :
  well_formed b g -> turn_consistent b g ->
  exists n' b' g',
    white_replies_loop n b = Ok (n', b') /\
    well_formed b' g' /\ turn_consistent b' g' /\
    turn b' <> white /\ (n' = n \/ n' = 1) /\
    ((turn b = blank -> n = 1) -> turn b' = blank -> n' = 1).
Proof.
  intros Hwf Hcons. unfold white_replies_loop.
  apply (white_replies_total _ n b g Hwf Hcons).
  unfold reply_budget. rewrite (proj1 Hwf).
  pose proof (count_blank_bound g). lia.
Qed.

Lemma candidate_branch_total fuel recurse n move b g :
  recurse_ok fuel recurse -> well_formed b g ->
  move ∈ listed_moves g (turn b) black ->
  1 <= n <= Z.of_nat (S fuel) ->
  exists n' res b',
    candidate_branch recurse n move b = Ok ((n', res), b') /\
    (n' = n \/ n' = 1).
Proof.
  intros Hrec Hwf Hin Hn. destruct move as [[r c] s].
  destruct (add_piece_listed b g black r c s Hwf ltac:(done) Hin)
    as (b1 & g1 & Hadd & Hwf1 & Hcons1 & _).
  unfold candidate_branch, move_r, move_c. cbn [fst snd].
  rewrite (bind_ok _ _ _ _ _ Hadd).
  rewrite (bind_ok get_turn _ b1 (turn b1) b1 eq_refl).
  set (n1 := if bool_decide (turn b1 = blank) then 1 else n).
  destruct (white_replies_loop_total n1 b1 g1 Hwf1 Hcons1)
    as (n2 & b2 & g2 & Hrun & Hwf2 & Hcons2 & Hnw & Hn2 & Hblank).
  cbv zeta. rewrite (bind_ok _ _ _ _ _ Hrun).
  assert (Hn12 : n2 = n \/ n2 = 1).
  { unfold n1 in Hn2. case_bool_decide; destruct Hn2 as [-> | ->]; tauto. }
  assert (Hb2 : turn b2 = blank -> n2 = 1).
  { apply Hblank. intros Hb1. unfold n1. now rewrite bool_decide_eq_true_2. }
  destruct (Hrec (n2 - 1) (Some (r, c, s)) b2 g2 Hwf2 Hcons2) as (mv & v & Hr).
  { lia. }
  { intros Hnz. destruct (turn b2) eqn:E; [done|done|]. specialize (Hb2 eq_refl). lia. }
  rewrite (bind_ok _ _ _ _ _ Hr). exists n2, (mv, v), b2. done.
Qed.

Lemma candidates_from_total fuel recurse b g :
  recurse_ok fuel recurse -> well_formed b g ->
  forall ms n res,
    (forall m, m ∈ ms -> m ∈ listed_moves g (turn b) black) ->
    1 <= n <= Z.of_nat (S fuel) ->
    exists n' res',
      candidates_from recurse ms (n, res) b = Ok ((n', res'), b) /\
      map fst res' = map fst res ++ ms.
Proof.
  intros Hrec Hwf. unfold candidates_from.
  induction ms as [|m ms IH]; intros n res Hms Hn.
  { exists n, res. split; [done|]. now rewrite app_nil_r. }
  destruct (candidate_branch_total fuel recurse n m b g Hrec Hwf
              (Hms m ltac:(left)) Hn) as (n' & [mv v] & b' & Hrun & Hn').
  destruct (IH n' (res ++ [(m, v)])) as (n'' & res'' & Hloop & Hmap).
  { intros m' Hm'. apply Hms. now right. }
  { destruct Hn' as [-> | ->]; lia. }
  exists n'', res''. split.
  - cbn [for_each]. unfold bind at 1. cbv beta iota.
    unfold bind at 1, deepcopy_self at 1. unfold bind at 1, run_on at 1.
    rewrite Hrun. cbn [fst snd]. unfold ret at 1. exact Hloop.
  - rewrite Hmap, map_app, <- app_assoc. reflexivity.
Qed.

Lemma strong_move_recurse_step fuel n move b g :
  recurse_ok fuel (strong_move_recurse fuel) ->
  well_formed b g -> turn_consistent b g ->
  1 <= n <= Z.of_nat (S fuel) -> turn b = black ->
  exists m v,
    strong_move_recurse (S fuel) n move b = Ok ((Some m, v), b) /\
    m ∈ listed_moves g black black.
Proof.
  intros Hrec Hwf Hcons Hn Ht. cbn [strong_move_recurse].
  destruct (Z.eqb_spec n 0) as [|_]; [lia|].
  pose proof (_get_moves_listed b g black Hwf) as Hm.
  rewrite (bind_ok _ _ _ _ _ Hm). rewrite Ht in *.
  set (l := listed_moves g black black) in *.
  assert (Hne : l <> []).
  { unfold l. pose proof (listed_moves_nonempty b g Hwf) as H.
    rewrite Ht in H. apply H. unfold turn_consistent in Hcons.
    rewrite Ht in Hcons. now apply Hcons. }
  destruct (candidates_from_total fuel _ b g Hrec Hwf l n [])
    as (n' & res & Hloop & Hmap); [now rewrite Ht|done|].
  unfold candidates_loop. fold (candidates_from (strong_move_recurse fuel) l (n, [])).
  rewrite (bind_ok _ _ _ _ _ Hloop). cbn [snd]. cbv zeta.
  pose proof (sorted_reverse_perm snd res) as Hperm.
  destruct (sorted_reverse snd res) as [|[m v] rest] eqn:Es.
  { apply Permutation_nil_l in Hperm. subst res. simpl in Hmap.
    exfalso. apply Hne. now rewrite <- Hmap. }
  exists m, v. split; [reflexivity|].
  assert (Hin : (m, v) ∈ res) by (rewrite <- Hperm; left).
  simpl in Hmap. rewrite <- Hmap.
  apply list_elem_of_fmap. exists (m, v). done.
Qed.

Lemma strong_move_recurse_ok fuel : recurse_ok fuel (strong_move_recurse fuel).
Proof.
  induction fuel as [|fuel IH]; intros n move b g Hwf Hcons Hn Ht.
  - assert (n = 0) as -> by lia. cbn [strong_move_recurse Z.eqb].
    rewrite (bind_ok _ _ _ _ _ (num_pieces_spec b g black Hwf)). eauto.
  - destruct (Z.eq_dec n 0) as [-> | Hnz].
    + cbn [strong_move_recurse Z.eqb].
      rewrite (bind_ok _ _ _ _ _ (num_pieces_spec b g black Hwf)). eauto.
    + destruct (strong_move_recurse_step fuel n move b g IH Hwf Hcons
                  ltac:(lia) (Ht Hnz)) as (m & v & Hr & _).
      eauto.
Qed.

(** X17.  On a well-formed board where black has a move, [strong_move]
    returns: the search neither raises nor runs short of the iterations
    granted to its loops (every greedy reply of white fills a square, and
    the depth is 3).  What it returns is one of the moves [_get_moves]
    lists for black, which [add_piece] accepts for black with the score
    listed.  The board it was given is left as it was: the search plays on
    copies. *)
Theorem strong_move_returns_listed (b : Board) (g : Grid) :
  well_formed b g ->
  exists l,
    _get_moves black b = Ok (l, b) /\
    (l <> [] ->
     exists r c s,
       (r, c, s) ∈ l /\ strong_move b = Ok (Some (r, c, s), b) /\
       exists b', add_piece r c black b = Ok (s, b')).
Proof.
  intros Hwf. exists (listed_moves g (turn b) black).
  split; [exact (_get_moves_listed b g black Hwf)|]. intros Hne.
  apply list_nonempty_elem in Hne as [[[r0 c0] s0] H0]. pose proof H0 as H0'.
  apply (get_moves_elem b g black _ _ _ Hwf) in H0' as (Hv & -> & Hpos).
  apply valid_input_true in Hv as (Hin & Ht & Hcell).
  assert (Hcons : turn_consistent b g).
  { intros _. rewrite Ht. apply spec_has_move_true. eauto. }
  destruct (strong_move_recurse_step 2 3 None b g (strong_move_recurse_ok 2)
              Hwf Hcons ltac:(lia) Ht) as ([[r c] s] & v & Hrun & Hm).
  rewrite Ht. exists r, c, s. split; [done|]. split.
  - unfold strong_move. cbv zeta. unfold bind at 1, deepcopy_self at 1.
    unfold bind at 1, run_on at 1.
    change (Z.to_nat 3) with 3%nat. rewrite Hrun. reflexivity.
  - assert (Hm' : (r, c, s) ∈ listed_moves g (turn b) black)
      by now rewrite Ht.
    now apply (listed_move_accepted b g black r c s Hwf) in Hm' as [_ ?].
Qed.

Lemma strong_move_returns_listed_witness :
  well_formed after_1_3_board after_1_3_grid /\
  exists l,
    _get_moves black after_1_3_board = Ok (l, after_1_3_board) /\
    (l <> [] ->
     exists r c s,
       (r, c, s) ∈ l /\
       strong_move after_1_3_board = Ok (Some (r, c, s), after_1_3_board) /\
       exists b', add_piece r c black after_1_3_board = Ok (s, b')).
Proof.
  split; [exact after_1_3_board_well_formed|].
  exact (strong_move_returns_listed after_1_3_board after_1_3_grid
           after_1_3_board_well_formed).
Defined.

(* ===================================================================== *)
(** ** What a series of placements keeps                                   *)
(* ===================================================================== *)

Lemma placed_grid_len g t r c : len (placed_grid g t r c) = len g.
Proof. unfold placed_grid. now rewrite grid_set_len, flip_cells_len. Qed.

Lemma add_piece_cases b g r c team p b' :
  well_formed b g -> add_piece r c team b = Ok (p, b') ->
  (p = 0 /\ b' = b) \/
  (0 < p /\ exists g',
     well_formed b' g' /\ len g' = len g /\ turn_consistent b' g' /\
     count_pieces g' blank = count_pieces g blank - 1).
Proof.
  intros Hwf. pose proof Hwf as [Hb Hsq].
  rewrite (add_piece_spec b g r c team Hwf).
  destruct (valid_input g (turn b) r c team) eqn:Hv;
    [|intros [= <- <-]; now left].
  destruct (Z.ltb_spec 0 (spec_score g team r c)) as [Hpos|Hle];
    [|intros [= <- <-]; now left].
  cbn [andb]. intros [= <- <-]. right. split; [done|].
  assert (Hteam : team <> blank).
  { intros ->. rewrite spec_score_blank in Hpos. lia. }
  exists (placed_grid g team r c).
  split; [split; [done|now apply placed_grid_square]|].
  split; [apply placed_grid_len|]. split.
  - unfold turn_consistent, spec_next_turn. cbn [turn].
    destruct (spec_has_move (placed_grid g team r c) (opponent team)) eqn:E1;
      [done|].
    destruct (spec_has_move (placed_grid g team r c) team) eqn:E2; done.
  - apply valid_input_true in Hv as (Hin & _ & Hcell).
    rewrite (count_placed_grid g team r c blank Hsq Hin Hcell Hteam).
    unfold holds. destruct team; try done; simpl;
      repeat case_decide; try done; lia.
Qed.

Lemma played_invariant b0 g0 k b :
  well_formed b0 g0 -> turn_consistent b0 g0 -> played b0 k b ->
  exists g,
    well_formed b g /\ len g = len g0 /\ turn_consistent b g /\
    count_pieces g blank = count_pieces g0 blank - Z.of_nat k.
Proof.
  intros Hwf0 Hcons0 Hplay.
  induction Hplay as [|k b r c team p b' Hplay (g & Hwf & Hlen & Hcons & Hcount) Hadd].
  { exists g0. split; [done|]. split; [done|]. split; [done|]. lia. }
  destruct (add_piece_cases b g r c team p b' Hwf Hadd)
    as [[-> ->] | (Hpos & g' & Hwf' & Hlen' & Hcons' & Hcount')].
  - exists g. done.
  - exists g'. split; [done|]. split; [lia|]. split; [done|].
    destruct (Z.ltb_spec 0 p); lia.
Qed.

(** X18.  Start from a well-formed board whose side to move, if any, has
    somewhere to move, and call [add_piece] any number of times, with any
    arguments; say [k] of the calls placed a piece.  The board reached
    still has a square grid of the same size; [get_squares_left] has gone
    down by exactly [k], so no more pieces are placed than there were
    blank squares; and when its turn is not blank, [_get_moves] for the
    side to move is not empty: the game never waits for a side that
    cannot move. *)
Theorem played_board_invariants (b0 : Board) (g0 : Grid) (k : nat) (b : Board) :
  well_formed b0 g0 -> turn_consistent b0 g0 -> played b0 k b ->
  exists g left0,
    well_formed b g /\
    get_size b0 = Ok (len g0, b0) /\ get_size b = Ok (len g0, b) /\
    get_squares_left b0 = Ok (left0, b0) /\
    get_squares_left b = Ok (left0 - Z.of_nat k, b) /\
    Z.of_nat k <= left0 /\
    (turn b <> blank ->
     exists l, _get_moves (turn b) b = Ok (l, b) /\ l <> []).
Proof.
  intros Hwf0 Hcons0 Hplay.
  destruct (played_invariant b0 g0 k b Hwf0 Hcons0 Hplay)
    as (g & Hwf & Hlen & Hcons & Hcount).
  exists g, (count_pieces g0 blank). split; [done|].
  split; [apply get_size_ok, Hwf0|].
  split; [rewrite <- Hlen; apply get_size_ok, Hwf|].
  split; [apply get_squares_left_spec, Hwf0|].
  split; [rewrite <- Hcount; apply get_squares_left_spec, Hwf|].
  split; [pose proof (count_blank_bound g); lia|].
  intros Ht. exists (listed_moves g (turn b) (turn b)).
  split; [apply (_get_moves_listed b g (turn b) Hwf)|].
  apply (listed_moves_nonempty b g Hwf), Hcons, Ht.
Qed.

Lemma played_board_invariants_witness :
  well_formed new_4_board new_4_grid /\
  turn_consistent new_4_board new_4_grid /\
  played new_4_board 1 after_1_3_board /\
  exists g left0,
    well_formed after_1_3_board g /\
    get_size new_4_board = Ok (len new_4_grid, new_4_board) /\
    get_size after_1_3_board = Ok (len new_4_grid, after_1_3_board) /\
    get_squares_left new_4_board = Ok (left0, new_4_board) /\
    get_squares_left after_1_3_board
    = Ok (left0 - Z.of_nat 1, after_1_3_board) /\
    Z.of_nat 1 <= left0 /\
    (turn after_1_3_board <> blank ->
     exists l, _get_moves (turn after_1_3_board) after_1_3_board
               = Ok (l, after_1_3_board) /\ l <> []).
Proof.
  assert (Hcons : turn_consistent new_4_board new_4_grid)
    by (intros _; vm_compute; reflexivity).
  assert (Hplay : played new_4_board 1 after_1_3_board).
  { apply (played_call new_4_board 0 new_4_board 1 3 white 1 after_1_3_board).
    - apply played_none.
    - vm_compute. reflexivity. }
  split; [exact new_4_board_well_formed|].
  split; [exact Hcons|]. split; [exact Hplay|].
  exact (played_board_invariants new_4_board new_4_grid 1 after_1_3_board
           new_4_board_well_formed Hcons Hplay).
Defined.

(* ===================================================================== *)
(** ** The opening board and the first move                                *)
(* ===================================================================== *)

Lemma opening_grid_cell size r c :
  2 <= size -> 0 <= r < size -> 0 <= c < size ->
  cell_at (opening_grid size) r c = Some (opening_cell size r c).
Proof.
  intros Hsz Hr Hc.
  destruct (makeboard_grid size Hsz) as (g & Hmk & _ & _ & Hcell).
  rewrite (makeboard_opening_grid size Hsz) in Hmk.
  injection Hmk as <-. now apply Hcell.
Qed.

Lemma opening_grid_white_move sz :
  3 <= sz -> spec_has_move (opening_grid sz) white = true.
Proof.
  intros Hsz. set (h := sz / 2). set (g := opening_grid sz).
  assert (Hh : 1 <= h /\ h + 1 < sz).
  { pose proof (Z.mul_div_le sz 2 ltac:(lia)). fold h in H.
    assert (1 <= h) by (apply Z.div_le_lower_bound; lia). lia. }
  assert (Hlen : len g = sz) by (apply opening_grid_len; lia).
  assert (Hsq : square g) by apply opening_grid_square.
  assert (Hblank : cell_at g (h - 1) (h + 1) = Some blank).
  { unfold g. rewrite opening_grid_cell by lia. unfold opening_cell. fold h.
    rewrite !bool_decide_eq_false_2 by lia. reflexivity. }
  assert (Hwhite : cell_at g (h - 1) (h - 1) = Some white).
  { unfold g. rewrite opening_grid_cell by lia. unfold opening_cell. fold h.
    rewrite bool_decide_eq_true_2 by lia. reflexivity. }
  assert (Hblack : cell_at g (h - 1) h = Some black).
  { unfold g. rewrite opening_grid_cell by lia. unfold opening_cell. fold h.
    rewrite bool_decide_eq_false_2 by lia.
    rewrite bool_decide_eq_true_2 by lia. reflexivity. }
  assert (Hin : in_bounds g (h - 1) (h + 1)) by (unfold in_bounds; lia).
  apply spec_has_move_true. exists (h - 1), (h + 1).
  split; [done|]. split; [done|].
  assert (Hcap : (h - 1, h) ∈ spec_capture_set g white (h - 1) (h + 1)).
  { apply (spec_capture_set_elem g white _ _ _ Hsq Hin).
    exists (0, -1). split.
    { unfold directions.
      repeat first [apply list_elem_of_here | apply list_elem_of_further]. }
    exists 2%nat, 1%nat. cbn [fst snd]. split; [lia|]. split.
    { unfold ray_cell. f_equal; lia. }
    split.
    { unfold ray_cell. cbn [fst snd].
      replace (h - 1 + Z.of_nat 2 * 0) with (h - 1) by lia.
      replace (h + 1 + Z.of_nat 2 * -1) with (h - 1) by lia. done. }
    split; [done|]. intros j Hj. assert (j = 1%nat) as -> by lia.
    exists black. unfold ray_cell. cbn [fst snd].
    replace (h - 1 + Z.of_nat 1 * 0) with (h - 1) by lia.
    replace (h + 1 + Z.of_nat 1 * -1) with h by lia. done. }
  unfold spec_score.
  destruct (decide (size (spec_capture_set g white (h - 1) (h + 1)) = 0%nat))
    as [E|E]; [|lia].
  apply size_empty_iff in E. rewrite E in Hcap. now apply elem_of_empty in Hcap.
Qed.

(** X19.  On the board [makeboard(size)] returns, [size >= 2],
    [can_move(white)] is true exactly when [size >= 3]: from size 3 on
    white, whose turn it is, has a first move, and the turn agrees with
    the grid.  At size 2 the four centre pieces fill the grid: it is
    white's turn and white cannot move. *)
Theorem makeboard_first_move (size : Z) :
  2 <= size ->
  exists b g,
    makeboard size = Ok b /\ well_formed b g /\ turn b = white /\
    can_move white b = Ok (bool_decide (3 <= size), b) /\
    (3 <= size -> turn_consistent b g).
Proof.
  intros Hsz.
  exists (mkBoard (Some (opening_grid size)) white), (opening_grid size).
  assert (Hwf : well_formed (mkBoard (Some (opening_grid size)) white)
                            (opening_grid size))
    by (split; [done|apply opening_grid_square]).
  split; [now apply makeboard_opening_grid|]. split; [done|].
  split; [done|]. split.
  - rewrite (can_move_spec _ _ white Hwf). cbn [turn].
    rewrite bool_decide_eq_true_2 by done. cbn [andb].
    case_bool_decide as H3.
    + now rewrite opening_grid_white_move.
    + assert (size = 2) as -> by lia. vm_compute. reflexivity.
  - intros H3 _. cbn [turn]. now apply opening_grid_white_move.
Qed.

Lemma makeboard_first_move_witness :
  2 <= 8 /\
  exists b g,
    makeboard 8 = Ok b /\ well_formed b g /\ turn b = white /\
    can_move white b = Ok (bool_decide (3 <= 8), b) /\
    (3 <= 8 -> turn_consistent b g).
Proof.
  split; [lia|]. apply (makeboard_first_move 8). lia.
Defined.
